(** * MaritimeRocks: the now-playing lower third (CasparGFX/now_playing.html)

    A shallow embedding of the overlay's script: the three commands
    [play], [update] and [stop], the typewriter [createTypewriter], the
    browser's timer registry ([setTimeout] / [clearTimeout]) and the event
    loop that fires the registered closures.

    Conventions of the embedding.
    - Inline styles are kept as the numbers the script writes: ['0'],
      ['1000px'] and [newWidth + 'px'] are pixel counts, [None] is an inline
      style that was never written (the style sheet's value then applies,
      and [parseInt] of the empty string is NaN).
    - The closures handed to [setTimeout] are defunctionalised: one
      constructor of [action] per arrow function of the script, carrying
      what the closure captures.
    - [textContainer.scrollWidth] is a reading of the rendering surface; it
      is a parameter [scrollWidth : Dom -> Z] of everything that runs
      handlers.
    - A timer fires exactly when the clock reaches its due time; among
      timers due at the same time the one registered first fires first. *)

From Stdlib Require Import ZArith QArith Qround List Sorted FinFun String Ascii
  Bool Lia.
Import ListNotations.
Open Scope Z_scope.

(** ** JavaScript values of the request fields *)

(** The values a request carries in its fields: the primitives, String
    objects, whose inherited [split('')] gives the characters of the string
    they wrap, and objects that have no [split] method at all. *)
Inductive jsval : Type :=
| JUndefined
| JNull
| JBool (b : bool)
| JNum (n : Z)
| JNaN
| JStr (s : string)
| JObj                  (* an object without a [split] method: {}, an array *)
| JStrObj (s : string). (* a String object, [new String(s)] *)

(** ToBoolean. *)
Definition truthy (v : jsval) : bool :=
  match v with
  | JUndefined | JNull | JNaN => false
  | JBool b => b
  | JNum n => negb (n =? 0)
  | JStr s => negb (String.eqb s EmptyString)
  | JObj | JStrObj _ => true
  end.


(** ToPrimitive on the modelled values: a String object gives the string
    it wraps. *)
Definition unboxed (v : jsval) : jsval :=
  match v with JStrObj s => JStr s | _ => v end.


(** [v || dflt] with a string literal on the right. *)
Definition js_or (v : jsval) (dflt : string) : jsval :=
  if truthy v then v else JStr dflt.

(** The object handed to [play] / [update]; an omitted property reads as
    [JUndefined]. *)
Record request : Type := { artist : jsval; song : jsval }.

(** [{}], the default of the [data] parameter. *)
Definition empty_request : request :=
  {| artist := JUndefined; song := JUndefined |}.

(** ** The document *)

(** [span.innerHTML]: ['&nbsp;'] for a space, the character otherwise. *)
Inductive glyph : Type :=
| Nbsp
| Glyph (c : ascii).

(** A [span.char] element; class [char] has opacity 0 until the typewriter
    sets [span.style.opacity = 1]. *)
Record span : Type := { html : glyph; shown : bool }.

(** The three text elements: [#now-playing-text], [#artist-text],
    [#song-text]. *)
Inductive field : Type := NowPlaying | Artist | Song.

(** The values written to [logo.style.transform]. *)
Inductive transform : Type :=
| Scale1          (* 'scale(1)' *)
| Scale1Rot0      (* 'scale(1) rotate(0deg)' *)
| Flourish.       (* 'scale(1.05) rotate(-360deg)' *)

(** Span elements are objects: a closure of the typewriter keeps its span
    after the span was removed from its parent. [nodes] holds every span
    created so far (a span's identity is its index), the three text
    elements hold the identities of their children. *)
Record Dom : Type := {
  lt_width : option Z;               (* lowerThird.style.width *)
  lt_bottom : option Z;              (* lowerThird.style.bottom *)
  logo_bottom : option Z;            (* logo.style.bottom *)
  logo_transform : option transform; (* logo.style.transform *)
  logo_opacity : option Z;           (* logo.style.opacity *)
  logo_shimmer : bool;               (* 'shimmer-effect' in logo.classList *)
  tc_opacity : option Z;             (* textContainer.style.opacity *)
  nodes : list span;
  np_text : list nat;
  artist_text : list nat;
  song_text : list nat
}.

Definition set_lt_width (v : option Z) (d : Dom) : Dom :=
  {| lt_width := v; lt_bottom := lt_bottom d; logo_bottom := logo_bottom d;
     logo_transform := logo_transform d; logo_opacity := logo_opacity d;
     logo_shimmer := logo_shimmer d; tc_opacity := tc_opacity d;
     nodes := nodes d; np_text := np_text d; artist_text := artist_text d;
     song_text := song_text d |}.

Definition set_lt_bottom (v : option Z) (d : Dom) : Dom :=
  {| lt_width := lt_width d; lt_bottom := v; logo_bottom := logo_bottom d;
     logo_transform := logo_transform d; logo_opacity := logo_opacity d;
     logo_shimmer := logo_shimmer d; tc_opacity := tc_opacity d;
     nodes := nodes d; np_text := np_text d; artist_text := artist_text d;
     song_text := song_text d |}.

Definition set_logo_bottom (v : option Z) (d : Dom) : Dom :=
  {| lt_width := lt_width d; lt_bottom := lt_bottom d; logo_bottom := v;
     logo_transform := logo_transform d; logo_opacity := logo_opacity d;
     logo_shimmer := logo_shimmer d; tc_opacity := tc_opacity d;
     nodes := nodes d; np_text := np_text d; artist_text := artist_text d;
     song_text := song_text d |}.

Definition set_logo_transform (v : option transform) (d : Dom) : Dom :=
  {| lt_width := lt_width d; lt_bottom := lt_bottom d;
     logo_bottom := logo_bottom d; logo_transform := v;
     logo_opacity := logo_opacity d; logo_shimmer := logo_shimmer d;
     tc_opacity := tc_opacity d; nodes := nodes d; np_text := np_text d;
     artist_text := artist_text d; song_text := song_text d |}.

Definition set_logo_opacity (v : option Z) (d : Dom) : Dom :=
  {| lt_width := lt_width d; lt_bottom := lt_bottom d;
     logo_bottom := logo_bottom d; logo_transform := logo_transform d;
     logo_opacity := v; logo_shimmer := logo_shimmer d;
     tc_opacity := tc_opacity d; nodes := nodes d; np_text := np_text d;
     artist_text := artist_text d; song_text := song_text d |}.

Definition set_logo_shimmer (v : bool) (d : Dom) : Dom :=
  {| lt_width := lt_width d; lt_bottom := lt_bottom d;
     logo_bottom := logo_bottom d; logo_transform := logo_transform d;
     logo_opacity := logo_opacity d; logo_shimmer := v;
     tc_opacity := tc_opacity d; nodes := nodes d; np_text := np_text d;
     artist_text := artist_text d; song_text := song_text d |}.

Definition set_tc_opacity (v : option Z) (d : Dom) : Dom :=
  {| lt_width := lt_width d; lt_bottom := lt_bottom d;
     logo_bottom := logo_bottom d; logo_transform := logo_transform d;
     logo_opacity := logo_opacity d; logo_shimmer := logo_shimmer d;
     tc_opacity := v; nodes := nodes d; np_text := np_text d;
     artist_text := artist_text d; song_text := song_text d |}.

Definition set_nodes (v : list span) (d : Dom) : Dom :=
  {| lt_width := lt_width d; lt_bottom := lt_bottom d;
     logo_bottom := logo_bottom d; logo_transform := logo_transform d;
     logo_opacity := logo_opacity d; logo_shimmer := logo_shimmer d;
     tc_opacity := tc_opacity d; nodes := v; np_text := np_text d;
     artist_text := artist_text d; song_text := song_text d |}.

(** The children of a text element. *)
Definition children (el : field) (d : Dom) : list nat :=
  match el with
  | NowPlaying => np_text d
  | Artist => artist_text d
  | Song => song_text d
  end.

Definition set_children (el : field) (v : list nat) (d : Dom) : Dom :=
  {| lt_width := lt_width d; lt_bottom := lt_bottom d;
     logo_bottom := logo_bottom d; logo_transform := logo_transform d;
     logo_opacity := logo_opacity d; logo_shimmer := logo_shimmer d;
     tc_opacity := tc_opacity d; nodes := nodes d;
     np_text := match el with NowPlaying => v | _ => np_text d end;
     artist_text := match el with Artist => v | _ => artist_text d end;
     song_text := match el with Song => v | _ => song_text d end |}.

(** [element.appendChild(span)] for a span just created. *)
Definition appendChild (el : field) (sp : span) (d : Dom) : Dom :=
  set_children el (children el d ++ [List.length (nodes d)])
    (set_nodes (nodes d ++ [sp]) d).

(** [span.style.opacity = 1] on the span of identity [id]. *)
Fixpoint show_at (id : nat) (l : list span) : list span :=
  match l, id with
  | [], _ => []
  | sp :: r, O => {| html := html sp; shown := true |} :: r
  | sp :: r, S k => sp :: show_at k r
  end.

Definition show_span (id : nat) (d : Dom) : Dom :=
  set_nodes (show_at id (nodes d)) d.

(** What a text element shows: its children in order, each with its
    glyph and whether it is opaque. *)
Definition rendered (el : field) (d : Dom) : list span :=
  flat_map (fun id => match nth_error (nodes d) id with
                      | Some sp => [sp]
                      | None => []
                      end) (children el d).

(** Computed values: the inline style when one was written, the style
    sheet's declaration otherwise ([#lower-third]: width 0, bottom -200px;
    [#logo]: bottom -200px, opacity 1, scale(1) rotate(0deg);
    [.text-container]: opacity 0). *)
Definition box_width (d : Dom) : Z :=
  match lt_width d with Some w => w | None => 0 end.
Definition box_bottom (d : Dom) : Z :=
  match lt_bottom d with Some b => b | None => -200 end.
Definition logo_pos (d : Dom) : Z :=
  match logo_bottom d with Some b => b | None => -200 end.
Definition text_opacity (d : Dom) : Z :=
  match tc_opacity d with Some o => o | None => 0 end.
Definition logo_turn (d : Dom) : transform :=
  match logo_transform d with Some t => t | None => Scale1Rot0 end.

(** The document as loaded: nothing written inline, the text elements
    empty. *)
Definition fresh_dom : Dom :=
  {| lt_width := None; lt_bottom := None; logo_bottom := None;
     logo_transform := None; logo_opacity := None; logo_shimmer := false;
     tc_opacity := None; nodes := []; np_text := []; artist_text := [];
     song_text := [] |}.

(** ** Timers and the script's state *)

(** The callbacks passed to [createTypewriter] in [play]. *)
Inductive callback : Type :=
| CbArtist (data : request)   (* starts the artist line, then CbSong *)
| CbSong (data : request)     (* starts the song line, then CbDone *)
| CbDone.                     (* all text typed *)

(** The closures handed to [setTimeout]. *)
Inductive action : Type :=
| DelayedStart (data : request)  (* play: the 1000 ms closure *)
| Expand                         (* play: the 500 ms closure *)
| Reveal (data : request)        (* play: the 2000 ms closure *)
| ShimmerOff                     (* play: the 1300 ms closure *)
| AutoHide                       (* play: the 12000 ms closure *)
| Tick (sp : nat)                (* createTypewriter: one character *)
| TypeDone (cb : callback)       (* createTypewriter: the callback *)
| ExitCollapse                   (* stop: the 500 ms closure *)
| ExitLogoStage                  (* stop: the 1200 ms closure *)
| ExitBox                        (* stop: the 3500 ms closure *)
| ExitLogoOff.                   (* stop: the 1800 ms closure *)

Record timer : Type := { tid : nat; due : Z; act : action }.

Record State : Type := {
  clock : Z;                          (* milliseconds *)
  next_tid : nat;                     (* the handle the next setTimeout returns *)
  timers : list timer;                (* pending, in order of registration *)
  autoHideTimeout : option nat;       (* the script's two globals *)
  delayedStartTimeout : option nat;
  dom : Dom;
  uncaught : nat                      (* exceptions that reached the event loop *)
}.

Definition set_clock (v : Z) (s : State) : State :=
  {| clock := v; next_tid := next_tid s; timers := timers s;
     autoHideTimeout := autoHideTimeout s;
     delayedStartTimeout := delayedStartTimeout s; dom := dom s;
     uncaught := uncaught s |}.

Definition set_timers (v : list timer) (s : State) : State :=
  {| clock := clock s; next_tid := next_tid s; timers := v;
     autoHideTimeout := autoHideTimeout s;
     delayedStartTimeout := delayedStartTimeout s; dom := dom s;
     uncaught := uncaught s |}.

Definition set_autoHideTimeout (v : option nat) (s : State) : State :=
  {| clock := clock s; next_tid := next_tid s; timers := timers s;
     autoHideTimeout := v;
     delayedStartTimeout := delayedStartTimeout s; dom := dom s;
     uncaught := uncaught s |}.

Definition set_delayedStartTimeout (v : option nat) (s : State) : State :=
  {| clock := clock s; next_tid := next_tid s; timers := timers s;
     autoHideTimeout := autoHideTimeout s;
     delayedStartTimeout := v; dom := dom s;
     uncaught := uncaught s |}.

Definition with_dom (f : Dom -> Dom) (s : State) : State :=
  {| clock := clock s; next_tid := next_tid s; timers := timers s;
     autoHideTimeout := autoHideTimeout s;
     delayedStartTimeout := delayedStartTimeout s; dom := f (dom s);
     uncaught := uncaught s |}.

Definition report_exception (s : State) : State :=
  {| clock := clock s; next_tid := next_tid s; timers := timers s;
     autoHideTimeout := autoHideTimeout s;
     delayedStartTimeout := delayedStartTimeout s; dom := dom s;
     uncaught := S (uncaught s) |}.

(** The page just loaded: [let autoHideTimeout; let delayedStartTimeout;]. *)
Definition page_load : State :=
  {| clock := 0; next_tid := 1%nat; timers := [];
     autoHideTimeout := None; delayedStartTimeout := None;
     dom := fresh_dom; uncaught := 0%nat |}.

(** [setTimeout(handler, delay)]: the delay is converted to an integer
    number of milliseconds and is at least 0; the call returns a fresh
    handle. *)
Definition setTimeout (a : action) (delay : Q) (s : State) : nat * State :=
  (next_tid s,
   {| clock := clock s; next_tid := S (next_tid s);
      timers := timers s ++
                [{| tid := next_tid s;
                    due := clock s + Z.max 0 (Qfloor delay);
                    act := a |}];
      autoHideTimeout := autoHideTimeout s;
      delayedStartTimeout := delayedStartTimeout s; dom := dom s;
      uncaught := uncaught s |}).

(** [clearTimeout(handle)]: removes the timer of that handle when it is
    still pending; nothing happens for [undefined] or a handle whose timer
    already fired. *)
Definition clearTimeout (h : option nat) (s : State) : State :=
  match h with
  | None => s
  | Some id => set_timers (filter (fun tm => negb (Nat.eqb (tid tm) id)) (timers s)) s
  end.

(** A call returns or throws; either way it leaves a state behind. *)
Inductive outcome : Type :=
| Returned (s : State)
| Threw (s : State).

Definition state_of (o : outcome) : State :=
  match o with Returned s | Threw s => s end.

(** ** createTypewriter *)

(** The size computed on each letter (lines 155-161): [textWidth + 400],
    raised to 1000, capped at 1600. *)
Definition baseWidth : Z := 1000.
Definition paddingExtra : Z := 400.
Definition maxWidth : Z := 1600.

Definition size_calc (textWidth : Z) : Z :=
  let newWidth := textWidth + paddingExtra in
  let newWidth := if newWidth <? baseWidth then baseWidth else newWidth in
  let newWidth := if maxWidth <? newWidth then maxWidth else newWidth in
  newWidth.

(** [clamp(x, lo, hi)] as the specification writes it. *)
Definition clamp (x lo hi : Z) : Z := Z.max lo (Z.min x hi).

(** The smart speed adjustment (lines 136-139). *)
Definition reveal_speed (baseSpeed : Q) (len : nat) : Q :=
  if (100 <? len)%nat then (baseSpeed / 2)%Q else baseSpeed.

Definition span_of (c : ascii) : span :=
  {| html := if Ascii.eqb c " "%char then Nbsp else Glyph c; shown := false |}.

(** [spans.forEach((span, i) => setTimeout(..., i * speed))], the spans
    being those of identities [first], [first + 1], ... *)
Fixpoint schedule_ticks (first : nat) (i : nat) (count : nat) (speed : Q)
    (s : State) : State :=
  match count with
  | O => s
  | S k =>
      schedule_ticks first (S i) k speed
        (snd (setTimeout (Tick (first + i)) (inject_Z (Z.of_nat i) * speed)%Q s))
  end.

Definition createTypewriter (el : field) (text : jsval) (baseSpeed : Q)
    (cb : option callback) (s : State) : outcome :=
  (* element.innerHTML = '' *)
  let s := with_dom (set_children el []) s in
  match text with
  | JStr str | JStrObj str =>
      let chars := list_ascii_of_string str in
      let speed := reveal_speed baseSpeed (List.length chars) in
      let first := List.length (nodes (dom s)) in
      (* chars.forEach: create and append one span per character *)
      let s := fold_left (fun st c => with_dom (appendChild el (span_of c)) st)
                         chars s in
      let s := schedule_ticks first 0 (List.length chars) speed s in
      match cb with
      | Some k =>
          Returned (snd (setTimeout (TypeDone k)
                           (inject_Z (Z.of_nat (List.length chars)) * speed + 500)%Q s))
      | None => Returned s
      end
  | _ =>
      (* text.split is not a function *)
      Threw s
  end.

(** ** The commands *)

(** The default parameter [data = {}]: the request when one is passed, the
    empty object otherwise. *)
Definition data_of (arg : option request) : request :=
  match arg with Some d => d | None => empty_request end.

Definition play (arg : option request) (s : State) : State :=
  let data := data_of arg in
  let s := clearTimeout (autoHideTimeout s) s in
  let s := clearTimeout (delayedStartTimeout s) s in
  let s := with_dom (set_children NowPlaying []) s in
  let s := with_dom (set_children Artist []) s in
  let s := with_dom (set_children Song []) s in
  let s := with_dom (set_tc_opacity (Some 0)) s in
  let s := with_dom (set_logo_opacity (Some 1)) s in
  let s := with_dom (set_logo_transform (Some Scale1)) s in
  let s := with_dom (set_lt_width (Some 0)) s in
  let s := with_dom (set_lt_bottom (Some (-200))) s in
  let s := with_dom (set_logo_bottom (Some (-100))) s in
  let (h, s) := setTimeout (DelayedStart data) 1000 s in
  set_delayedStartTimeout (Some h) s.

Definition stop (s : State) : State :=
  let s := clearTimeout (autoHideTimeout s) s in
  let s := clearTimeout (delayedStartTimeout s) s in
  let s := with_dom (set_tc_opacity (Some 0)) s in
  let s := snd (setTimeout ExitCollapse 500 s) in
  let s := snd (setTimeout ExitLogoStage 1200 s) in
  let s := snd (setTimeout ExitBox 3500 s) in
  let s := snd (setTimeout ExitLogoOff 1800 s) in
  s.

Definition update (arg : option request) (s : State) : State :=
  play arg s.

(** ** The closures and the event loop *)

Section Handlers.

Variable scrollWidth : Dom -> Z.

(** The body of the per-character closure (lines 151-167). *)
Definition reveal_tick (sp : nat) (s : State) : State :=
  let s := with_dom (show_span sp) s in
  let textWidth := scrollWidth (dom s) in
  let newWidth := size_calc textWidth in
  match lt_width (dom s) with
  | Some w =>
      if w <? newWidth then with_dom (set_lt_width (Some newWidth)) s else s
  | None => s   (* parseInt('') is NaN, the comparison is false *)
  end.

Definition run_callback (cb : callback) (s : State) : outcome :=
  match cb with
  | CbArtist data =>
      createTypewriter Artist (js_or (artist data) "Artist Name") 50
        (Some (CbSong data)) s
  | CbSong data =>
      createTypewriter Song (js_or (song data) "Song Title") 50
        (Some CbDone) s
  | CbDone => Returned s
  end.

Definition exec (a : action) (s : State) : outcome :=
  match a with
  | DelayedStart data =>
      let s := with_dom (set_lt_bottom (Some 40)) s in
      let s := with_dom (set_logo_bottom (Some (-80))) s in
      let s := with_dom (set_logo_transform (Some Scale1)) s in
      let s := snd (setTimeout Expand 500 s) in
      let s := snd (setTimeout (Reveal data) 2000 s) in
      let (h, s) := setTimeout AutoHide 12000 s in
      Returned (set_autoHideTimeout (Some h) s)
  | Expand =>
      let s := with_dom (set_lt_width (Some 1000)) s in
      Returned (with_dom (set_logo_transform (Some Flourish)) s)
  | Reveal data =>
      let s := with_dom (set_tc_opacity (Some 1)) s in
      match createTypewriter NowPlaying (JStr "Now Playing:") 50
              (Some (CbArtist data)) s with
      | Returned s =>
          let s := with_dom (set_logo_shimmer true) s in
          Returned (snd (setTimeout ShimmerOff 1300 s))
      | Threw s => Threw s
      end
  | ShimmerOff => Returned (with_dom (set_logo_shimmer false) s)
  | AutoHide => Returned (stop s)
  | Tick sp => Returned (reveal_tick sp s)
  | TypeDone cb => run_callback cb s
  | ExitCollapse =>
      let s := with_dom (set_lt_width (Some 0)) s in
      Returned (with_dom (set_logo_transform (Some Scale1Rot0)) s)
  | ExitLogoStage => Returned (with_dom (set_logo_bottom (Some (-80))) s)
  | ExitBox => Returned (with_dom (set_lt_bottom (Some (-200))) s)
  | ExitLogoOff => Returned (with_dom (set_logo_bottom (Some (-350))) s)
  end.

(** [earlier a b]: [a] fires before [b]. *)
Definition earlier (a b : timer) : bool :=
  (due a <? due b) || ((due a =? due b) && (tid a <? tid b)%nat).

Fixpoint next_timer (l : list timer) : option timer :=
  match l with
  | [] => None
  | tm :: r =>
      match next_timer r with
      | Some m => Some (if earlier m tm then m else tm)
      | None => Some tm
      end
  end.

(** The timer that fires next when the clock may run up to [T]. *)
Definition due_by (T : Z) (s : State) : option timer :=
  match next_timer (timers s) with
  | Some tm => if due tm <=? T then Some tm else None
  | None => None
  end.

(** One turn of the event loop: the timer leaves the registry, the clock
    stands at its due time, its closure runs; an exception ends the
    closure and is reported. *)
Definition fire (tm : timer) (s : State) : State :=
  let s := clearTimeout (Some (tid tm)) s in
  let s := set_clock (Z.max (clock s) (due tm)) s in
  match exec (act tm) s with
  | Returned s' => s'
  | Threw s' => report_exception s'
  end.

(** Let the clock run to [T] with no command arriving: every timer due by
    then fires, in order. [None]: more than [fuel] closures were due. *)
Fixpoint advance (fuel : nat) (T : Z) (s : State) : option State :=
  match due_by T s with
  | None => Some (set_clock (Z.max (clock s) T) s)
  | Some tm =>
      match fuel with
      | O => None
      | S f => advance f T (fire tm s)
      end
  end.

End Handlers.

(** * Vocabulary of the properties *)

(** ** Reading the document *)

(** The spans a string turns into, before any of them is revealed. *)
Definition spans_of (str : string) : list span :=
  map span_of (list_ascii_of_string str).

(** A line whose every character is opaque. *)
Definition fully_shown (str : string) : list span :=
  map (fun sp => {| html := html sp; shown := true |}) (spans_of str).

(** The text of the document: the spans and the children of the three
    text elements. *)
Definition same_text (d d' : Dom) : Prop :=
  nodes d' = nodes d /\ np_text d' = np_text d
  /\ artist_text d' = artist_text d /\ song_text d' = song_text d.

(** The resting state (Idle): no cycle pending, container width 0, off
    stage, text hidden. *)
Definition Idle (s : State) : Prop :=
  timers s = [] /\ box_width (dom s) = 0 /\ box_bottom (dom s) = -200
  /\ text_opacity (dom s) = 0.

(** A state with the box width forgotten. *)
Definition blind (s : State) : State := with_dom (set_lt_width None) s.

(** Two outcomes of the same kind whose states differ at most in the box
    width. *)
Definition same_but_width (o o' : outcome) : Prop :=
  match o, o' with
  | Returned x, Returned y => blind x = blind y
  | Threw x, Threw y => blind x = blind y
  | _, _ => False
  end.

(** ** Calls in one step *)

(** Registering a batch of timers. *)
Definition register (l : list timer) (s : State) : State :=
  {| clock := clock s; next_tid := next_tid s + List.length l;
     timers := timers s ++ l;
     autoHideTimeout := autoHideTimeout s;
     delayedStartTimeout := delayedStartTimeout s; dom := dom s;
     uncaught := uncaught s |}.

(** Appending the spans of a whole string at once. *)
Definition append_all (el : field) (sps : list span) (d : Dom) : Dom :=
  set_children el (children el d ++ seq (List.length (nodes d)) (List.length sps))
    (set_nodes (nodes d ++ sps) d).

(** The timers the typewriter registers for [count] characters: handles
    [h], [h+1], ..., spans [first], [first+1], ..., character [i] due
    [i * speed] after [now]. *)
Definition tick_timer (h first : nat) (now : Z) (speed : Q) (i : nat) : timer :=
  {| tid := h + i;
     due := now + Z.max 0 (Qfloor (inject_Z (Z.of_nat i) * speed));
     act := Tick (first + i) |}.

Definition tick_timers (h first : nat) (now : Z) (speed : Q) (count : nat)
  : list timer :=
  map (tick_timer h first now speed) (seq 0 count).

(** The per-character timer with its delay in whole milliseconds. *)
Definition ms_tick (h first : nat) (now rate : Z) (i : nat) : timer :=
  {| tid := h + i; due := now + Z.of_nat i * rate; act := Tick (first + i) |}.

(** What [play] writes to the document before it returns. *)
Definition play_reset (d : Dom) : Dom :=
  set_logo_bottom (Some (-100))
    (set_lt_bottom (Some (-200))
       (set_lt_width (Some 0)
          (set_logo_transform (Some Scale1)
             (set_logo_opacity (Some 1)
                (set_tc_opacity (Some 0)
                   (set_children Song []
                      (set_children Artist []
                         (set_children NowPlaying [] d)))))))).

(** The four timers [stop] registers, in the order of the script. *)
Definition exit_timers (h : nat) (now : Z) : list timer :=
  [ {| tid := h; due := now + 500; act := ExitCollapse |};
    {| tid := h + 1; due := now + 1200; act := ExitLogoStage |};
    {| tid := h + 2; due := now + 3500; act := ExitBox |};
    {| tid := h + 3; due := now + 1800; act := ExitLogoOff |} ].

(** How far the exit sequence of [stop] has changed a document [t] ms
    after the call, when nothing else is pending. *)
Definition exit_progress (t : Z) (d : Dom) : Dom :=
  let d := set_tc_opacity (Some 0) d in
  let d := if 500 <=? t
           then set_logo_transform (Some Scale1Rot0) (set_lt_width (Some 0) d)
           else d in
  let d := if 1200 <=? t then set_logo_bottom (Some (-80)) d else d in
  let d := if 1800 <=? t then set_logo_bottom (Some (-350)) d else d in
  let d := if 3500 <=? t then set_lt_bottom (Some (-200)) d else d in
  d.

(** ** Runs of the event loop *)

(** The order in which timers fire: by due time, then by handle. *)
Definition fires_before (a b : timer) : Prop :=
  due a < due b \/ (due a = due b /\ (tid a < tid b)%nat).

(** The closures [advance] fires, in the order it fires them. *)
Fixpoint fired (scrollWidth : Dom -> Z) (fuel : nat) (T : Z) (s : State)
  : list timer :=
  match due_by T s with
  | None => []
  | Some tm =>
      match fuel with
      | O => []
      | S f => tm :: fired scrollWidth f T (fire scrollWidth tm s)
      end
  end.

(** The state once the timers of [order] have fired one after the other. *)
Definition fire_all (scrollWidth : Dom -> Z) (order : list timer) (s : State)
  : State :=
  fold_left (fun st tm => fire scrollWidth tm st) order s.

(** What the per-character closure does to the document. *)
Definition tick_effect (scrollWidth : Dom -> Z) (sp : nat) (d : Dom) : Dom :=
  let d := show_span sp d in
  match lt_width d with
  | Some w =>
      if w <? size_calc (scrollWidth d)
      then set_lt_width (Some (size_calc (scrollWidth d))) d
      else d
  | None => d
  end.

(** The closures that only write to the document: what they write. The
    others ([None]) register timers, clear timers or may throw. *)
Definition effect (scrollWidth : Dom -> Z) (a : action) : option (Dom -> Dom) :=
  match a with
  | Expand =>
      Some (fun d => set_logo_transform (Some Flourish) (set_lt_width (Some 1000) d))
  | ShimmerOff => Some (set_logo_shimmer false)
  | Tick sp => Some (tick_effect scrollWidth sp)
  | TypeDone CbDone => Some (fun d => d)
  | ExitCollapse =>
      Some (fun d => set_logo_transform (Some Scale1Rot0) (set_lt_width (Some 0) d))
  | ExitLogoStage => Some (set_logo_bottom (Some (-80)))
  | ExitBox => Some (set_lt_bottom (Some (-200)))
  | ExitLogoOff => Some (set_logo_bottom (Some (-350)))
  | _ => None
  end.

(** What a sequence of document-only closures writes, one after the other. *)
Fixpoint apply_effects (scrollWidth : Dom -> Z) (order : list timer) (d : Dom)
  : Dom :=
  match order with
  | [] => d
  | tm :: rest =>
      apply_effects scrollWidth rest
        (match effect scrollWidth (act tm) with
         | Some f => f d
         | None => d
         end)
  end.

(** [span.style.opacity = 1] on each span of a list of identities. *)
Definition show_all (ids : list nat) (l : list span) : list span :=
  fold_left (fun acc id => show_at id acc) ids l.

(** The box widths after each of a series of reveals that run one right
    after the other. *)
Fixpoint widths_after (scrollWidth : Dom -> Z) (ids : list nat) (s : State)
  : list Z :=
  match ids with
  | [] => []
  | id :: rest =>
      let s' := reveal_tick scrollWidth id s in
      box_width (dom s') :: widths_after scrollWidth rest s'
  end.

(** ** States the script can be in *)

(** A timer whose handle the script tracks in one of its two globals. *)
Definition tracked (s : State) (x : timer) : bool :=
  match autoHideTimeout s with
  | Some h => Nat.eqb (tid x) h
  | None => false
  end
  || match delayedStartTimeout s with
     | Some h => Nat.eqb (tid x) h
     | None => false
     end.

(** What every state reached from the page as loaded satisfies: handles
    are handed out once and in increasing order, the tracked handles were
    never handed to a reveal closure, and every pending reveal closure
    holds a span of its own that exists. *)
Definition wf (s : State) : Prop :=
  NoDup (map tid (timers s))
  /\ (forall x, In x (timers s) -> (tid x < next_tid s)%nat)
  /\ (forall h,
        autoHideTimeout s = Some h \/ delayedStartTimeout s = Some h ->
        (h < next_tid s)%nat
        /\ forall x sp, In x (timers s) -> tid x = h -> act x <> Tick sp)
  /\ (forall x sp, In x (timers s) -> act x = Tick sp ->
                   (sp < List.length (nodes (dom s)))%nat)
  /\ (forall x y sp, In x (timers s) -> In y (timers s) ->
                     act x = Tick sp -> act y = Tick sp -> x = y).

(** The shape of every step, command or closure: the timers [gone]
    selects leave the registry, [new] timers are registered with the next
    handles, the span [lit] (if any) is made opaque, [extra] spans are
    created, and a tracked handle is an old one or that of a new timer
    that is no reveal. *)
Definition evolves (gone : timer -> bool) (lit : option nat) (s s' : State)
  : Prop :=
  exists new extra,
    timers s' = filter (fun x => negb (gone x)) (timers s) ++ new
    /\ next_tid s' = (next_tid s + List.length new)%nat
    /\ map tid new = seq (next_tid s) (List.length new)
    /\ nodes (dom s')
       = match lit with
         | Some sp => show_at sp (nodes (dom s))
         | None => nodes (dom s)
         end ++ extra
    /\ (forall x sp, In x new -> act x = Tick sp ->
          (List.length (nodes (dom s)) <= sp < List.length (nodes (dom s')))%nat)
    /\ (forall x y sp, In x new -> In y new ->
                       act x = Tick sp -> act y = Tick sp -> x = y)
    /\ (forall h,
          autoHideTimeout s' = Some h \/ delayedStartTimeout s' = Some h ->
          (autoHideTimeout s = Some h \/ delayedStartTimeout s = Some h)
          \/ exists x, In x new /\ tid x = h /\ forall sp, act x <> Tick sp).

(** The timers a closure removes when it runs, besides its own, and the
    span it makes opaque. *)
Definition gone_by (a : action) (s : State) : timer -> bool :=
  match a with
  | AutoHide => tracked s
  | _ => fun _ => false
  end.

Definition lit_by (a : action) : option nat :=
  match a with
  | Tick sp => Some sp
  | _ => None
  end.

(** ** Sessions *)

(** The commands of the overlay. *)
Inductive command : Type :=
| Play (arg : option request)
| Update (arg : option request)
| Stop.

Definition run_command (c : command) (s : State) : State :=
  match c with
  | Play arg => play arg s
  | Update arg => update arg s
  | Stop => stop s
  end.

(** A session: the commands of [script] arrive at the times given, the
    event loop runs in between, and the overlay is read at time [T].
    [None]: more than [fuel] closures were due in one of the stretches. *)
Fixpoint session (scrollWidth : Dom -> Z) (fuel : nat)
    (script : list (Z * command)) (T : Z) (s : State) : option State :=
  match script with
  | [] => advance scrollWidth fuel T s
  | (t, c) :: rest =>
      match advance scrollWidth fuel t s with
      | Some s1 => session scrollWidth fuel rest T (run_command c s1)
      | None => None
      end
  end.

(** A reveal closure [tm] and its span [sp] while a session runs up to
    [T]: the span exists and carries [g]; as long as it is hidden the
    closure is pending; once it is opaque the closure was due by [T]. *)
Definition pending_reveal (tm : timer) (sp : nat) (g : glyph) (T : Z)
    (st : State) : Prop :=
  exists b,
    nth_error (nodes (dom st)) sp = Some {| html := g; shown := b |}
    /\ (b = false -> In tm (timers st))
    /\ (b = true -> due tm <= T).

(** ** How much is left to run *)

(** The number of characters the typewriter types for a value. *)
Definition typed_length (v : jsval) : nat :=
  match v with
  | JStr str | JStrObj str => String.length str
  | _ => 0%nat
  end.

(** A bound on the number of closures that run because a closure is
    registered: the closure itself and all it registers in turn. *)
Definition weight (a : action) : nat :=
  let done := 1%nat in
  let song d := (1 + typed_length (js_or (song d) "Song Title") + done)%nat in
  let artist d :=
    (1 + typed_length (js_or (artist d) "Artist Name") + song d)%nat in
  let reveal d := (1 + 12 + artist d + 1)%nat in
  let autohide := 5%nat in
  match a with
  | DelayedStart d => (1 + 1 + reveal d + autohide)%nat
  | Reveal d => reveal d
  | AutoHide => autohide
  | TypeDone (CbArtist d) => artist d
  | TypeDone (CbSong d) => song d
  | _ => 1%nat
  end.

Definition backlog (s : State) : nat :=
  list_sum (map (fun tm => weight (act tm)) (timers s)).

(** The closures a command makes run, at most. *)
Definition command_weight (c : command) : nat :=
  match c with
  | Play arg | Update arg => weight (DelayedStart (data_of arg))
  | Stop => 4%nat
  end.

(** ** The values the script writes to the inline styles *)

(** The widths the script writes: ['0'], ['1000px'] and the clamped
    [newWidth + 'px']. *)
Definition width_written (w : option Z) : bool :=
  match w with
  | None => true
  | Some w => (w =? 0) || ((baseWidth <=? w) && (w <=? maxWidth))
  end.

(** An inline style that is unset or holds one of [vals]. *)
Definition among (vals : list Z) (v : option Z) : bool :=
  match v with
  | None => true
  | Some x => existsb (Z.eqb x) vals
  end.

Definition styles_written (d : Dom) : bool :=
  width_written (lt_width d)
  && among [-200; 40] (lt_bottom d)
  && among [-100; -80; -350] (logo_bottom d)
  && among [0; 1] (tc_opacity d)
  && among [1] (logo_opacity d).

(** The closures that can lower the box width. *)
Definition lowers_width (a : action) : bool :=
  match a with
  | Expand | ExitCollapse => true
  | _ => false
  end.

(** ** What a closure registers *)

(** The timers one call of the typewriter registers at the script's base
    rate of 50 ms, delays in whole milliseconds. *)
Definition typewriter_timers (str : string) (cb : callback) (h first : nat)
    (now : Z) : list timer :=
  let n := String.length str in
  let rate := if (100 <? n)%nat then 25 else 50 in
  map (ms_tick h first now rate) (seq 0 n)
  ++ [{| tid := h + n; due := now + Z.of_nat n * rate + 500;
         act := TypeDone cb |}].

(** A value without a [split] method makes the typewriter throw before it
    registers anything. *)
Definition typed_timers (text : jsval) (cb : callback) (h first : nat)
    (now : Z) : list timer :=
  match text with
  | JStr str | JStrObj str => typewriter_timers str cb h first now
  | _ => []
  end.

(** The timers a closure registers when it runs at time [now], the next
    handle being [h] and [first] spans existing. *)
Definition spawned (a : action) (h first : nat) (now : Z) : list timer :=
  match a with
  | DelayedStart d =>
      [ {| tid := h; due := now + 500; act := Expand |};
        {| tid := h + 1; due := now + 2000; act := Reveal d |};
        {| tid := h + 2; due := now + 12000; act := AutoHide |} ]
  | Reveal d =>
      typewriter_timers "Now Playing:" (CbArtist d) h first now
      ++ [{| tid := h + 13; due := now + 1300; act := ShimmerOff |}]
  | AutoHide => exit_timers h now
  | TypeDone (CbArtist d) =>
      typed_timers (js_or (artist d) "Artist Name") (CbSong d) h first now
  | TypeDone (CbSong d) =>
      typed_timers (js_or (song d) "Song Title") CbDone h first now
  | _ => []
  end.

Definition is_delayed_start (a : action) : bool :=
  match a with DelayedStart _ => true | _ => false end.

Definition is_auto_hide (a : action) : bool :=
  match a with AutoHide => true | _ => false end.

(** ** The two timers the script keeps a handle of *)

(** The delayed start and the auto-hide that are pending. *)
Definition armed (s : State) : list timer :=
  filter (fun x => is_delayed_start (act x) || is_auto_hide (act x)) (timers s).

(** The two globals and the registry agree: a pending timer is a delayed
    start exactly when [delayedStartTimeout] holds its handle, an auto-hide
    exactly when [autoHideTimeout] does, and the two are never pending
    together. *)
Definition coherent (s : State) : Prop :=
  NoDup (map tid (timers s))
  /\ (forall x, In x (timers s) -> (tid x < next_tid s)%nat)
  /\ (forall h,
        autoHideTimeout s = Some h \/ delayedStartTimeout s = Some h ->
        (h < next_tid s)%nat)
  /\ (forall x, In x (timers s) ->
        (is_delayed_start (act x) = true
         <-> delayedStartTimeout s = Some (tid x)))
  /\ (forall x, In x (timers s) ->
        (is_auto_hide (act x) = true <-> autoHideTimeout s = Some (tid x)))
  /\ (forall x y, In x (timers s) -> In y (timers s) ->
        is_delayed_start (act x) = true -> is_auto_hide (act y) = true ->
        False).

(** ** How long a cycle lasts *)

(** The time the typewriter takes for a value at the base rate of 50 ms:
    up to its callback; nothing when the value has no [split] method. *)
Definition typing_time (v : jsval) : Z :=
  match v with
  | JStr str | JStrObj str =>
      let n := String.length str in
      Z.of_nat n * (if (100 <? n)%nat then 25 else 50) + 500
  | _ => 0
  end.

(** The time from the moment a closure runs until the last of the
    closures it registers, directly or in turn, has run. *)
Definition lifetime (a : action) : Z :=
  let song d := typing_time (js_or (song d) "Song Title") in
  let artist d := typing_time (js_or (artist d) "Artist Name") + song d in
  let reveal d := Z.max 1300 (1100 + artist d) in
  match a with
  | DelayedStart d => Z.max (12000 + 3500) (2000 + reveal d)
  | Reveal d => reveal d
  | AutoHide => 3500
  | TypeDone (CbArtist d) => artist d
  | TypeDone (CbSong d) => song d
  | _ => 0
  end.

(** The same for a command, from the call. *)
Definition command_time (c : command) : Z :=
  match c with
  | Play arg | Update arg => 1000 + lifetime (DelayedStart (data_of arg))
  | Stop => 3500
  end.

(** A time by which a session on the page as loaded has come to rest: the
    latest command time plus the longest time a command needs. *)
Definition rest_time (script : list (Z * command)) : Z :=
  fold_right Z.max 0 (map fst script)
  + fold_right Z.max 0 (map (fun tc => command_time (snd tc)) script).

(** No pending timer is overdue. *)
Definition punctual (s : State) : Prop :=
  forall x, In x (timers s) -> clock s <= due x.

(** Everything pending, and all it leads to, has run by [H]. *)
Definition settles_by (H : Z) (s : State) : Prop :=
  forall x, In x (timers s) -> due x + lifetime (act x) <= H.

(** The box and the logo are on stage only while something is pending
    that takes them off. *)
Definition staged (s : State) : Prop :=
  (lt_bottom (dom s) = Some 40 ->
   exists x, In x (timers s) /\ (act x = AutoHide \/ act x = ExitBox))
  /\ (logo_bottom (dom s) = Some (-80) \/ logo_bottom (dom s) = Some (-100) ->
      exists x, In x (timers s)
                /\ (is_delayed_start (act x) = true \/ act x = AutoHide
                    \/ act x = ExitLogoOff))
  /\ (forall x, In x (timers s) -> act x = ExitLogoStage ->
        exists y, In y (timers s) /\ act y = ExitLogoOff /\ due x < due y).

(** ** What a closure writes *)

(** The typewriter on a text element: the element is emptied; for a string
    one hidden span per character is appended. *)
Definition typed (el : field) (text : jsval) (d : Dom) : Dom :=
  match text with
  | JStr str | JStrObj str => append_all el (spans_of str) (set_children el [] d)
  | _ => set_children el [] d
  end.

(** What a closure has written to the document when it ends. *)
Definition writes (scrollWidth : Dom -> Z) (a : action) (d : Dom) : Dom :=
  match a with
  | DelayedStart _ =>
      set_logo_transform (Some Scale1)
        (set_logo_bottom (Some (-80)) (set_lt_bottom (Some 40) d))
  | Expand => set_logo_transform (Some Flourish) (set_lt_width (Some 1000) d)
  | Reveal _ =>
      set_logo_shimmer true
        (typed NowPlaying (JStr "Now Playing:") (set_tc_opacity (Some 1) d))
  | ShimmerOff => set_logo_shimmer false d
  | AutoHide => set_tc_opacity (Some 0) d
  | Tick sp => tick_effect scrollWidth sp d
  | TypeDone (CbArtist r) => typed Artist (js_or (artist r) "Artist Name") d
  | TypeDone (CbSong r) => typed Song (js_or (song r) "Song Title") d
  | TypeDone CbDone => d
  | ExitCollapse => set_logo_transform (Some Scale1Rot0) (set_lt_width (Some 0) d)
  | ExitLogoStage => set_logo_bottom (Some (-80)) d
  | ExitBox => set_lt_bottom (Some (-200)) d
  | ExitLogoOff => set_logo_bottom (Some (-350)) d
  end.

(** [text.split] is a function: strings and String objects. *)
Definition has_split (v : jsval) : bool :=
  match v with JStr _ | JStrObj _ => true | _ => false end.

(** The closures that end in a TypeError: the callbacks that hand the
    typewriter a value without a [split] method. *)
Definition throws (a : action) : bool :=
  match a with
  | TypeDone (CbArtist r) => negb (has_split (js_or (artist r) "Artist Name"))
  | TypeDone (CbSong r) => negb (has_split (js_or (song r) "Song Title"))
  | _ => false
  end.

(** One turn of the event loop, in one step. *)
Definition fired_state (scrollWidth : Dom -> Z) (x : timer) (s : State) : State :=
  let now := Z.max (clock s) (due x) in
  let new := spawned (act x) (next_tid s) (List.length (nodes (dom s))) now in
  {| clock := now;
     next_tid := next_tid s + List.length new;
     timers :=
       filter (fun y => negb (Nat.eqb (tid y) (tid x) || gone_by (act x) s y))
         (timers s) ++ new;
     autoHideTimeout :=
       if is_delayed_start (act x) then Some (next_tid s + 2)%nat
       else autoHideTimeout s;
     delayedStartTimeout := delayedStartTimeout s;
     dom := writes scrollWidth (act x) (dom s);
     uncaught := if throws (act x) then S (uncaught s) else uncaught s |}.

(** ** A run with the reveals left out *)

Definition is_tick (a : action) : bool :=
  match a with Tick _ => true | _ => false end.

Definition hide_span (sp : span) : span := {| html := html sp; shown := false |}.

(** A document with what the reveals write forgotten: every span hidden,
    no box width. *)
Definition hide (d : Dom) : Dom :=
  set_lt_width None (set_nodes (map hide_span (nodes d)) d).

(** A state with the reveals forgotten: their timers, what they wrote, and
    the clock. *)
Definition outline (s : State) : State :=
  {| clock := 0; next_tid := next_tid s;
     timers := filter (fun x => negb (is_tick (act x))) (timers s);
     autoHideTimeout := autoHideTimeout s;
     delayedStartTimeout := delayedStartTimeout s;
     dom := hide (dom s); uncaught := uncaught s |}.

(** The outline once the closure of [x] has run at its due time. *)
Definition after (x : timer) (o : State) : State :=
  outline (fired_state (fun _ => 0) x (set_clock (due x) o)).

(** The event loop on outlines. *)
Fixpoint outline_run (fuel : nat) (T : Z) (o : State) : option State :=
  match due_by T o with
  | None => Some o
  | Some x =>
      match fuel with
      | O => None
      | S f => outline_run f T (after x o)
      end
  end.

(** ** Reveals in progress *)

(** The delay of the last reveal of a line, at most. *)
Definition last_reveal (v : jsval) : Z :=
  match v with
  | JStr str | JStrObj str =>
      let n := String.length str in
      Z.of_nat n * (if (100 <? n)%nat then 25 else 50)
  | _ => 0
  end.

(** The time from the moment a closure runs until the last reveal that
    it leads to; [None] for the closures that lead to no reveal. *)
Definition reveal_reach (a : action) : option Z :=
  let song d := last_reveal (js_or (song d) "Song Title") in
  let artist d :=
    if has_split (js_or (artist d) "Artist Name")
    then typing_time (js_or (artist d) "Artist Name") + song d
    else 0 in
  match a with
  | DelayedStart d => Some (2000 + 1100 + artist d)
  | Reveal d => Some (1100 + artist d)
  | Tick _ => Some 0
  | TypeDone (CbArtist d) => Some (artist d)
  | TypeDone (CbSong d) => Some (song d)
  | _ => None
  end.

(** Every reveal that is pending or still to be registered is due by [D]. *)
Definition reveals_by (D : Z) (s : State) : Prop :=
  forall y r, In y (timers s) -> reveal_reach (act y) = Some r -> due y + r <= D.

(** From span [f] on, every span is opaque or has its reveal pending. *)
Definition accounted (f : nat) (s : State) : Prop :=
  forall j sp,
    (f <= j)%nat -> nth_error (nodes (dom s)) j = Some sp ->
    shown sp = true \/ exists y, In y (timers s) /\ act y = Tick j.

(** The spans a closure creates. *)
Definition typed_spans (a : action) : list span :=
  let spans v := match v with JStr str | JStrObj str => spans_of str | _ => [] end in
  match a with
  | Reveal _ => spans_of "Now Playing:"
  | TypeDone (CbArtist r) => spans (js_or (artist r) "Artist Name")
  | TypeDone (CbSong r) => spans (js_or (song r) "Song Title")
  | _ => []
  end.

(** ** A cycle before its auto-hide *)

Definition is_exit (a : action) : bool :=
  match a with
  | ExitCollapse | ExitLogoStage | ExitBox | ExitLogoOff => true
  | _ => false
  end.

Definition is_expand (a : action) : bool :=
  match a with Expand => true | _ => false end.

(** As long as the clock has not passed [T0], nothing hides the overlay:
    no exit closure is pending, an auto-hide is due later than [T0], one
    that is still to be registered as well, and the box is between 1000
    and 1600 wide once the expand closure ran. *)
Definition opening (T0 : Z) (s : State) : Prop :=
  clock s <= T0 ->
  (forall y, In y (timers s) ->
     is_exit (act y) = false
     /\ (is_auto_hide (act y) = true -> T0 < due y)
     /\ (is_delayed_start (act y) = true -> T0 < due y + 12000))
  /\ ((exists y, In y (timers s)
                 /\ is_delayed_start (act y) || is_expand (act y) = true)
      \/ 1000 <= box_width (dom s) <= 1600).

(** What holds all along a cycle that starts with nothing pending and
    [f] spans in the document: its reveals are due by [D], each of its
    spans is opaque or about to be, and up to [T0] nothing hides it. *)
Definition cycle_inv (f : nat) (D T0 : Z) (s : State) : Prop :=
  wf s /\ punctual s /\ reveals_by D s /\ accounted f s /\ opening T0 s.

(** ** The characters of the document *)

(** The characters of the three lines: the glyph of every span and the
    children of the three text elements, whatever the opacity of the
    spans. *)
Definition chars (d : Dom) : list glyph * list nat * list nat * list nat :=
  (map html (nodes d), np_text d, artist_text d, song_text d).


(** ** Closures that cannot lead to the song line *)


(** ** Worked scenarios *)

(** A rendering surface: every glyph 30 px wide whether or not it is
    opaque, the three lines stacked, 40 px of right padding; [scrollWidth]
    is the widest line plus the padding. *)
Definition glyph_layout (d : Dom) : Z :=
  40 + 30 * Z.of_nat (Nat.max (List.length (children NowPlaying d))
                        (Nat.max (List.length (children Artist d))
                                 (List.length (children Song d)))).

Definition request_AB : request := {| artist := JStr "A"; song := JStr "B" |}.
Definition request_CD : request := {| artist := JStr "C"; song := JStr "D" |}.
Definition request_metallica : request :=
  {| artist := JStr "Metallica"; song := JStr "Enter Sandman" |}.

(** An artist name of 40 characters. *)
Definition request_long : request :=
  {| artist := JStr "MMMMMMMMMMMMMMMMMMMMMMMMMMMMMMMMMMMMMMMM"; song := JStr "S" |}.

(** Artist and title of 100 characters each. *)
Definition hundred (c : ascii) : string :=
  string_of_list_ascii (repeat c 100).
Definition request_hundreds : request :=
  {| artist := JStr (hundred "M"); song := JStr (hundred "S") |}.

(** ** Proof steps used more than once *)

(** Settles the tests [a <=? b] that the hypotheses decide. *)
Ltac settle_leb :=
  repeat match goal with
  | |- context [Z.leb ?a ?b] =>
      first [ replace (Z.leb a b) with true by (symmetry; apply Z.leb_le; lia)
            | replace (Z.leb a b) with false by (symmetry; apply Z.leb_gt; lia) ]
  end.

(** The conditions of [advance_in_order] on an explicit list of timers. *)
Ltac in_cases H :=
  cbn [In exit_timers] in H;
  repeat match type of H with
         | _ \/ _ => destruct H as [H | H]
         | False => destruct H
         end.

Ltac order_conditions :=
  match goal with
  | |- (_ <= _)%nat => cbn; lia
  | |- NoDup _ => cbn [map tid exit_timers]; repeat constructor; cbn [In]; lia
  | |- StronglySorted _ _ =>
      repeat constructor; unfold fires_before; cbn [due tid]; lia
  | |- forall tm, In tm _ -> _ /\ _ /\ _ =>
      let tm := fresh "tm" in let H := fresh "H" in
      intros tm H; in_cases H; subst tm;
      (split; [cbn [In exit_timers]; tauto
              | split; [cbn [due]; lia | discriminate]])
  | |- forall x, In x _ -> _ \/ _ =>
      let x := fresh "x" in let H := fresh "H" in
      intros x H; in_cases H; subst x;
      first [left; cbn [In]; tauto | right; cbn [due]; lia]
  end.

(** Settles the comparisons that the hypotheses decide. *)
Ltac settle_cmp :=
  repeat match goal with
  | |- context [Z.ltb ?a ?b] =>
      first [ replace (Z.ltb a b) with true by (symmetry; apply Z.ltb_lt; lia)
            | replace (Z.ltb a b) with false by (symmetry; apply Z.ltb_ge; lia) ]
  | |- context [Z.leb ?a ?b] =>
      first [ replace (Z.leb a b) with true by (symmetry; apply Z.leb_le; lia)
            | replace (Z.leb a b) with false by (symmetry; apply Z.leb_gt; lia) ]
  | |- context [Z.eqb ?a ?b] =>
      first [ replace (Z.eqb a b) with true by (symmetry; apply Z.eqb_eq; lia)
            | replace (Z.eqb a b) with false by (symmetry; apply Z.eqb_neq; lia) ]
  | |- context [Nat.eqb ?a ?b] =>
      first [ replace (Nat.eqb a b) with true by (symmetry; apply Nat.eqb_eq; lia)
            | replace (Nat.eqb a b) with false by (symmetry; apply Nat.eqb_neq; lia) ]
  | |- context [Nat.ltb ?a ?b] =>
      first [ replace (Nat.ltb a b) with true by (symmetry; apply Nat.ltb_lt; lia)
            | replace (Nat.ltb a b) with false by (symmetry; apply Nat.ltb_ge; lia) ]
  end.

(** The timer that fires next in an explicit registry. *)
(** A property that reads a value only through [text.split('')] holds of a
    String object when it holds of the string: it is enough to prove it
    for the values that are their own primitive. *)
Ltac unbox text :=
  generalize dependent text;
  match goal with
  | |- forall v : jsval, @?Q v =>
      let H := fresh "H" in
      enough (H : forall v, unboxed v = v -> Q v);
      [ intros [| | ? | ? | | ? | | ?];
        [ apply H; reflexivity .. | exact (H (JStr _) eq_refl) ]
      | intros text ? ]
  end.

(** The equation under [Some], without reducing its sides. *)
Ltac some_eq H :=
  match type of H with
  | Some ?v = Some ?r =>
      let E := fresh "E" in
      assert (E : v = r) by congruence; clear H; try subst r
  end.

Ltac next_due :=
  unfold due_by; cbn [timers next_timer]; unfold earlier;
  repeat (cbn [due tid orb andb]; progress settle_cmp);
  cbn [due tid orb andb]; reflexivity.

(** The outline after a closure has run, on an explicit outline. *)
Create Rewrite HintDb outline_db.

Ltac outline_fired :=
  unfold after, outline, fired_state;
  cbn [clock next_tid timers autoHideTimeout delayedStartTimeout dom uncaught
       set_clock act due tid spawned is_delayed_start throws gone_by tracked
       exit_timers].

Ltac outline_tidy :=
  cbn [typed_timers has_split negb];
  autorewrite with outline_db;
  cbn [filter act tid negb orb is_tick app List.length String.length];
  settle_cmp;
  cbn [filter act tid negb orb is_tick app List.length].

(** * Properties *)

(** ** Size calculator *)

Lemma size_calc_eq_clamp (textWidth : Z) :
  size_calc textWidth = clamp (textWidth + paddingExtra) baseWidth maxWidth.
Proof.
  unfold size_calc, clamp, baseWidth, maxWidth, paddingExtra.
  destruct (Z.ltb_spec (textWidth + 400) 1000) as [Hlo | Hlo].
  - change (1600 <? 1000) with false. cbv iota. lia.
  - destruct (Z.ltb_spec 1600 (textWidth + 400)); lia.
Qed.

Lemma size_calc_range (textWidth : Z) :
  baseWidth <= size_calc textWidth <= maxWidth.
Proof.
  rewrite size_calc_eq_clamp.
  unfold clamp, baseWidth, maxWidth. lia.
Qed.

(** The width a character reveal leaves behind: unchanged, or the size
    just computed. *)
Lemma reveal_tick_width (sw : Dom -> Z) (sp : nat) (s : State) :
  lt_width (dom (reveal_tick sw sp s)) = lt_width (dom s)
  \/ lt_width (dom (reveal_tick sw sp s))
     = Some (size_calc (sw (show_span sp (dom s)))).
Proof.
  unfold reveal_tick. cbn.
  destruct (lt_width (dom s)) as [w |] eqn:E; [| left; exact E].
  destruct (w <? _); [right; reflexivity | left; exact E].
Qed.

(** C4. For every measured content width the size calculator returns
    clamp(measured + padding, minWidth, maxWidth) with padding 400,
    minWidth 1000 and maxWidth 1600, so the result lies in
    [minWidth, maxWidth]; and whatever the document holds (no character or
    arbitrarily many), a width written by a character reveal is such a
    result. *)
Theorem size_calculator_clamps :
  paddingExtra = 400 /\ baseWidth = 1000 /\ maxWidth = 1600
  /\ (forall textWidth,
        size_calc textWidth
        = clamp (textWidth + paddingExtra) baseWidth maxWidth
        /\ baseWidth <= size_calc textWidth <= maxWidth)
  /\ (forall (sw : Dom -> Z) sp s,
        lt_width (dom (reveal_tick sw sp s)) = lt_width (dom s)
        \/ exists w, lt_width (dom (reveal_tick sw sp s)) = Some w
                     /\ baseWidth <= w <= maxWidth).
Proof.
  repeat split; try reflexivity.
  - apply size_calc_eq_clamp.
  - apply size_calc_range.
  - apply size_calc_range.
  - intros sw sp s.
    destruct (reveal_tick_width sw sp s) as [H | H]; [now left | right].
    eexists. split; [exact H | apply size_calc_range].
Qed.

(** ** What createTypewriter registers *)

Lemma length_list_ascii_of_string (str : string) :
  List.length (list_ascii_of_string str) = String.length str.
Proof.
  induction str as [| c str IH]; cbn; [reflexivity | now rewrite IH].
Qed.

(** [setTimeout] with a whole, non-negative number of milliseconds. *)
Lemma setTimeout_ms (a : action) (ms : Z) (s : State) :
  0 <= ms ->
  setTimeout a (inject_Z ms) s
  = (next_tid s,
     {| clock := clock s; next_tid := S (next_tid s);
        timers := timers s ++ [{| tid := next_tid s; due := clock s + ms; act := a |}];
        autoHideTimeout := autoHideTimeout s;
        delayedStartTimeout := delayedStartTimeout s; dom := dom s;
        uncaught := uncaught s |}).
Proof.
  intros H. unfold setTimeout. rewrite Qfloor_Z, Z.max_r by exact H.
  reflexivity.
Qed.

Lemma append_all_nil (el : field) (d : Dom) : append_all el [] d = d.
Proof.
  destruct d, el; unfold append_all; cbn; rewrite !app_nil_r; reflexivity.
Qed.

Lemma append_all_cons (el : field) (sp : span) (sps : list span) (d : Dom) :
  append_all el sps (appendChild el sp d) = append_all el (sp :: sps) d.
Proof.
  destruct d, el; unfold append_all, appendChild; cbn;
    rewrite ?length_app, <- !app_assoc; cbn;
    rewrite Nat.add_1_r; reflexivity.
Qed.

Lemma with_dom_id (s : State) : with_dom (fun d => d) s = s.
Proof. destruct s; reflexivity. Qed.

Lemma with_dom_ext (f g : Dom -> Dom) (s : State) :
  (forall d, f d = g d) -> with_dom f s = with_dom g s.
Proof. intros H. unfold with_dom. now rewrite H. Qed.

Lemma append_spans (el : field) (chars : list ascii) (s : State) :
  fold_left (fun st c => with_dom (appendChild el (span_of c)) st) chars s
  = with_dom (append_all el (map span_of chars)) s.
Proof.
  revert s. induction chars as [| c chars IH]; intros s; cbn [fold_left map].
  - rewrite (with_dom_ext _ (fun d => d)) by apply append_all_nil.
    symmetry. apply with_dom_id.
  - rewrite IH. unfold with_dom at 1 2 3. cbn.
    now rewrite append_all_cons.
Qed.

Lemma schedule_ticks_register (first : nat) (speed : Q) (count : nat) :
  forall (i : nat) (h : nat) (s : State),
    next_tid s = (h + i)%nat ->
    schedule_ticks first i count speed s
    = register (map (tick_timer h first (clock s) speed) (seq i count)) s.
Proof.
  induction count as [| k IH]; intros i h s Hh; cbn [schedule_ticks seq map].
  - destruct s; unfold register; cbn. now rewrite app_nil_r, Nat.add_0_r.
  - rewrite (IH (S i) h) by (cbn; lia).
    unfold register, setTimeout, tick_timer; cbn.
    rewrite Hh, <- app_assoc, length_map, length_seq. cbn.
    f_equal. lia.
Qed.

Lemma tick_timers_eq (h first : nat) (now : Z) (speed : Q) (count : nat) :
  tick_timers h first now speed count
  = map (tick_timer h first now speed) (seq 0 count).
Proof. reflexivity. Qed.

(** The typewriter on a string, in one step: the element is emptied, one
    hidden span per character is appended, one timer per character and
    the callback's timer are registered; the call returns at once. *)
Lemma createTypewriter_string (el : field) (str : string) (baseSpeed : Q)
    (cb : callback) (s : State) :
  let n := String.length str in
  let speed := reveal_speed baseSpeed n in
  createTypewriter el (JStr str) baseSpeed (Some cb) s
  = Returned
      (register
         (tick_timers (next_tid s) (List.length (nodes (dom s))) (clock s) speed n
          ++ [{| tid := next_tid s + n;
                 due := clock s
                        + Z.max 0 (Qfloor (inject_Z (Z.of_nat n) * speed + 500));
                 act := TypeDone cb |}])
         (with_dom (fun d => append_all el (spans_of str) (set_children el [] d)) s)).
Proof.
  cbn zeta. unfold createTypewriter.
  rewrite append_spans, length_list_ascii_of_string.
  rewrite (schedule_ticks_register _ _ _ 0%nat (next_tid s)) by (cbn; lia).
  f_equal. rewrite tick_timers_eq.
  unfold setTimeout, register, with_dom, spans_of.
  cbn [clock next_tid timers autoHideTimeout delayedStartTimeout dom uncaught
       snd nodes set_children].
  rewrite <- app_assoc, !length_app, length_map, length_seq.
  cbn [List.length]. f_equal. lia.
Qed.

(** A text element that was just filled renders exactly its new spans. *)
Lemma flat_map_fresh (l sps : list span) :
  flat_map (fun id => match nth_error (l ++ sps) id with
                      | Some sp => [sp]
                      | None => []
                      end) (seq (List.length l) (List.length sps))
  = sps.
Proof.
  revert l. induction sps as [| sp sps IH]; intros l; [reflexivity |].
  cbn [List.length seq flat_map].
  rewrite nth_error_app2, Nat.sub_diag by lia. cbn [nth_error app].
  f_equal.
  specialize (IH (l ++ [sp])).
  rewrite <- app_assoc, length_app in IH. cbn in IH.
  rewrite Nat.add_1_r in IH. exact IH.
Qed.

Lemma rendered_append_all (el : field) (sps : list span) (d : Dom) :
  rendered el (append_all el sps (set_children el [] d)) = sps.
Proof.
  unfold rendered.
  replace (children el (append_all el sps (set_children el [] d)))
    with (seq (List.length (nodes d)) (List.length sps))
    by (destruct el; reflexivity).
  replace (nodes (append_all el sps (set_children el [] d)))
    with (nodes d ++ sps) by (destruct el; reflexivity).
  apply flat_map_fresh.
Qed.

(** [span.style.opacity = 1] touches the one span. *)
Lemma nth_error_show_at (id j : nat) (l : list span) :
  nth_error (show_at id l) j
  = if Nat.eqb j id
    then option_map (fun sp => {| html := html sp; shown := true |}) (nth_error l j)
    else nth_error l j.
Proof.
  revert id j. induction l as [| sp l IH]; intros id j.
  - destruct id, j; cbn; try reflexivity; now destruct (Nat.eqb j id).
  - destruct id, j; cbn; try reflexivity. apply IH.
Qed.

Lemma reveal_tick_nodes (sw : Dom -> Z) (id : nat) (s : State) :
  nodes (dom (reveal_tick sw id s)) = show_at id (nodes (dom s)).
Proof.
  unfold reveal_tick. cbn.
  destruct (lt_width (dom s)); [destruct (_ <? _) |]; reflexivity.
Qed.

(** Delays in whole milliseconds: with an even base rate, [i * speed] and
    [i * speed + extra] are integers. *)
Lemma floor_scaled (i base extra : Z) (n : nat) :
  Z.even base = true ->
  Qfloor (inject_Z i * reveal_speed (inject_Z base) n + inject_Z extra)
  = i * (if (100 <? n)%nat then base / 2 else base) + extra.
Proof.
  intros Hev. unfold reveal_speed.
  destruct (100 <? n)%nat.
  - apply Zeven_bool_iff, Zeven_div2 in Hev.
    rewrite Z.div2_div in Hev.
    unfold Qdiv. change (/ 2)%Q with (1 # 2)%Q.
    unfold Qfloor, Qplus, Qmult, inject_Z.
    cbn [Qnum Qden Pos.mul].
    set (k := base / 2) in *.
    replace (i * (base * 1) * 1 + extra * 2) with ((i * k + extra) * 2) by lia.
    apply Z.div_mul. discriminate.
  - rewrite <- inject_Z_mult, <- inject_Z_plus. apply Qfloor_Z.
Qed.

Lemma floor_scaled0 (i base : Z) (n : nat) :
  Z.even base = true ->
  Qfloor (inject_Z i * reveal_speed (inject_Z base) n)
  = i * (if (100 <? n)%nat then base / 2 else base).
Proof.
  intros Hev.
  rewrite (Qfloor_comp _ (inject_Z i * reveal_speed (inject_Z base) n + inject_Z 0)).
  - rewrite floor_scaled by exact Hev. lia.
  - unfold inject_Z at 3. symmetry. apply Qplus_0_r.
Qed.

(** What the typewriter leaves behind for a string of length n: the call
    returns at once with the element holding one hidden span per
    character, the closure revealing character i registered for
    [i * rate] after the call and the callback for [n * rate + 500] after
    it; running the closure of character i makes that span opaque. The
    base rate is a whole, even number of milliseconds (the script passes
    50). *)
Lemma typewriter_registers (el : field) (str : string) (base : Z)
    (cb : callback) (s : State) :
  0 <= base -> Z.even base = true ->
  let n := String.length str in
  let rate := if (100 <? n)%nat then base / 2 else base in
  let first := List.length (nodes (dom s)) in
  exists s',
    createTypewriter el (JStr str) (inject_Z base) (Some cb) s = Returned s'
    /\ clock s' = clock s
    /\ rendered el (dom s') = spans_of str
    /\ timers s'
       = timers s
         ++ map (fun i => {| tid := next_tid s + i;
                             due := clock s + Z.of_nat i * rate;
                             act := Tick (first + i) |}) (seq 0 n)
         ++ [{| tid := next_tid s + n;
                due := clock s + Z.of_nat n * rate + 500;
                act := TypeDone cb |}]
    /\ (forall sw i c,
          nth_error (list_ascii_of_string str) i = Some c ->
          nth_error (nodes (dom (reveal_tick sw (first + i) s'))) (first + i)
          = Some {| html := html (span_of c); shown := true |})
    /\ (str = EmptyString ->
        timers s'
        = timers s ++ [{| tid := next_tid s; due := clock s + 500;
                          act := TypeDone cb |}]).
Proof.
  intros Hbase Hev n rate first.
  assert (Hrate : 0 <= rate).
  { unfold rate. destruct (100 <? n)%nat; [apply Z.div_pos; lia | exact Hbase]. }
  assert (Htimers :
    tick_timers (next_tid s) first (clock s) (reveal_speed (inject_Z base) n) n
    ++ [{| tid := next_tid s + n;
           due := clock s
                  + Z.max 0 (Qfloor (inject_Z (Z.of_nat n)
                                     * reveal_speed (inject_Z base) n + 500));
           act := TypeDone cb |}]
    = map (fun i => {| tid := next_tid s + i;
                       due := clock s + Z.of_nat i * rate;
                       act := Tick (first + i) |}) (seq 0 n)
      ++ [{| tid := next_tid s + n;
             due := clock s + Z.of_nat n * rate + 500;
             act := TypeDone cb |}]).
  { f_equal.
    - unfold tick_timers. apply map_ext. intros i. unfold tick_timer.
      rewrite floor_scaled0 by exact Hev. fold rate.
      rewrite Z.max_r by nia. reflexivity.
    - change 500%Q with (inject_Z 500).
      rewrite floor_scaled by exact Hev. fold rate.
      rewrite Z.max_r by nia. do 2 f_equal. lia. }
  eexists. split; [apply createTypewriter_string |].
  fold n. fold first.
  split; [reflexivity |].
  split; [apply rendered_append_all |].
  split; [unfold register; cbn [timers with_dom]; now rewrite Htimers |].
  split.
  - intros sw i c Hc.
    rewrite reveal_tick_nodes, nth_error_show_at, Nat.eqb_refl.
    unfold register, with_dom, append_all. cbn [dom nodes set_children set_nodes].
    fold first. rewrite nth_error_app2 by lia.
    replace (first + i - List.length (nodes (dom s)))%nat with i
      by (unfold first; lia).
    unfold spans_of. rewrite nth_error_map, Hc. reflexivity.
  - intros ->. unfold register. cbn [timers with_dom].
    rewrite Htimers. subst n. cbn [String.length seq map app].
    now rewrite Nat.add_0_r, Z.add_0_r.
Qed.

(** ** Reveal rate *)

(** C6. The per-character interval the typewriter uses for a string is the
    base rate when the string has at most 100 characters and half the base
    rate when it has more; it is the interval at which the typewriter
    spaces the reveals it registers. *)
Theorem reveal_interval_adapts (baseSpeed : Q) (str : string) :
  let speed := reveal_speed baseSpeed (List.length (list_ascii_of_string str)) in
  ((String.length str <= 100)%nat -> speed = baseSpeed)
  /\ ((100 < String.length str)%nat -> speed = (baseSpeed / 2)%Q)
  /\ (forall el cb s,
        exists s0 after,
          createTypewriter el (JStr str) baseSpeed (Some cb) s = Returned s0
          /\ timers s0
             = timers s
               ++ map (fun i => {| tid := next_tid s + i;
                                   due := clock s
                                          + Z.max 0 (Qfloor (inject_Z (Z.of_nat i)
                                                             * speed));
                                   act := Tick (List.length (nodes (dom s)) + i) |})
                      (seq 0 (String.length str))
               ++ [after]).
Proof.
  cbv zeta. rewrite length_list_ascii_of_string. unfold reveal_speed.
  split; [| split].
  - intros H. destruct (Nat.ltb_spec 100 (String.length str)); [lia | reflexivity].
  - intros H. destruct (Nat.ltb_spec 100 (String.length str)); [reflexivity | lia].
  - intros el cb s. do 2 eexists.
    split; [apply createTypewriter_string |]. reflexivity.
Qed.

(** Witness: "Metallica" (9 characters) and a string of 101 characters at
    the script's base rate. *)
Lemma reveal_interval_adapts_witness :
  (String.length "Metallica" <= 100)%nat
  /\ reveal_speed 50 (List.length (list_ascii_of_string "Metallica")) = 50%Q
  /\ (100 < String.length (string_of_list_ascii (repeat "M"%char 101)))%nat
  /\ reveal_speed 50
       (List.length
          (list_ascii_of_string (string_of_list_ascii (repeat "M"%char 101))))
     = (50 / 2)%Q.
Proof.
  split; [cbn; lia |].
  split; [apply (proj1 (reveal_interval_adapts 50 "Metallica")); cbn; lia |].
  split; [cbn; lia |].
  apply (proj1 (proj2 (reveal_interval_adapts 50
                         (string_of_list_ascii (repeat "M"%char 101))))).
  cbn. lia.
Defined.

(** ** The event loop *)

Lemma earlier_fires_before (a b : timer) :
  earlier a b = true <-> fires_before a b.
Proof.
  unfold earlier, fires_before.
  rewrite orb_true_iff, andb_true_iff, Z.ltb_lt, Z.eqb_eq, Nat.ltb_lt.
  reflexivity.
Qed.

Lemma not_earlier (a b : timer) :
  earlier a b = false <-> ~ fires_before a b.
Proof.
  rewrite <- earlier_fires_before. destruct (earlier a b); split; congruence.
Qed.

Lemma next_timer_In (l : list timer) (m : timer) :
  next_timer l = Some m -> In m l.
Proof.
  revert m. induction l as [| tm r IH]; intros m H; cbn in H; [discriminate |].
  destruct (next_timer r) as [m0 |].
  - destruct (earlier m0 tm); injection H as <-; [right; now apply IH | now left].
  - injection H as <-. now left.
Qed.

(** The timer chosen is one that no pending timer fires before. *)
Lemma next_timer_min (l : list timer) (m : timer) :
  next_timer l = Some m -> forall x, In x l -> ~ fires_before x m.
Proof.
  revert m. induction l as [| tm r IH]; intros m H x Hx; cbn in H; [discriminate |].
  destruct (next_timer r) as [m0 |] eqn:Hr.
  - specialize (IH m0 eq_refl).
    destruct (earlier m0 tm) eqn:He; injection H as <-.
    + apply earlier_fires_before in He.
      destruct Hx as [<- | Hx]; [| now apply IH].
      unfold fires_before in *. lia.
    + apply not_earlier in He.
      destruct Hx as [<- | Hx]; [unfold fires_before; lia |].
      specialize (IH x Hx). unfold fires_before in *. lia.
  - injection H as <-. destruct r as [| y r].
    + destruct Hx as [<- | []]. unfold fires_before. lia.
    + cbn in Hr. destruct (next_timer r); discriminate.
Qed.

Lemma next_timer_none (l : list timer) : next_timer l = None -> l = [].
Proof.
  destruct l as [| tm r]; [reflexivity |]. cbn.
  destruct (next_timer r); discriminate.
Qed.

Lemma due_by_none (T : Z) (s : State) :
  due_by T s = None -> forall tm, In tm (timers s) -> T < due tm.
Proof.
  unfold due_by. intros Hd tm Htm.
  destruct (next_timer (timers s)) as [m |] eqn:Hn.
  - destruct (Z.leb_spec (due m) T); [discriminate |].
    pose proof (next_timer_min _ _ Hn tm Htm) as Hmin.
    unfold fires_before in Hmin. lia.
  - apply next_timer_none in Hn. rewrite Hn in Htm. destruct Htm.
Qed.

(** After [advance], no pending timer is due. *)
Lemma advance_leaves_none_due (sw : Dom -> Z) (fuel : nat) (T : Z) :
  forall s s', advance sw fuel T s = Some s' ->
               forall tm, In tm (timers s') -> T < due tm.
Proof.
  induction fuel as [| f IH]; intros s s' H tm Htm; cbn in H;
    destruct (due_by T s) as [m |] eqn:Hd.
  - discriminate.
  - injection H as <-. now apply (due_by_none T s Hd).
  - eapply IH; eassumption.
  - injection H as <-. now apply (due_by_none T s Hd).
Qed.

(** The closures that only write to the document run as [effect] says. *)
Lemma exec_effect (sw : Dom -> Z) (a : action) (f : Dom -> Dom) (s : State) :
  effect sw a = Some f -> exec sw a s = Returned (with_dom f s).
Proof.
  destruct a as [| | | | | sp | cb | | | |]; cbn [effect]; intros H;
    try discriminate; try (injection H as <-; reflexivity).
  - injection H as <-. cbn [exec]. f_equal.
    unfold reveal_tick, tick_effect, with_dom.
    cbn [dom clock next_tid timers autoHideTimeout delayedStartTimeout uncaught].
    change (lt_width (show_span sp (dom s))) with (lt_width (dom s)).
    destruct (lt_width (dom s)) as [w |];
      [destruct (w <? _) |]; reflexivity.
  - destruct cb; try discriminate. injection H as <-. cbn.
    now rewrite with_dom_id.
Qed.

Lemma fire_effect (sw : Dom -> Z) (tm : timer) (f : Dom -> Dom) (s : State) :
  effect sw (act tm) = Some f ->
  fire sw tm s
  = with_dom f (set_clock (Z.max (clock s) (due tm))
                          (clearTimeout (Some (tid tm)) s)).
Proof.
  intros H. unfold fire. now rewrite (exec_effect _ _ _ _ H).
Qed.

Lemma fire_effect_timers (sw : Dom -> Z) (tm : timer) (s : State) :
  effect sw (act tm) <> None ->
  timers (fire sw tm s)
  = filter (fun x => negb (Nat.eqb (tid x) (tid tm))) (timers s).
Proof.
  intros H. destruct (effect sw (act tm)) as [f |] eqn:E; [| congruence].
  rewrite (fire_effect _ _ _ _ E). reflexivity.
Qed.

Lemma advance_none_due (sw : Dom -> Z) (fuel : nat) (T : Z) (s : State) :
  (forall x, In x (timers s) -> T < due x) ->
  advance sw fuel T s = Some (set_clock (Z.max (clock s) T) s).
Proof.
  intros H.
  assert (Hd : due_by T s = None).
  { unfold due_by. destruct (next_timer (timers s)) as [m |] eqn:Hn; [| reflexivity].
    specialize (H m (next_timer_In _ _ Hn)).
    destruct (Z.leb_spec (due m) T); [lia | reflexivity]. }
  destruct fuel; cbn; now rewrite Hd.
Qed.

(** Timers that only write to the document fire in the order of their due
    times: if [order] lists, in firing order, the pending timers due by
    [T], and all of them only write to the document, [advance] fires
    exactly those, one after the other. *)
Lemma advance_in_order (sw : Dom -> Z) (T : Z) (order : list timer) :
  forall (fuel : nat) (s : State),
    (List.length order <= fuel)%nat ->
    NoDup (map tid (timers s)) ->
    StronglySorted fires_before order ->
    (forall tm, In tm order ->
                In tm (timers s) /\ due tm <= T /\ effect sw (act tm) <> None) ->
    (forall x, In x (timers s) -> In x order \/ T < due x) ->
    advance sw fuel T s
    = Some (set_clock (Z.max (clock (fire_all sw order s)) T)
                      (fire_all sw order s)).
Proof.
  induction order as [| tm rest IH]; intros fuel s Hfuel Hnd Hsort Hin Hout.
  - apply advance_none_due. intros x Hx.
    destruct (Hout x Hx) as [[] | H]. exact H.
  - destruct fuel as [| f]; [cbn in Hfuel; lia |].
    apply StronglySorted_inv in Hsort. destruct Hsort as [Hsort Hhd].
    rewrite Forall_forall in Hhd.
    destruct (Hin tm (or_introl eq_refl)) as (Htm & Hdue & Heff).
    assert (Hnext : due_by T s = Some tm).
    { unfold due_by. destruct (next_timer (timers s)) as [m |] eqn:Hn.
      - pose proof (next_timer_min _ _ Hn tm Htm) as Hmin.
        assert (m = tm) as ->.
        { destruct (Hout m (next_timer_In _ _ Hn)) as [[E | Hm] | Hlate].
          - now symmetry.
          - elim Hmin. now apply Hhd.
          - elim Hmin. left. lia. }
        destruct (Z.leb_spec (due tm) T); [reflexivity | lia].
      - apply next_timer_none in Hn. rewrite Hn in Htm. destruct Htm. }
    cbn [advance]. rewrite Hnext. cbn [fire_all fold_left].
    apply IH.
    + cbn in Hfuel. lia.
    + rewrite fire_effect_timers by exact Heff.
      clear -Hnd. induction (timers s) as [| y l IHl]; cbn; [constructor |].
      cbn in Hnd. apply NoDup_cons_iff in Hnd. destruct Hnd as [Hy Hl].
      destruct (negb (tid y =? tid tm)%nat); [| now apply IHl].
      cbn. constructor; [| now apply IHl].
      intros Hc. apply Hy. apply in_map_iff in Hc.
      destruct Hc as (z & Hz & Hzin). apply filter_In in Hzin.
      apply in_map_iff. exists z. tauto.
    + exact Hsort.
    + intros x Hx. destruct (Hin x (or_intror Hx)) as (Hxin & Hxd & Hxe).
      split; [| split; assumption].
      rewrite fire_effect_timers by exact Heff.
      apply filter_In. split; [exact Hxin |].
      apply negb_true_iff, Nat.eqb_neq.
      specialize (Hhd x Hx).
      intros Heq.
      assert (x = tm) as ->.
      { clear -Hnd Hxin Htm Heq.
        induction (timers s) as [| y l IHl]; [destruct Hxin |].
        cbn in Hnd. apply NoDup_cons_iff in Hnd. destruct Hnd as [Hy Hl].
        destruct Hxin as [-> | Hxin], Htm as [-> | Htm]; try reflexivity.
        - elim Hy. rewrite Heq. now apply in_map.
        - elim Hy. rewrite <- Heq. now apply in_map.
        - now apply IHl. }
      unfold fires_before in Hhd. lia.
    + intros x Hx. rewrite fire_effect_timers in Hx by exact Heff.
      apply filter_In in Hx. destruct Hx as [Hx Hne].
      apply negb_true_iff, Nat.eqb_neq in Hne.
      destruct (Hout x Hx) as [[<- | Hr] | Hl]; [congruence | now left | now right].
Qed.

Lemma fire_all_frame (sw : Dom -> Z) (order : list timer) :
  forall s,
    (forall tm, In tm order -> effect sw (act tm) <> None) ->
    uncaught (fire_all sw order s) = uncaught s
    /\ next_tid (fire_all sw order s) = next_tid s
    /\ autoHideTimeout (fire_all sw order s) = autoHideTimeout s
    /\ delayedStartTimeout (fire_all sw order s) = delayedStartTimeout s
    /\ (forall x, In x (timers (fire_all sw order s)) -> In x (timers s)).
Proof.
  induction order as [| tm rest IH]; intros s H; cbn [fire_all fold_left].
  - repeat split. tauto.
  - destruct (effect sw (act tm)) as [f |] eqn:E;
      [| elim (H tm (or_introl eq_refl) E)].
    destruct (IH (fire sw tm s)) as (Hu & Hn & Ha & Hd & Ht).
    { intros x Hx. apply H. now right. }
    unfold fire_all in *. rewrite Hu, Hn, Ha, Hd.
    split; [| split; [| split; [| split]]];
      try (rewrite (fire_effect _ _ _ _ E); reflexivity).
    intros x Hx. apply Ht in Hx. rewrite (fire_effect _ _ _ _ E) in Hx.
    cbn in Hx. apply filter_In in Hx. tauto.
Qed.

Lemma fire_dom (sw : Dom -> Z) (tm : timer) (f : Dom -> Dom) (s : State) :
  effect sw (act tm) = Some f -> dom (fire sw tm s) = f (dom s).
Proof. intros H. now rewrite (fire_effect _ _ _ _ H). Qed.

Lemma fire_clock (sw : Dom -> Z) (tm : timer) (s : State) :
  effect sw (act tm) <> None ->
  clock (fire sw tm s) = Z.max (clock s) (due tm).
Proof.
  intros H. destruct (effect sw (act tm)) as [f |] eqn:E; [| congruence].
  now rewrite (fire_effect _ _ _ _ E).
Qed.

Lemma fire_all_dom (sw : Dom -> Z) (order : list timer) :
  forall s,
    (forall tm, In tm order -> effect sw (act tm) <> None) ->
    dom (fire_all sw order s) = apply_effects sw order (dom s)
    /\ clock (fire_all sw order s) = fold_left Z.max (map due order) (clock s).
Proof.
  induction order as [| tm rest IH]; intros s H;
    cbn [fire_all fold_left apply_effects map]; [split; reflexivity |].
  destruct (effect sw (act tm)) as [f |] eqn:E;
    [| elim (H tm (or_introl eq_refl) E)].
  destruct (IH (fire sw tm s)) as (Hd & Hc).
  { intros x Hx. apply H. now right. }
  unfold fire_all in *. rewrite Hd, Hc, (fire_effect _ _ _ _ E).
  split; reflexivity.
Qed.

(** ** The commands in one step *)

Lemma clearTimeout_none_pending (h : option nat) (s : State) :
  timers s = [] -> clearTimeout h s = s.
Proof.
  intros H. destruct h as [id |]; [| reflexivity].
  unfold clearTimeout, set_timers. rewrite H. destruct s; cbn in *.
  now subst.
Qed.

Lemma clearTimeout_frame (h : option nat) (s : State) :
  clock (clearTimeout h s) = clock s
  /\ next_tid (clearTimeout h s) = next_tid s
  /\ dom (clearTimeout h s) = dom s
  /\ uncaught (clearTimeout h s) = uncaught s
  /\ autoHideTimeout (clearTimeout h s) = autoHideTimeout s
  /\ delayedStartTimeout (clearTimeout h s) = delayedStartTimeout s.
Proof. destruct h; repeat split; reflexivity. Qed.

(** [stop] in one step: the two tracked handles are cleared, the text
    container is made transparent, the four exit closures are registered. *)
Lemma stop_eq (s : State) :
  stop s
  = register (exit_timers (next_tid s) (clock s))
      (with_dom (set_tc_opacity (Some 0))
         (clearTimeout (delayedStartTimeout s)
            (clearTimeout (autoHideTimeout s) s))).
Proof.
  unfold stop. cbv zeta.
  replace (delayedStartTimeout (clearTimeout (autoHideTimeout s) s))
    with (delayedStartTimeout s) by (now destruct (autoHideTimeout s)).
  set (s1 := with_dom _ _).
  assert (Hc : clock s1 = clock s).
  { unfold s1. cbn [clock with_dom].
    now rewrite !(proj1 (clearTimeout_frame _ _)). }
  assert (Hn : next_tid s1 = next_tid s).
  { unfold s1. cbn [next_tid with_dom].
    destruct (delayedStartTimeout s), (autoHideTimeout s); reflexivity. }
  change (setTimeout ExitCollapse 500) with (setTimeout ExitCollapse (inject_Z 500)).
  change (setTimeout ExitLogoStage 1200) with (setTimeout ExitLogoStage (inject_Z 1200)).
  change (setTimeout ExitBox 3500) with (setTimeout ExitBox (inject_Z 3500)).
  change (setTimeout ExitLogoOff 1800) with (setTimeout ExitLogoOff (inject_Z 1800)).
  rewrite !setTimeout_ms by lia.
  unfold register, exit_timers.
  cbn [snd clock next_tid timers autoHideTimeout delayedStartTimeout dom uncaught
       List.length].
  rewrite Hc, Hn, <- !app_assoc. cbn [app].
  f_equal; [lia |].
  do 2 f_equal. repeat (f_equal; try lia).
Qed.

Lemma with_dom_compose (f g : Dom -> Dom) (s : State) :
  with_dom f (with_dom g s) = with_dom (fun d => f (g d)) s.
Proof. reflexivity. Qed.

Lemma play_eq (arg : option request) (s : State) :
  play arg s
  = set_delayedStartTimeout (Some (next_tid s))
      (register [{| tid := next_tid s; due := clock s + 1000;
                    act := DelayedStart (data_of arg) |}]
         (with_dom play_reset
            (clearTimeout (delayedStartTimeout s)
               (clearTimeout (autoHideTimeout s) s)))).
Proof.
  unfold play. cbv zeta.
  replace (delayedStartTimeout (clearTimeout (autoHideTimeout s) s))
    with (delayedStartTimeout s) by (now destruct (autoHideTimeout s)).
  set (s0 := clearTimeout (delayedStartTimeout s)
               (clearTimeout (autoHideTimeout s) s)).
  assert (Hc : clock s0 = clock s)
    by (unfold s0; now rewrite !(proj1 (clearTimeout_frame _ _))).
  assert (Hn : next_tid s0 = next_tid s)
    by (unfold s0; now rewrite !(proj1 (proj2 (clearTimeout_frame _ _)))).
  rewrite !with_dom_compose. fold play_reset.
  change (setTimeout (DelayedStart (data_of arg)) 1000)
    with (setTimeout (DelayedStart (data_of arg)) (inject_Z 1000)).
  rewrite setTimeout_ms by lia.
  unfold register, set_delayedStartTimeout.
  cbn [snd clock next_tid timers autoHideTimeout delayedStartTimeout dom
       uncaught List.length with_dom].
  rewrite Hc, Hn, Nat.add_1_r. reflexivity.
Qed.

Lemma in_clearTimeout (h : option nat) (s : State) (tm : timer) :
  In tm (timers (clearTimeout h s))
  <-> In tm (timers s) /\ Some (tid tm) <> h.
Proof.
  destruct h as [id |]; cbn.
  - rewrite filter_In, negb_true_iff, Nat.eqb_neq. split; intros [H1 H2].
    + split; [exact H1 | congruence].
    + split; [exact H1 | congruence].
  - split; [intros H; split; [exact H | discriminate] | tauto].
Qed.

(** The only timers [play] and [stop] remove are the two whose handles
    the script keeps; every other pending closure stays registered. *)
Lemma play_timers (arg : option request) (s : State) (tm : timer) :
  In tm (timers (play arg s))
  <-> (In tm (timers s) /\ Some (tid tm) <> autoHideTimeout s
       /\ Some (tid tm) <> delayedStartTimeout s)
      \/ tm = {| tid := next_tid s; due := clock s + 1000;
                 act := DelayedStart (data_of arg) |}.
Proof.
  rewrite play_eq. unfold register.
  cbn [timers set_delayedStartTimeout with_dom].
  rewrite in_app_iff, !in_clearTimeout. cbn [In]. intuition congruence.
Qed.


(** ** The exit sequence *)

(** [stop] when nothing is pending: [t] ms later the document is the one
    [exit_progress] describes, the clock stands at [t] after the call, no
    exception was reported, and from 3500 ms on nothing is pending. *)
Lemma stop_quiescent_run (sw : Dom -> Z) (s : State) (t : Z) :
  timers s = [] -> 0 <= t ->
  exists s',
    advance sw 4 (clock s + t) (stop s) = Some s'
    /\ dom s' = exit_progress t (dom s)
    /\ clock s' = clock s + t
    /\ uncaught s' = uncaught s
    /\ (3500 <= t -> timers s' = []).
Proof.
  intros Hq Ht. rewrite stop_eq.
  rewrite (clearTimeout_none_pending (autoHideTimeout s) s Hq).
  rewrite (clearTimeout_none_pending (delayedStartTimeout s) s Hq).
  set (s0 := register _ _).
  assert (Ht0 : timers s0 = exit_timers (next_tid s) (clock s)).
  { unfold s0, register. cbn [timers with_dom]. now rewrite Hq. }
  set (a := {| tid := next_tid s; due := clock s + 500; act := ExitCollapse |}).
  set (b := {| tid := next_tid s + 1; due := clock s + 1200; act := ExitLogoStage |}).
  set (c := {| tid := next_tid s + 2; due := clock s + 3500; act := ExitBox |}).
  set (d := {| tid := next_tid s + 3; due := clock s + 1800; act := ExitLogoOff |}).
  assert (Hrun : forall order,
             (List.length order <= 4)%nat ->
             StronglySorted fires_before order ->
             (forall tm, In tm order ->
                In tm (timers s0) /\ due tm <= clock s + t
                /\ effect sw (act tm) <> None) ->
             (forall x, In x (timers s0) -> In x order \/ clock s + t < due x) ->
             advance sw 4 (clock s + t) s0
             = Some (set_clock (Z.max (clock (fire_all sw order s0)) (clock s + t))
                               (fire_all sw order s0))).
  { intros order Hl Hs Hi Ho. apply advance_in_order; try assumption.
    rewrite Ht0. order_conditions. }
  assert (Hc0 : clock s0 = clock s) by reflexivity.
  assert (Hd0 : dom s0 = set_tc_opacity (Some 0) (dom s)) by reflexivity.
  assert (Hu0 : uncaught s0 = uncaught s) by reflexivity.
  unfold exit_progress.
  assert (Hcases : 3500 <= t \/ 1800 <= t < 3500 \/ 1200 <= t < 1800
                   \/ 500 <= t < 1200 \/ t < 500) by lia.
  destruct Hcases as [H | [H | [H | [H | H]]]]; settle_leb; cbv iota.
  all: assert (Hfx : forall order,
             (forall tm, In tm order -> In tm [a; b; c; d]) ->
             forall tm, In tm order -> effect sw (act tm) <> None)
    by (intros order Hsub tm Htm; specialize (Hsub tm Htm);
        unfold a, b, c, d in Hsub; in_cases Hsub; subst tm; discriminate).
  - exists (set_clock (Z.max (clock (fire_all sw [a; b; d; c] s0)) (clock s + t))
                      (fire_all sw [a; b; d; c] s0)).
    assert (Hok : forall tm, In tm [a; b; d; c] -> effect sw (act tm) <> None)
      by (apply Hfx; cbn [In]; tauto).
    destruct (fire_all_dom sw _ s0 Hok) as (Hd & Hc).
    destruct (fire_all_frame sw _ s0 Hok) as (Hu & _ & _ & _ & Hsub).
    split; [apply Hrun; rewrite ?Ht0; subst a b c d; order_conditions |].
    cbn [dom clock uncaught timers set_clock]. rewrite Hd, Hc, Hu, Hd0, Hc0, Hu0.
    split; [reflexivity |]. split; [cbn; lia |]. split; [reflexivity |].
    intros _.
    pose proof (advance_leaves_none_due sw 4 (clock s + t) s0 _
                  (Hrun [a; b; d; c] ltac:(cbn; lia)
                     ltac:(subst a b c d; order_conditions)
                     ltac:(rewrite ?Ht0; subst a b c d; order_conditions)
                     ltac:(rewrite ?Ht0; subst a b c d; order_conditions)))
      as Hlate.
    cbn [timers set_clock] in Hlate.
    destruct (timers (fire_all sw [a; b; d; c] s0)) as [| x l] eqn:E;
      [reflexivity | exfalso].
    specialize (Hlate x (or_introl eq_refl)).
    specialize (Hsub x). rewrite Ht0 in Hsub.
    specialize (Hsub (or_introl eq_refl)). in_cases Hsub; subst x; cbn in Hlate; lia.
  - exists (set_clock (Z.max (clock (fire_all sw [a; b; d] s0)) (clock s + t))
                      (fire_all sw [a; b; d] s0)).
    assert (Hok : forall tm, In tm [a; b; d] -> effect sw (act tm) <> None)
      by (apply Hfx; cbn [In]; tauto).
    destruct (fire_all_dom sw _ s0 Hok) as (Hd & Hc).
    destruct (fire_all_frame sw _ s0 Hok) as (Hu & _).
    split; [apply Hrun; rewrite ?Ht0; subst a b c d; order_conditions |].
    cbn [dom clock uncaught timers set_clock]. rewrite Hd, Hc, Hu, Hd0, Hc0, Hu0.
    split; [reflexivity |]. split; [cbn; lia |]. split; [reflexivity | lia].
  - exists (set_clock (Z.max (clock (fire_all sw [a; b] s0)) (clock s + t))
                      (fire_all sw [a; b] s0)).
    assert (Hok : forall tm, In tm [a; b] -> effect sw (act tm) <> None)
      by (apply Hfx; cbn [In]; tauto).
    destruct (fire_all_dom sw _ s0 Hok) as (Hd & Hc).
    destruct (fire_all_frame sw _ s0 Hok) as (Hu & _).
    split; [apply Hrun; rewrite ?Ht0; subst a b c d; order_conditions |].
    cbn [dom clock uncaught timers set_clock]. rewrite Hd, Hc, Hu, Hd0, Hc0, Hu0.
    split; [reflexivity |]. split; [cbn; lia |]. split; [reflexivity | lia].
  - exists (set_clock (Z.max (clock (fire_all sw [a] s0)) (clock s + t))
                      (fire_all sw [a] s0)).
    assert (Hok : forall tm, In tm [a] -> effect sw (act tm) <> None)
      by (apply Hfx; cbn [In]; tauto).
    destruct (fire_all_dom sw _ s0 Hok) as (Hd & Hc).
    destruct (fire_all_frame sw _ s0 Hok) as (Hu & _).
    split; [apply Hrun; rewrite ?Ht0; subst a b c d; order_conditions |].
    cbn [dom clock uncaught timers set_clock]. rewrite Hd, Hc, Hu, Hd0, Hc0, Hu0.
    split; [reflexivity |]. split; [cbn; lia |]. split; [reflexivity | lia].
  - exists (set_clock (Z.max (clock (fire_all sw [] s0)) (clock s + t))
                      (fire_all sw [] s0)).
    split; [apply Hrun; rewrite ?Ht0; subst a b c d; order_conditions |].
    cbn [dom clock uncaught timers set_clock fire_all fold_left].
    rewrite Hd0, Hc0, Hu0.
    split; [reflexivity |]. split; [lia |]. split; [reflexivity | lia].
Qed.

(** ** Every step keeps the registry well formed *)

Lemma length_show_at (id : nat) (l : list span) :
  List.length (show_at id l) = List.length l.
Proof.
  revert id. induction l as [| sp l IH]; intros [| id]; cbn; try reflexivity.
  now rewrite IH.
Qed.

Lemma evolves_nodes_grow (gone : timer -> bool) (lit : option nat)
    (s s' : State) :
  evolves gone lit s s' ->
  (List.length (nodes (dom s)) <= List.length (nodes (dom s')))%nat.
Proof.
  intros (new & extra & _ & _ & _ & Hn & _). rewrite Hn, length_app.
  destruct lit; rewrite ?length_show_at; lia.
Qed.

Lemma evolves_wf (gone : timer -> bool) (lit : option nat) (s s' : State) :
  wf s -> evolves gone lit s s' -> wf s'.
Proof.
  intros (Hnd & Hlt & Hh & Htb & Htu) Hev.
  pose proof (evolves_nodes_grow _ _ _ _ Hev) as Hgrow.
  destruct Hev as (new & extra & Ht & Hnext & Htids & Hn & Hnb & Hnu & Hhs).
  assert (Hold : forall x, In x (filter (fun x => negb (gone x)) (timers s)) ->
                           In x (timers s))
    by (intros x Hx; apply filter_In in Hx; tauto).
  assert (Hnew : forall x, In x new ->
                           (next_tid s <= tid x < next_tid s')%nat).
  { intros x Hx. apply (in_map tid) in Hx. rewrite Htids in Hx.
    apply in_seq in Hx. lia. }
  assert (Hinj : forall x y, In x new -> In y new -> tid x = tid y -> x = y).
  { assert (Hndn : NoDup (map tid new)) by (rewrite Htids; apply seq_NoDup).
    clear -Hndn. induction new as [| z l IH]; intros x y Hx Hy E; [destruct Hx |].
    cbn in Hndn. apply NoDup_cons_iff in Hndn. destruct Hndn as [Hz Hl].
    destruct Hx as [-> | Hx], Hy as [-> | Hy]; try reflexivity.
    - elim Hz. rewrite E. now apply in_map.
    - elim Hz. rewrite <- E. now apply in_map.
    - now apply IH. }
  unfold wf. rewrite Ht. repeat split.
  - rewrite map_app. apply NoDup_app.
    + clear -Hnd. induction (timers s) as [| y l IH]; cbn; [constructor |].
      cbn in Hnd. apply NoDup_cons_iff in Hnd. destruct Hnd as [Hy Hl].
      destruct (negb (gone y)); [| now apply IH].
      cbn. constructor; [| now apply IH].
      intros Hc. apply Hy. apply in_map_iff in Hc.
      destruct Hc as (z & Hz & Hzin). apply filter_In in Hzin.
      apply in_map_iff. exists z. tauto.
    + rewrite Htids. apply seq_NoDup.
    + intros a Ha Hb. apply in_map_iff in Ha. destruct Ha as (x & <- & Hx).
      apply in_map_iff in Hb. destruct Hb as (y & E & Hy).
      specialize (Hlt x (Hold x Hx)). specialize (Hnew y Hy). lia.
  - intros x Hx. apply in_app_or in Hx. destruct Hx as [Hx | Hx].
    + specialize (Hlt x (Hold x Hx)). lia.
    + specialize (Hnew x Hx). lia.
  - destruct (Hhs h H) as [Hprev | (x0 & Hx0 & <- & _)].
    + destruct (Hh h Hprev). lia.
    + specialize (Hnew x0 Hx0). lia.
  - intros x sp Hx E. apply in_app_or in Hx.
    destruct (Hhs h H) as [Hprev | (x0 & Hx0 & <- & Hno)].
    + destruct (Hh h Hprev) as (Hlow & Hnot).
      destruct Hx as [Hx | Hx]; [now apply (Hnot x sp (Hold x Hx)) |].
      specialize (Hnew x Hx). lia.
    + destruct Hx as [Hx | Hx].
      * specialize (Hlt x (Hold x Hx)). specialize (Hnew x0 Hx0). lia.
      * rewrite (Hinj x x0 Hx Hx0 E). apply Hno.
  - intros x sp Hx E. apply in_app_or in Hx. destruct Hx as [Hx | Hx].
    + specialize (Htb x sp (Hold x Hx) E). lia.
    + apply (Hnb x sp Hx E).
  - intros x y sp Hx Hy Ex Ey.
    apply in_app_or in Hx. apply in_app_or in Hy.
    destruct Hx as [Hx | Hx], Hy as [Hy | Hy].
    + apply (Htu x y sp); auto.
    + specialize (Htb x sp (Hold x Hx) Ex). specialize (Hnb y sp Hy Ey). lia.
    + specialize (Htb y sp (Hold y Hy) Ey). specialize (Hnb x sp Hx Ex). lia.
    + apply (Hnu x y sp); auto.
Qed.

Lemma filter_twice {A : Type} (f g : A -> bool) (l : list A) :
  filter f (filter g l) = filter (fun x => g x && f x) l.
Proof.
  induction l as [| x l IH]; [reflexivity |]. cbn.
  destruct (g x); cbn; [destruct (f x) |]; now rewrite IH.
Qed.

Lemma cleared_tracked (s : State) :
  timers (clearTimeout (delayedStartTimeout s)
            (clearTimeout (autoHideTimeout s) s))
  = filter (fun x => negb (tracked s x)) (timers s).
Proof.
  unfold tracked.
  destruct (autoHideTimeout s) as [a |], (delayedStartTimeout s) as [d |];
    cbn [clearTimeout set_timers timers].
  - rewrite filter_twice. apply filter_ext. intros x.
    now rewrite negb_orb.
  - apply filter_ext. intros x. now rewrite orb_false_r.
  - apply filter_ext. intros x. reflexivity.
  - symmetry. apply filter_true.
Qed.

(** The steps compose along the text of the script. *)
Lemma evolves_refl (s : State) : evolves (fun _ => false) None s s.
Proof.
  exists [], []. rewrite !app_nil_r, Nat.add_0_r.
  split; [symmetry; apply filter_true |].
  do 3 (split; [reflexivity |]).
  split; [intros x sp [] |]. split; [intros x y sp [] |].
  intros h Hh. now left.
Qed.

Lemma evolves_cleared (s : State) :
  evolves (tracked s) None s
    (clearTimeout (delayedStartTimeout s) (clearTimeout (autoHideTimeout s) s)).
Proof.
  exists [], []. rewrite !app_nil_r, Nat.add_0_r, cleared_tracked.
  rewrite !(proj1 (proj2 (clearTimeout_frame _ _))).
  rewrite !(proj1 (proj2 (proj2 (clearTimeout_frame _ _)))).
  do 4 (split; [reflexivity |]).
  split; [intros x sp [] |]. split; [intros x y sp [] |].
  intros h Hh. left.
    rewrite !(proj1 (proj2 (proj2 (proj2 (proj2 (clearTimeout_frame _ _))))))
      in Hh.
    rewrite !(proj2 (proj2 (proj2 (proj2 (proj2 (clearTimeout_frame _ _))))))
      in Hh.
    exact Hh.
Qed.

Lemma evolves_with_dom (g : timer -> bool) (lit : option nat) (s s1 : State)
    (f : Dom -> Dom) :
  (forall d, nodes (f d) = nodes d) ->
  evolves g lit s s1 -> evolves g lit s (with_dom f s1).
Proof.
  intros Hf (new & extra & H). exists new, extra.
  cbn [timers next_tid dom autoHideTimeout delayedStartTimeout with_dom].
  rewrite Hf. exact H.
Qed.

Lemma evolves_from_with_dom (g : timer -> bool) (lit : option nat)
    (s s1 : State) (f : Dom -> Dom) :
  (forall d, nodes (f d) = nodes d) ->
  evolves g lit (with_dom f s) s1 -> evolves g lit s s1.
Proof.
  intros Hf (new & extra & H). exists new, extra.
  cbn [timers next_tid dom autoHideTimeout delayedStartTimeout with_dom] in H.
  rewrite Hf in H. exact H.
Qed.

Lemma evolves_report (g : timer -> bool) (lit : option nat) (s s1 : State) :
  evolves g lit s s1 -> evolves g lit s (report_exception s1).
Proof. intros (new & extra & H). exists new, extra. exact H. Qed.

(** A further step that registers [more] timers and creates the spans
    [sps]: the reveals among [more] hold spans of [sps], a tracked handle
    is an earlier one or that of a timer of [more] that is no reveal. *)
Lemma evolves_then (g : timer -> bool) (lit : option nat) (s s1 s2 : State)
    (more : list timer) (sps : list span) :
  evolves g lit s s1 ->
  timers s2 = timers s1 ++ more ->
  next_tid s2 = (next_tid s1 + List.length more)%nat ->
  nodes (dom s2) = nodes (dom s1) ++ sps ->
  map tid more = seq (next_tid s1) (List.length more) ->
  (forall x sp, In x more -> act x = Tick sp ->
     (List.length (nodes (dom s1)) <= sp
      < List.length (nodes (dom s1)) + List.length sps)%nat) ->
  (forall x y sp, In x more -> In y more ->
                  act x = Tick sp -> act y = Tick sp -> x = y) ->
  (forall h,
     autoHideTimeout s2 = Some h \/ delayedStartTimeout s2 = Some h ->
     (autoHideTimeout s1 = Some h \/ delayedStartTimeout s1 = Some h)
     \/ exists x, In x more /\ tid x = h /\ forall sp, act x <> Tick sp) ->
  evolves g lit s s2.
Proof.
  intros Hev Ht2 Hn2 Hd2 Htid Hb Hu Hh2.
  pose proof (evolves_nodes_grow _ _ _ _ Hev) as Hgrow.
  destruct Hev as (new & extra & Ht & Hnext & Htids & Hn & Hnb & Hnu & Hhs).
  exists (new ++ more), (extra ++ sps).
  rewrite Ht2, Hn2, Hd2, Ht, Hnext, Hn, <- !app_assoc, !length_app.
  split; [reflexivity |]. split; [lia |].
  split; [rewrite map_app, Htids, Htid, Hnext, <- seq_app; reflexivity |].
  split; [reflexivity |].
  rewrite Hn in Hb, Hgrow. rewrite !length_app in *.
  split; [| split].
  - intros x sp Hx E. apply in_app_or in Hx. destruct Hx as [Hx | Hx].
    + specialize (Hnb x sp Hx E). rewrite Hn, length_app in Hnb. lia.
    + specialize (Hb x sp Hx E). lia.
  - intros x y sp Hx Hy Ex Ey.
    apply in_app_or in Hx. apply in_app_or in Hy.
    destruct Hx as [Hx | Hx], Hy as [Hy | Hy].
    + now apply (Hnu x y sp).
    + specialize (Hnb x sp Hx Ex). rewrite Hn, length_app in Hnb.
      specialize (Hb y sp Hy Ey). lia.
    + specialize (Hnb y sp Hy Ey). rewrite Hn, length_app in Hnb.
      specialize (Hb x sp Hx Ex). lia.
    + now apply (Hu x y sp).
  - intros h Hh. destruct (Hh2 h Hh) as [Hold | (x & Hx & E & Hno)].
    + destruct (Hhs h Hold) as [Hold' | (x & Hx & E & Hno)].
      * now left.
      * right. exists x. split; [apply in_or_app; now left | tauto].
    + right. exists x. split; [apply in_or_app; now right | tauto].
Qed.

Lemma map_add_seq (h n : nat) :
  map (fun i => (h + i)%nat) (seq 0 n) = seq h n.
Proof.
  assert (H : forall a, map (fun i => (h + i)%nat) (seq a n) = seq (h + a) n).
  { induction n as [| n IH]; intros a; cbn [seq map]; [reflexivity |].
    f_equal. rewrite IH. f_equal. lia. }
  rewrite H. f_equal. lia.
Qed.

Lemma setTimeout_register (a : action) (d : Q) (s : State) :
  setTimeout a d s
  = (next_tid s,
     register [{| tid := next_tid s; due := clock s + Z.max 0 (Qfloor d);
                  act := a |}] s).
Proof.
  unfold setTimeout, register. cbn [List.length]. now rewrite Nat.add_1_r.
Qed.

Lemma evolves_setTimeout (g : timer -> bool) (lit : option nat)
    (s s1 : State) (a : action) (d : Q) :
  (forall sp, a <> Tick sp) ->
  evolves g lit s s1 -> evolves g lit s (snd (setTimeout a d s1)).
Proof.
  intros Ha Hev. rewrite setTimeout_register. cbn [snd].
  eapply (evolves_then _ _ _ _ _ _ []); try eassumption; try reflexivity.
  - cbn [register dom]. now rewrite app_nil_r.
  - intros x sp [<- | []] E. now elim (Ha sp).
  - intros x y sp [<- | []] _ E. now elim (Ha sp).
  - intros h Hh. now left.
Qed.

Lemma evolves_createTypewriter (g : timer -> bool) (lit : option nat)
    (s s1 : State) (el : field) (text : jsval) (baseSpeed : Q) (cb : callback) :
  evolves g lit s s1 ->
  evolves g lit s (state_of (createTypewriter el text baseSpeed (Some cb) s1)).
Proof.
  unbox text. intros Hev.
  destruct text as [| | b | n | | str | | str]; try discriminate;
    try (cbn [createTypewriter state_of]; apply evolves_with_dom;
         [intros d; destruct el; reflexivity | exact Hev]).
  rewrite createTypewriter_string. cbn [state_of].
  eapply (evolves_then _ _ _ _ _ _ (spans_of str)); try eassumption.
  - reflexivity.
  - reflexivity.
  - cbn [register dom with_dom]. destruct el; reflexivity.
  - rewrite map_app, length_app. unfold tick_timers.
    rewrite map_map, length_map, length_seq. cbn [tid tick_timer map List.length].
    rewrite map_add_seq, seq_app. reflexivity.
  - intros x sp Hx E. apply in_app_or in Hx. destruct Hx as [Hx | [<- | []]];
      [| discriminate].
    apply in_map_iff in Hx. destruct Hx as (i & <- & Hi). apply in_seq in Hi.
    cbn [act tick_timer] in E. injection E as <-.
    unfold spans_of. rewrite length_map, length_list_ascii_of_string. lia.
  - intros x y sp Hx Hy Ex Ey.
    apply in_app_or in Hx. apply in_app_or in Hy.
    destruct Hx as [Hx | [<- | []]]; [| discriminate].
    destruct Hy as [Hy | [<- | []]]; [| discriminate].
    apply in_map_iff in Hx. destruct Hx as (i & <- & Hi).
    apply in_map_iff in Hy. destruct Hy as (j & <- & Hj).
    cbn [act tick_timer] in Ex, Ey. injection Ex as <-. injection Ey as Ey.
    assert (j = i) as -> by lia. reflexivity.
  - intros h Hh. now left.
Qed.

Lemma tick_effect_frame (sw : Dom -> Z) (sp : nat) (d : Dom) :
  nodes (tick_effect sw sp d) = show_at sp (nodes d)
  /\ (forall el, children el (tick_effect sw sp d) = children el d).
Proof.
  unfold tick_effect. cbv zeta.
  change (lt_width (show_span sp d)) with (lt_width d).
  destruct (lt_width d) as [w |]; [destruct (w <? _) |];
    (split; [reflexivity | intros el; destruct el; reflexivity]).
Qed.

(** The commands have the shape of a step. *)
Lemma play_evolves (arg : option request) (s : State) :
  evolves (tracked s) None s (play arg s).
Proof.
  rewrite play_eq.
  eapply (evolves_then _ _ _ _ _ _ []); [apply evolves_cleared | | | | | | |].
  - reflexivity.
  - reflexivity.
  - cbn [dom set_delayedStartTimeout register with_dom]. now rewrite app_nil_r.
  - cbn [map tid List.length seq].
    now rewrite !(proj1 (proj2 (clearTimeout_frame _ _))).
  - intros x sp [<- | []]. discriminate.
  - intros x y sp [<- | []]. discriminate.
  - intros h [Hh | Hh];
      cbn [autoHideTimeout delayedStartTimeout set_delayedStartTimeout register
           with_dom] in Hh.
    + left. now left.
    + right. injection Hh as <-. eexists.
      split; [left; reflexivity |]. split; [reflexivity | discriminate].
Qed.

Lemma stop_evolves (s : State) : evolves (tracked s) None s (stop s).
Proof.
  unfold stop. cbv zeta.
  replace (delayedStartTimeout (clearTimeout (autoHideTimeout s) s))
    with (delayedStartTimeout s) by (now destruct (autoHideTimeout s)).
  do 4 (apply evolves_setTimeout; [discriminate |]).
  apply evolves_with_dom; [reflexivity |].
  apply evolves_cleared.
Qed.

(** The closures have the shape of a step. *)
Lemma evolves_lit (s : State) (f : Dom -> Dom) (sp : nat) :
  (forall d, nodes (f d) = show_at sp (nodes d)) ->
  evolves (fun _ => false) (Some sp) s (with_dom f s).
Proof.
  intros Hf. exists [], []. rewrite !app_nil_r, Nat.add_0_r.
  cbn [timers next_tid dom autoHideTimeout delayedStartTimeout with_dom].
  split; [symmetry; apply filter_true |].
  split; [reflexivity |]. split; [reflexivity |]. split; [apply Hf |].
  split; [intros x sp' [] |]. split; [intros x y sp' [] |].
  intros h Hh. now left.
Qed.

Lemma exec_evolves (sw : Dom -> Z) (a : action) (s : State) :
  evolves (gone_by a s) (lit_by a) s (state_of (exec sw a s)).
Proof.
  destruct a as [d | | d | | | sp | cb | | | |]; cbn [gone_by lit_by].
  - (* DelayedStart *)
    cbn [exec]. rewrite (setTimeout_register AutoHide). cbn [state_of].
    match goal with
    | |- evolves _ _ _ (set_autoHideTimeout _ (register ?m ?sx)) =>
        apply (evolves_then _ _ s sx _ m [])
    end.
    + do 2 (apply evolves_setTimeout; [discriminate |]).
      do 3 (apply evolves_with_dom; [reflexivity |]).
      apply evolves_refl.
    + reflexivity.
    + reflexivity.
    + cbn [dom set_autoHideTimeout register]. now rewrite app_nil_r.
    + reflexivity.
    + intros x sp [<- | []]. discriminate.
    + intros x y sp [<- | []]. discriminate.
    + intros h [Hh | Hh];
        cbn [autoHideTimeout delayedStartTimeout set_autoHideTimeout register]
          in Hh.
      * right. injection Hh as <-. eexists.
        split; [left; reflexivity |]. split; [reflexivity | discriminate].
      * left. now right.
  - (* Expand *)
    cbn [exec state_of]. do 2 (apply evolves_with_dom; [reflexivity |]).
    apply evolves_refl.
  - (* Reveal *)
    cbn [exec].
    pose proof (evolves_createTypewriter (fun _ => false) None s
                  (with_dom (set_tc_opacity (Some 1)) s) NowPlaying
                  (JStr "Now Playing:") 50 (CbArtist d)
                  (evolves_with_dom _ _ _ _ _ (fun _ => eq_refl)
                     (evolves_refl s))) as H.
    destruct (createTypewriter _ _ _ _ _) as [s1 | s1]; cbn [state_of] in *.
    + apply evolves_setTimeout; [discriminate |].
      apply evolves_with_dom; [reflexivity | exact H].
    + exact H.
  - (* ShimmerOff *)
    cbn [exec state_of]. apply evolves_with_dom; [reflexivity |].
    apply evolves_refl.
  - (* AutoHide *)
    apply stop_evolves.
  - (* Tick *)
    rewrite (exec_effect sw (Tick sp) _ s eq_refl). cbn [state_of].
    apply evolves_lit. intros d. apply tick_effect_frame.
  - (* TypeDone *)
    destruct cb as [d | d |]; cbn [exec run_callback].
    + apply evolves_createTypewriter, evolves_refl.
    + apply evolves_createTypewriter, evolves_refl.
    + apply evolves_refl.
  - cbn [exec state_of]. do 2 (apply evolves_with_dom; [reflexivity |]).
    apply evolves_refl.
  - cbn [exec state_of]. apply evolves_with_dom; [reflexivity |].
    apply evolves_refl.
  - cbn [exec state_of]. apply evolves_with_dom; [reflexivity |].
    apply evolves_refl.
  - cbn [exec state_of]. apply evolves_with_dom; [reflexivity |].
    apply evolves_refl.
Qed.

(** One turn of the event loop has the shape of a step: the timer fired
    leaves the registry along with those its closure clears. *)
Lemma fire_evolves (sw : Dom -> Z) (tm : timer) (s : State) :
  evolves (fun x => Nat.eqb (tid x) (tid tm) || gone_by (act tm) s x)
          (lit_by (act tm)) s (fire sw tm s).
Proof.
  unfold fire.
  set (s1 := set_clock _ (clearTimeout (Some (tid tm)) s)).
  pose proof (exec_evolves sw (act tm) s1) as H.
  assert (Hg : gone_by (act tm) s1 = gone_by (act tm) s)
    by (destruct (act tm); reflexivity).
  rewrite Hg in H.
  assert (Hfire : evolves (gone_by (act tm) s) (lit_by (act tm)) s1
                    match exec sw (act tm) s1 with
                    | Returned s' => s'
                    | Threw s' => report_exception s'
                    end).
  { destruct (exec sw (act tm) s1); cbn [state_of] in H;
      [exact H | now apply evolves_report]. }
  destruct Hfire as (new & extra & Ht & Hrest).
  exists new, extra. split; [| exact Hrest].
  rewrite Ht. f_equal. unfold s1. cbn [timers set_clock clearTimeout set_timers].
  rewrite filter_twice. apply filter_ext. intros x. now rewrite negb_orb.
Qed.

(** Every state the script reaches is well formed. *)
Lemma wf_page_load : wf page_load.
Proof.
  unfold wf, page_load. cbn [timers autoHideTimeout delayedStartTimeout map].
  split; [constructor |]. split; [intros x [] |].
  split; [intros h [H | H]; discriminate |].
  split; [intros x sp [] | intros x y sp []].
Qed.

Lemma wf_play (arg : option request) (s : State) : wf s -> wf (play arg s).
Proof. intros H. eapply evolves_wf; [exact H | apply play_evolves]. Qed.

Lemma wf_stop (s : State) : wf s -> wf (stop s).
Proof. intros H. eapply evolves_wf; [exact H | apply stop_evolves]. Qed.

Lemma wf_fire (sw : Dom -> Z) (tm : timer) (s : State) :
  wf s -> wf (fire sw tm s).
Proof. intros H. eapply evolves_wf; [exact H | apply fire_evolves]. Qed.

Lemma wf_set_clock (c : Z) (s : State) : wf s -> wf (set_clock c s).
Proof. intros H. exact H. Qed.


(** ** A registered reveal always runs, and runs on time *)

Lemma evolves_node (gone : timer -> bool) (lit : option nat) (s s' : State)
    (j : nat) (nd : span) :
  evolves gone lit s s' ->
  nth_error (nodes (dom s)) j = Some nd ->
  nth_error (nodes (dom s')) j
  = Some match lit with
         | Some sp =>
             if Nat.eqb j sp then {| html := html nd; shown := true |} else nd
         | None => nd
         end.
Proof.
  intros (new & extra & _ & _ & _ & Hn & _) Hj.
  assert (Hlt : (j < List.length (nodes (dom s)))%nat)
    by (apply nth_error_Some; congruence).
  rewrite Hn. destruct lit as [sp |].
  - rewrite nth_error_app1 by (rewrite length_show_at; exact Hlt).
    rewrite nth_error_show_at, Hj. now destruct (Nat.eqb j sp).
  - now rewrite nth_error_app1.
Qed.

Lemma evolves_keeps (gone : timer -> bool) (lit : option nat) (s s' : State)
    (y : timer) :
  evolves gone lit s s' ->
  In y (timers s) -> gone y = false -> In y (timers s').
Proof.
  intros (new & extra & Ht & _) Hy Hg. rewrite Ht.
  apply in_or_app. left. apply filter_In. now rewrite Hg.
Qed.

Lemma wf_not_tracked (s : State) (tm : timer) (sp : nat) :
  wf s -> In tm (timers s) -> act tm = Tick sp -> tracked s tm = false.
Proof.
  intros (_ & _ & Hh & _) Htm E. apply not_true_is_false. intros Ht.
  unfold tracked in Ht. apply orb_true_iff in Ht.
  destruct Ht as [Ht | Ht].
  - destruct (autoHideTimeout s) as [a |] eqn:Ea; [| discriminate].
    apply Nat.eqb_eq in Ht.
    destruct (Hh a (or_introl eq_refl)) as (_ & Hno). now apply (Hno tm sp).
  - destruct (delayedStartTimeout s) as [d |] eqn:Ed; [| discriminate].
    apply Nat.eqb_eq in Ht.
    destruct (Hh d (or_intror eq_refl)) as (_ & Hno). now apply (Hno tm sp).
Qed.

Lemma wf_same_tid (s : State) (x y : timer) :
  wf s -> In x (timers s) -> In y (timers s) -> tid x = tid y -> x = y.
Proof.
  intros (Hnd & _) Hx Hy E.
  induction (timers s) as [| z l IH]; [destruct Hx |].
  cbn in Hnd. apply NoDup_cons_iff in Hnd. destruct Hnd as [Hz Hl].
  destruct Hx as [-> | Hx], Hy as [-> | Hy]; try reflexivity.
  - elim Hz. rewrite E. now apply in_map.
  - elim Hz. rewrite <- E. now apply in_map.
  - now apply IH.
Qed.

(** A command leaves a pending reveal pending. *)
Lemma pending_command (c : command) (tm : timer) (sp : nat) (g : glyph)
    (T : Z) (s : State) :
  wf s -> act tm = Tick sp ->
  pending_reveal tm sp g T s -> pending_reveal tm sp g T (run_command c s).
Proof.
  intros Hwf E (b & Hnode & Hpend & Hdone).
  assert (Hev : evolves (tracked s) None s (run_command c s))
    by (destruct c; [apply play_evolves | apply play_evolves | apply stop_evolves]).
  exists b. split; [apply (evolves_node _ _ _ _ _ _ Hev Hnode) |].
  split; [| exact Hdone].
  intros Hb. apply (evolves_keeps _ _ _ _ _ Hev (Hpend Hb)).
  now apply (wf_not_tracked s tm sp Hwf (Hpend Hb)).
Qed.

(** A turn of the event loop either runs a pending reveal or leaves it
    pending. *)
Lemma pending_fire (sw : Dom -> Z) (x tm : timer) (sp : nat) (g : glyph)
    (T : Z) (s : State) :
  wf s -> act tm = Tick sp -> In x (timers s) -> due x <= T ->
  pending_reveal tm sp g T s -> pending_reveal tm sp g T (fire sw x s).
Proof.
  intros Hwf E Hx Hdue (b & Hnode & Hpend & Hdone).
  pose proof (fire_evolves sw x s) as Hev.
  pose proof (evolves_node _ _ _ _ _ _ Hev Hnode) as Hnode'. cbn [html] in Hnode'.
  destruct b.
  - (* already opaque *)
    exists true. split; [| split; [discriminate | exact Hdone]].
    rewrite Hnode'. destruct (lit_by (act x)); [destruct (Nat.eqb sp n) |];
      reflexivity.
  - specialize (Hpend eq_refl).
    destruct (Nat.eq_dec (tid x) (tid tm)) as [Etid | Ntid].
    + (* the reveal itself runs *)
      assert (x = tm) as -> by (now apply (wf_same_tid s)).
      exists true. rewrite Hnode', E. cbn [lit_by]. rewrite Nat.eqb_refl.
      split; [reflexivity |]. split; [discriminate | intros _; exact Hdue].
    + (* another closure runs *)
      exists false. split; [| split; [| discriminate]].
      * rewrite Hnode'. destruct (act x) as [| | | | | sp' | | | | |] eqn:Ex;
          cbn [lit_by]; try reflexivity.
        destruct (Nat.eqb_spec sp sp') as [<- | Hne]; [| reflexivity].
        destruct Hwf as (_ & _ & _ & _ & Huniq).
        elim Ntid. now rewrite (Huniq x tm sp Hx Hpend Ex E).
      * intros _. apply (evolves_keeps _ _ _ _ _ Hev Hpend).
        apply orb_false_iff. split.
        -- apply Nat.eqb_neq. congruence.
        -- destruct (act x); cbn [gone_by]; try reflexivity.
           now apply (wf_not_tracked s tm sp Hwf Hpend).
Qed.

Lemma due_by_In (T : Z) (s : State) (x : timer) :
  due_by T s = Some x -> In x (timers s) /\ due x <= T.
Proof.
  unfold due_by. destruct (next_timer (timers s)) as [m |] eqn:Hn; [| discriminate].
  destruct (Z.leb_spec (due m) T) as [Hle | Hgt]; [| discriminate].
  intros Hm. injection Hm as <-. split; [now apply next_timer_In | exact Hle].
Qed.

Lemma pending_advance (sw : Dom -> Z) (tm : timer) (sp : nat) (g : glyph)
    (T t : Z) (fuel : nat) :
  act tm = Tick sp -> t <= T ->
  forall s s',
    wf s -> pending_reveal tm sp g T s ->
    advance sw fuel t s = Some s' ->
    wf s' /\ pending_reveal tm sp g T s'.
Proof.
  intros E Ht. induction fuel as [| f IH]; intros s s' Hwf Hp H;
    cbn [advance] in H; destruct (due_by t s) as [x |] eqn:Hd;
    try discriminate.
  - injection H as <-. split; assumption.
  - destruct (due_by_In _ _ _ Hd) as (Hx & Hdue).
    apply (IH (fire sw x s)); [now apply wf_fire | | exact H].
    apply pending_fire; try assumption. lia.
  - injection H as <-. split; assumption.
Qed.

Lemma pending_session (sw : Dom -> Z) (tm : timer) (sp : nat) (g : glyph)
    (T : Z) (fuel : nat) (script : list (Z * command)) :
  act tm = Tick sp ->
  (forall t c, In (t, c) script -> t <= T) ->
  forall s s',
    wf s -> pending_reveal tm sp g T s ->
    session sw fuel script T s = Some s' ->
    wf s' /\ pending_reveal tm sp g T s'
    /\ forall x, In x (timers s') -> T < due x.
Proof.
  intros E. induction script as [| [t c] rest IH]; intros Hts s s' Hwf Hp H;
    cbn [session] in H.
  - destruct (pending_advance sw tm sp g T T fuel E ltac:(lia) s s' Hwf Hp H)
      as (Hwf' & Hp').
    split; [exact Hwf' |]. split; [exact Hp' |].
    now apply (advance_leaves_none_due sw fuel T s s').
  - destruct (advance sw fuel t s) as [s1 |] eqn:Hadv; [| discriminate].
    destruct (pending_advance sw tm sp g T t fuel E
                (Hts t c (or_introl eq_refl)) s s1 Hwf Hp Hadv) as (Hwf1 & Hp1).
    apply (IH (fun t' c' Hin => Hts t' c' (or_intror Hin))
              (run_command c s1) s'); [| | exact H].
    + destruct c; [apply wf_play | apply wf_play | apply wf_stop]; exact Hwf1.
    + now apply pending_command.
Qed.

(** Whatever commands arrive and whenever, a reveal closure that is
    registered runs, and runs when it is due: at the end of a session that
    is read at time [T], its span is opaque exactly when the closure was
    due by [T]. Neither [play] nor [update] nor [stop] cancels it. *)
Lemma reveal_runs_on_time (sw : Dom -> Z) (fuel : nat)
    (script : list (Z * command)) (T : Z) (s s' : State) (tm : timer)
    (sp : nat) (g : glyph) :
  wf s -> In tm (timers s) -> act tm = Tick sp ->
  nth_error (nodes (dom s)) sp = Some {| html := g; shown := false |} ->
  (forall t c, In (t, c) script -> t <= T) ->
  session sw fuel script T s = Some s' ->
  nth_error (nodes (dom s')) sp
  = Some {| html := g; shown := (due tm <=? T) |}.
Proof.
  intros Hwf Htm E Hnode Hts Hrun.
  assert (Hp : pending_reveal tm sp g T s).
  { exists false. split; [exact Hnode |]. split; [intros _; exact Htm | discriminate]. }
  destruct (pending_session sw tm sp g T fuel script E Hts s s' Hwf Hp Hrun)
    as (_ & (b & Hnode' & Hpend & Hdone) & Hlate).
  rewrite Hnode'. destruct b.
  - replace (due tm <=? T) with true
      by (symmetry; apply Z.leb_le; now apply Hdone).
    reflexivity.
  - replace (due tm <=? T) with false
      by (symmetry; apply Z.leb_gt; apply Hlate; now apply Hpend).
    reflexivity.
Qed.

(** ** The event loop always catches up *)

Lemma backlog_register (l : list timer) (s : State) :
  backlog (register l s)
  = (backlog s + list_sum (map (fun tm => weight (act tm)) l))%nat.
Proof. unfold backlog, register. cbn [timers]. now rewrite map_app, list_sum_app. Qed.

Lemma backlog_setTimeout (a : action) (d : Q) (s : State) :
  backlog (snd (setTimeout a d s)) = (backlog s + weight a)%nat.
Proof.
  rewrite setTimeout_register. cbn [snd]. rewrite backlog_register.
  cbn [map list_sum fold_right act]. lia.
Qed.

Lemma list_sum_filter_le (w : timer -> nat) (f : timer -> bool) (l : list timer) :
  (list_sum (map w (filter f l)) <= list_sum (map w l))%nat.
Proof.
  unfold list_sum.
  induction l as [| x l IH]; cbn [filter map fold_right]; [lia |].
  destruct (f x); cbn [map fold_right]; lia.
Qed.

Lemma backlog_clearTimeout (h : option nat) (s : State) :
  (backlog (clearTimeout h s) <= backlog s)%nat.
Proof.
  destruct h as [id |]; [| reflexivity].
  unfold backlog. cbn [clearTimeout timers set_timers]. apply list_sum_filter_le.
Qed.

(** The timer that fires leaves the registry. *)
Lemma backlog_remove (x : timer) (s : State) :
  In x (timers s) ->
  (backlog (clearTimeout (Some (tid x)) s) + weight (act x) <= backlog s)%nat.
Proof.
  unfold backlog. cbn [clearTimeout timers set_timers].
  induction (timers s) as [| y l IH]; intros Hx; [destruct Hx |].
  cbn [filter map list_sum fold_right].
  destruct Hx as [-> | Hx].
  - rewrite Nat.eqb_refl. cbn [negb].
    pose proof (list_sum_filter_le (fun tm => weight (act tm))
                  (fun tm => negb (Nat.eqb (tid tm) (tid x))) l) as Hle.
    unfold list_sum in *. lia.
  - specialize (IH Hx).
    destruct (negb (Nat.eqb (tid y) (tid x)));
      cbn [map list_sum fold_right]; unfold list_sum in *; lia.
Qed.

Lemma backlog_ticks (h first : nat) (now : Z) (speed : Q) (n : nat) :
  list_sum (map (fun tm => weight (act tm)) (tick_timers h first now speed n)) = n.
Proof.
  unfold tick_timers, list_sum. rewrite map_map.
  enough (forall a,
             fold_right Nat.add 0%nat
               (map (fun i => weight (act (tick_timer h first now speed i)))
                  (seq a n)) = n) as H by apply H.
  induction n as [| n IH]; intros a; [reflexivity |].
  cbn [seq map fold_right]. rewrite IH. reflexivity.
Qed.

Lemma backlog_createTypewriter (el : field) (text : jsval) (baseSpeed : Q)
    (cb : callback) (s : State) :
  (backlog (state_of (createTypewriter el text baseSpeed (Some cb) s))
   <= backlog s + typed_length text + weight (TypeDone cb))%nat.
Proof.
  unbox text.
  destruct text as [| | b | n | | str | | str]; try discriminate;
    try (cbn [createTypewriter state_of typed_length];
         change (backlog (with_dom _ s)) with (backlog s); lia).
  rewrite createTypewriter_string. cbn [state_of typed_length].
  rewrite backlog_register, map_app, list_sum_app, backlog_ticks.
  change (backlog (with_dom _ s)) with (backlog s).
  cbn [map list_sum fold_right act]. lia.
Qed.

Lemma backlog_stop (s : State) : (backlog (stop s) <= backlog s + 4)%nat.
Proof.
  rewrite stop_eq, backlog_register.
  change (backlog (with_dom _ ?x)) with (backlog x).
  pose proof (backlog_clearTimeout (autoHideTimeout s) s) as H1.
  pose proof (backlog_clearTimeout (delayedStartTimeout s)
                (clearTimeout (autoHideTimeout s) s)) as H2.
  cbn [exit_timers map list_sum fold_right act weight].
  change (backlog (with_dom (set_tc_opacity (Some 0))
                     (clearTimeout (delayedStartTimeout s)
                        (clearTimeout (autoHideTimeout s) s))))
    with (backlog (clearTimeout (delayedStartTimeout s)
                     (clearTimeout (autoHideTimeout s) s))).
  lia.
Qed.

Lemma backlog_play (arg : option request) (s : State) :
  (backlog (play arg s) <= backlog s + weight (DelayedStart (data_of arg)))%nat.
Proof.
  rewrite play_eq.
  change (backlog (set_delayedStartTimeout ?h ?x)) with (backlog x).
  rewrite backlog_register.
  pose proof (backlog_clearTimeout (autoHideTimeout s) s) as H1.
  pose proof (backlog_clearTimeout (delayedStartTimeout s)
                (clearTimeout (autoHideTimeout s) s)) as H2.
  change (backlog (with_dom play_reset
                     (clearTimeout (delayedStartTimeout s)
                        (clearTimeout (autoHideTimeout s) s))))
    with (backlog (clearTimeout (delayedStartTimeout s)
                     (clearTimeout (autoHideTimeout s) s))).
  cbn [map list_sum fold_right act]. lia.
Qed.

(** A closure registers less than its own weight. *)
Lemma backlog_exec (sw : Dom -> Z) (a : action) (s : State) :
  (backlog (state_of (exec sw a s)) + 1 <= backlog s + weight a)%nat.
Proof.
  destruct a as [d | | d | | | sp | cb | | | |];
    try (cbn [exec state_of weight];
         repeat change (backlog (with_dom ?f ?x)) with (backlog x); lia).
  - (* DelayedStart *)
    cbn [exec]. rewrite (setTimeout_register AutoHide). cbn [state_of].
    change (backlog (set_autoHideTimeout ?h ?x)) with (backlog x).
    rewrite backlog_register, !backlog_setTimeout.
    repeat change (backlog (with_dom ?f ?x)) with (backlog x).
    cbn [map list_sum fold_right act]. unfold weight. lia.
  - (* Reveal *)
    cbn [exec].
    pose proof (backlog_createTypewriter NowPlaying (JStr "Now Playing:") 50
                  (CbArtist d) (with_dom (set_tc_opacity (Some 1)) s)) as H.
    change (backlog (with_dom (set_tc_opacity (Some 1)) s)) with (backlog s) in H.
    destruct (createTypewriter _ _ _ _ _) as [s1 | s1]; cbn [state_of] in *.
    + rewrite backlog_setTimeout.
      change (backlog (with_dom (set_logo_shimmer true) s1)) with (backlog s1).
      cbn [typed_length String.length] in H. unfold weight in *. lia.
    + cbn [typed_length String.length] in H. unfold weight in *. lia.
  - (* AutoHide *)
    cbn [exec state_of weight]. pose proof (backlog_stop s). lia.
  - (* Tick *)
    rewrite (exec_effect sw (Tick sp) _ s eq_refl). cbn [state_of weight].
    change (backlog (with_dom _ s)) with (backlog s). lia.
  - (* TypeDone *)
    destruct cb as [d | d |]; cbn [exec run_callback].
    + pose proof (backlog_createTypewriter Artist
                    (js_or (artist d) "Artist Name") 50 (CbSong d) s) as H.
      unfold weight in *. lia.
    + pose proof (backlog_createTypewriter Song
                    (js_or (song d) "Song Title") 50 CbDone s) as H.
      unfold weight in *. lia.
    + cbn [state_of weight]. lia.
Qed.

Lemma backlog_fire (sw : Dom -> Z) (x : timer) (s : State) :
  In x (timers s) -> (backlog (fire sw x s) < backlog s)%nat.
Proof.
  intros Hx. unfold fire.
  pose proof (backlog_remove x s Hx) as Hrem.
  set (s1 := set_clock _ (clearTimeout (Some (tid x)) s)).
  change (backlog (clearTimeout (Some (tid x)) s)) with (backlog s1) in Hrem.
  pose proof (backlog_exec sw (act x) s1) as Hexec.
  destruct (exec sw (act x) s1) as [s' | s']; cbn [state_of] in Hexec;
    [| change (backlog (report_exception s')) with (backlog s')]; lia.
Qed.

(** With the backlog as fuel the event loop returns. *)
Lemma advance_returns (sw : Dom -> Z) (T : Z) (fuel : nat) :
  forall s, (backlog s <= fuel)%nat ->
            exists s', advance sw fuel T s = Some s'
                       /\ (backlog s' <= backlog s)%nat.
Proof.
  induction fuel as [| f IH]; intros s Hb; cbn [advance];
    destruct (due_by T s) as [x |] eqn:Hd.
  - destruct (due_by_In _ _ _ Hd) as (Hx & _).
    pose proof (backlog_fire sw x s Hx). lia.
  - eexists. split; [reflexivity |]. reflexivity.
  - destruct (due_by_In _ _ _ Hd) as (Hx & _).
    pose proof (backlog_fire sw x s Hx) as Hlt.
    destruct (IH (fire sw x s) ltac:(lia)) as (s' & Hs' & Hle).
    exists s'. split; [exact Hs' | lia].
  - eexists. split; [reflexivity |]. reflexivity.
Qed.

Lemma backlog_command (c : command) (s : State) :
  (backlog (run_command c s) <= backlog s + command_weight c)%nat.
Proof.
  destruct c; cbn [run_command command_weight]; unfold update;
    [apply backlog_play | apply backlog_play | apply backlog_stop].
Qed.

(** A session returns when the fuel covers what is pending at its start
    and what its commands bring. *)
Lemma session_returns (sw : Dom -> Z) (T : Z) (fuel : nat)
    (script : list (Z * command)) :
  forall s,
    (backlog s + list_sum (map (fun tc => command_weight (snd tc)) script)
     <= fuel)%nat ->
    exists s', session sw fuel script T s = Some s'.
Proof.
  induction script as [| [t c] rest IH]; intros s Hb;
    cbn [session map list_sum fold_right snd] in *.
  - destruct (advance_returns sw T fuel s ltac:(lia)) as (s' & Hs' & _).
    now exists s'.
  - destruct (advance_returns sw t fuel s ltac:(unfold list_sum in *; lia))
      as (s1 & Hs1 & Hle).
    rewrite Hs1. apply IH.
    pose proof (backlog_command c s1). unfold list_sum in *. lia.
Qed.

(** ** A reveal pass on the event loop *)

Lemma apply_ticks_frame (sw : Dom -> Z) (h first : nat) (now rate : Z)
    (ids : list nat) :
  forall d,
    nodes (apply_effects sw (map (ms_tick h first now rate) ids) d)
    = show_all (map (fun i => first + i)%nat ids) (nodes d)
    /\ (forall el,
          children el (apply_effects sw (map (ms_tick h first now rate) ids) d)
          = children el d).
Proof.
  induction ids as [| i ids IH]; intros d; cbn [map apply_effects];
    [split; reflexivity |].
  cbn [ms_tick act effect].
  destruct (IH (tick_effect sw (first + i) d)) as (Hn & Hc).
  destruct (tick_effect_frame sw (first + i) d) as (Hn1 & Hc1).
  split.
  - rewrite Hn, Hn1. reflexivity.
  - intros el. now rewrite Hc, Hc1.
Qed.

(** After the reveals of the first [k] spans of a line, a span of the
    line is opaque exactly when it is one of those. *)
Lemma nth_error_show_prefix (first k j : nat) (l : list span) :
  nth_error (show_all (map (fun i => first + i)%nat (seq 0 k)) l) (first + j)
  = if (j <? k)%nat
    then option_map (fun sp => {| html := html sp; shown := true |})
                    (nth_error l (first + j))
    else nth_error l (first + j).
Proof.
  induction k as [| k IH].
  - reflexivity.
  - rewrite seq_S, map_app. unfold show_all in *. rewrite fold_left_app.
    cbn [map fold_left Nat.add]. rewrite nth_error_show_at, IH.
    destruct (Nat.eqb_spec (first + j) (first + k)) as [E | E].
    + assert (j = k) as -> by lia.
      rewrite Nat.ltb_irrefl.
      replace (k <? S k)%nat with true by (symmetry; apply Nat.ltb_lt; lia).
      reflexivity.
    + destruct (Nat.ltb_spec j k), (Nat.ltb_spec j (S k)); try lia; reflexivity.
Qed.

(** The reveals due by [T] are the first [k] of the pass, for some [k]. *)
Lemma due_prefix (n : nat) (now rate T : Z) :
  0 <= rate ->
  exists k, (k <= n)%nat
            /\ (forall i, (i < k)%nat -> now + Z.of_nat i * rate <= T)
            /\ (forall i, (k <= i < n)%nat -> T < now + Z.of_nat i * rate).
Proof.
  intros Hr. induction n as [| n (k & Hk & Hlo & Hhi)].
  - exists 0%nat. repeat split; intros; lia.
  - destruct (Nat.eq_dec k n) as [-> | Hne].
    + destruct (Z_le_gt_dec (now + Z.of_nat n * rate) T) as [Hle | Hgt].
      * exists (S n). repeat split; try lia.
        intros i Hi. destruct (Nat.eq_dec i n) as [-> | ?]; [exact Hle |].
        apply Hlo. lia.
      * exists n. repeat split; try lia; [exact Hlo |].
        intros i Hi. assert (i = n) as -> by lia. lia.
    + exists k. repeat split; try lia; [exact Hlo |].
      intros i Hi. destruct (Nat.eq_dec i n) as [-> | ?]; [| apply Hhi; lia].
      pose proof (Hhi k ltac:(lia)). nia.
Qed.

Lemma ms_ticks_sorted (h first : nat) (now rate : Z) (k : nat) :
  0 <= rate ->
  forall start,
    StronglySorted fires_before (map (ms_tick h first now rate) (seq start k)).
Proof.
  intros Hr. induction k as [| k IH]; intros start; cbn [seq map];
    constructor; [apply IH |].
  apply Forall_forall. intros x Hx. apply in_map_iff in Hx.
  destruct Hx as (j & <- & Hj). apply in_seq in Hj.
  unfold fires_before, ms_tick. cbn [due tid].
  destruct (Z.eq_dec rate 0) as [-> | ?]; [right; split; lia |].
  left. nia.
Qed.

(** The reveals of a pass on the event loop. With nothing else pending
    when the typewriter is called, at every time [T] before the callback
    is due the span of character [i] is opaque exactly when
    [i * rate] ms have passed since the call. *)
Lemma typewriter_run (sw : Dom -> Z) (el : field) (str : string) (base : Z)
    (cb : callback) (s : State) (T : Z) :
  0 <= base -> Z.even base = true -> timers s = [] ->
  let n := String.length str in
  let rate := if (100 <? n)%nat then base / 2 else base in
  let first := List.length (nodes (dom s)) in
  clock s <= T < clock s + Z.of_nat n * rate + 500 ->
  exists s0 s',
    createTypewriter el (JStr str) (inject_Z base) (Some cb) s = Returned s0
    /\ advance sw n T s0 = Some s'
    /\ clock s' = T
    /\ children el (dom s') = seq first n
    /\ (forall i c,
          nth_error (list_ascii_of_string str) i = Some c ->
          nth_error (nodes (dom s')) (first + i)
          = Some {| html := html (span_of c);
                    shown := (clock s + Z.of_nat i * rate <=? T) |})
    /\ In {| tid := next_tid s + n; due := clock s + Z.of_nat n * rate + 500;
             act := TypeDone cb |} (timers s')
    /\ (forall x, In x (timers s') -> In x (timers s0) /\ T < due x).
Proof.
  intros Hbase Hev Hq n rate first HT.
  assert (Hrate : 0 <= rate).
  { unfold rate. destruct (100 <? n)%nat; [apply Z.div_pos; lia | exact Hbase]. }
  destruct (typewriter_registers el str base cb s Hbase Hev)
    as (s0 & Hs0 & Hc0 & _ & Ht0 & _).
  fold n rate first in Ht0. rewrite Hq in Ht0. cbn [app] in Ht0.
  change (fun i => {| tid := next_tid s + i; due := clock s + Z.of_nat i * rate;
                      act := Tick (first + i) |})
    with (ms_tick (next_tid s) first (clock s) rate) in Ht0.
  set (cbt := {| tid := next_tid s + n; due := clock s + Z.of_nat n * rate + 500;
                 act := TypeDone cb |}) in *.
  assert (Hd0 : dom s0 = append_all el (spans_of str) (set_children el [] (dom s))).
  { rewrite createTypewriter_string in Hs0. injection Hs0 as <-. reflexivity. }
  destruct (due_prefix n (clock s) rate T Hrate) as (k & Hk & Hlo & Hhi).
  set (order := map (ms_tick (next_tid s) first (clock s) rate) (seq 0 k)).
  assert (Hsplit : seq 0 n = seq 0 k ++ seq k (n - k)).
  { rewrite <- seq_app. f_equal. lia. }
  assert (Hok : forall tm, In tm order -> effect sw (act tm) <> None).
  { intros tm Htm. apply in_map_iff in Htm. destruct Htm as (i & <- & _).
    discriminate. }
  assert (Hrun : advance sw n T s0
                 = Some (set_clock (Z.max (clock (fire_all sw order s0)) T)
                                   (fire_all sw order s0))).
  { apply advance_in_order.
    - unfold order. rewrite length_map, length_seq. exact Hk.
    - rewrite Ht0, map_app, map_map. cbn [map tid ms_tick].
      replace (map (fun i => (next_tid s + i)%nat) (seq 0 n) ++ [tid cbt])
        with (map (fun i => (next_tid s + i)%nat) (seq 0 (S n)))
        by (rewrite seq_S, map_app; reflexivity).
      apply Injective_map_NoDup; [intros x y; lia | apply seq_NoDup].
    - apply ms_ticks_sorted. exact Hrate.
    - intros tm Htm. split; [| split; [| now apply Hok]].
      + rewrite Ht0, Hsplit, map_app. apply in_or_app. left. apply in_or_app.
        now left.
      + apply in_map_iff in Htm. destruct Htm as (i & <- & Hi).
        apply in_seq in Hi. cbn [due ms_tick]. apply Hlo. lia.
    - intros x Hx. rewrite Ht0, Hsplit, map_app, <- app_assoc in Hx.
      apply in_app_or in Hx. destruct Hx as [Hx | Hx]; [now left | right].
      apply in_app_or in Hx. destruct Hx as [Hx | [<- | []]].
      + apply in_map_iff in Hx. destruct Hx as (i & <- & Hi).
        apply in_seq in Hi. cbn [due ms_tick]. apply Hhi. lia.
      + cbn [due cbt]. lia. }
  destruct (fire_all_dom sw order s0 Hok) as (Hdom & Hclock).
  destruct (fire_all_frame sw order s0 Hok) as (_ & _ & _ & _ & Hsub).
  destruct (apply_ticks_frame sw (next_tid s) first (clock s) rate (seq 0 k)
              (dom s0)) as (Hnodes & Hchildren).
  fold order in Hnodes, Hchildren.
  exists s0, (set_clock (Z.max (clock (fire_all sw order s0)) T)
                        (fire_all sw order s0)).
  split; [exact Hs0 |]. split; [exact Hrun |].
  cbn [clock dom timers set_clock].
  split.
  { rewrite Hclock, Hc0. clear -Hlo HT.
    assert (Hmax : forall l c, c <= T -> (forall x, In x l -> x <= T) ->
                               Z.max (fold_left Z.max l c) T = T).
    { induction l as [| x l IH]; intros c Hc Hl; cbn [fold_left]; [lia |].
      apply IH; [| intros y Hy; apply Hl; now right].
      pose proof (Hl x (or_introl eq_refl)). lia. }
    apply Hmax; [lia |]. intros x Hx. unfold order in Hx. rewrite map_map in Hx.
    apply in_map_iff in Hx. destruct Hx as (i & <- & Hi). apply in_seq in Hi.
    cbn [due ms_tick]. apply Hlo. lia. }
  rewrite Hdom. split.
  { rewrite Hchildren, Hd0.
    replace (children el (append_all el (spans_of str) (set_children el [] (dom s))))
      with (seq first (List.length (spans_of str)))
      by (destruct el; reflexivity).
    unfold spans_of. now rewrite length_map, length_list_ascii_of_string. }
  split.
  { intros i c Hc. rewrite Hnodes, nth_error_show_prefix.
    assert (Hi : (i < n)%nat).
    { pose proof (proj1 (nth_error_Some (list_ascii_of_string str) i)) as Hlen.
      rewrite Hc, length_list_ascii_of_string in Hlen.
      apply Hlen. discriminate. }
    assert (Hnode : nth_error (nodes (dom s0)) (first + i) = Some (span_of c)).
    { rewrite Hd0.
      replace (nodes (append_all el (spans_of str) (set_children el [] (dom s))))
        with (nodes (dom s) ++ spans_of str) by (destruct el; reflexivity).
      rewrite nth_error_app2 by (unfold first; lia).
      replace (first + i - List.length (nodes (dom s)))%nat with i
        by (unfold first; lia).
      unfold spans_of. now rewrite nth_error_map, Hc. }
    rewrite Hnode.
    destruct (Nat.ltb_spec i k) as [Hik | Hik].
    - replace (clock s + Z.of_nat i * rate <=? T) with true
        by (symmetry; apply Z.leb_le; now apply Hlo).
      reflexivity.
    - replace (clock s + Z.of_nat i * rate <=? T) with false
        by (symmetry; apply Z.leb_gt; apply Hhi; lia).
      unfold span_of. reflexivity. }
  pose proof (advance_leaves_none_due sw n T s0 _ Hrun) as Hlate.
  cbn [timers set_clock] in Hlate.
  split; [| intros x Hx; split; [now apply Hsub | now apply Hlate]].
  assert (Hin : In cbt (timers s0)).
  { rewrite Ht0. apply in_or_app. right. now left. }
  clear -Hin Hok HT Ht0 Hk Hlo.
  unfold order in *.
  assert (Hkeep : forall l st,
             (forall tm, In tm l -> effect sw (act tm) <> None) ->
             (forall tm, In tm l -> tid tm <> tid cbt) ->
             In cbt (timers st) -> In cbt (timers (fire_all sw l st))).
  { induction l as [| tm l IH]; intros st Hl Hne Hst; cbn [fire_all fold_left];
      [exact Hst |].
    apply IH; try (intros x Hx; (apply Hl || apply Hne); now right).
    rewrite fire_effect_timers by (apply Hl; now left).
    apply filter_In. split; [exact Hst |].
    apply negb_true_iff, Nat.eqb_neq. intros E.
    apply (Hne tm (or_introl eq_refl)). now symmetry. }
  apply Hkeep; [exact Hok | | exact Hin].
  intros tm Htm. apply in_map_iff in Htm. destruct Htm as (i & <- & Hi).
  apply in_seq in Hi. cbn [tid ms_tick cbt]. lia.
Qed.

(** The reveals of a pass in any session. Whatever is pending when the
    typewriter is called and whatever commands arrive afterwards, the
    session returns and the span of character [i] is opaque at time [T]
    exactly when [i * rate] ms have passed since the call. *)
Lemma typewriter_session (sw : Dom -> Z) (el : field) (str : string)
    (base : Z) (cb : callback) (s : State) (script : list (Z * command))
    (T : Z) (fuel : nat) :
  0 <= base -> Z.even base = true -> wf s ->
  let n := String.length str in
  let rate := if (100 <? n)%nat then base / 2 else base in
  let first := List.length (nodes (dom s)) in
  (forall t c, In (t, c) script -> t <= T) ->
  (backlog s + n + weight (TypeDone cb)
   + list_sum (map (fun tc => command_weight (snd tc)) script) <= fuel)%nat ->
  exists s0 s',
    createTypewriter el (JStr str) (inject_Z base) (Some cb) s = Returned s0
    /\ session sw fuel script T s0 = Some s'
    /\ forall i c,
         nth_error (list_ascii_of_string str) i = Some c ->
         nth_error (nodes (dom s')) (first + i)
         = Some {| html := html (span_of c);
                   shown := (clock s + Z.of_nat i * rate <=? T) |}.
Proof.
  intros Hbase Hev Hwf n rate first Hts Hfuel.
  destruct (typewriter_registers el str base cb s Hbase Hev)
    as (s0 & Hs0 & _ & _ & Ht0 & _).
  fold n rate first in Ht0.
  assert (Hwf0 : wf s0).
  { pose proof (evolves_createTypewriter _ _ s s el (JStr str) (inject_Z base)
                  cb (evolves_refl s)) as Hev0.
    rewrite Hs0 in Hev0. exact (evolves_wf _ _ _ _ Hwf Hev0). }
  assert (Hb0 : (backlog s0 <= backlog s + n + weight (TypeDone cb))%nat).
  { pose proof (backlog_createTypewriter el (JStr str) (inject_Z base) cb s) as H.
    rewrite Hs0 in H. exact H. }
  assert (Hnodes : nodes (dom s0) = nodes (dom s) ++ spans_of str).
  { rewrite createTypewriter_string in Hs0. injection Hs0 as <-.
    cbn [register dom with_dom]. destruct el; reflexivity. }
  destruct (session_returns sw T fuel script s0 ltac:(lia)) as (s' & Hs').
  exists s0, s'. split; [exact Hs0 |]. split; [exact Hs' |].
  intros i c Hc.
  assert (Hi : (i < n)%nat).
  { unfold n. rewrite <- length_list_ascii_of_string.
    apply nth_error_Some. now rewrite Hc. }
  apply (reveal_runs_on_time sw fuel script T s0 s'
           {| tid := next_tid s + i; due := clock s + Z.of_nat i * rate;
              act := Tick (first + i) |} (first + i) (html (span_of c)));
    try assumption.
  - rewrite Ht0. apply in_or_app. right. apply in_or_app. left.
    apply in_map_iff. exists i. split; [reflexivity |]. apply in_seq. lia.
  - reflexivity.
  - rewrite Hnodes. unfold first.
    rewrite nth_error_app2 by lia.
    replace (List.length (nodes (dom s)) + i - List.length (nodes (dom s)))%nat
      with i by lia.
    unfold spans_of. now rewrite (map_nth_error _ _ _ Hc).
Qed.

(** C7. For a string of length n given to the typewriter (base rate a
    whole, even number of milliseconds; the script passes 50): the call
    returns at once, the element holding one hidden span per character;
    the reveal of character i is registered for [i * rate] after the call
    and the completion callback for [n * rate + 500] after it; for the
    empty string the callback, 500 ms after the call, is the only timer
    registered. On the event loop, with nothing else pending at the call:
    at every time before the callback is due the span of character i is
    opaque exactly when [i * rate] ms have passed since the call, and the
    callback is the closure that fires [n * rate + 500] ms after the
    call. From any well-formed state, whatever else is pending and
    whatever commands arrive after the call, the session returns and the
    span of character i is opaque at time [T] exactly when [i * rate] ms
    have passed since the call. *)
Theorem typewriter_schedule (sw : Dom -> Z) (el : field) (str : string)
    (base : Z) (cb : callback) (s : State) :
  0 <= base -> Z.even base = true ->
  let n := String.length str in
  let rate := if (100 <? n)%nat then base / 2 else base in
  let first := List.length (nodes (dom s)) in
  let done := {| tid := next_tid s + n;
                 due := clock s + Z.of_nat n * rate + 500;
                 act := TypeDone cb |} in
  exists s0,
    createTypewriter el (JStr str) (inject_Z base) (Some cb) s = Returned s0
    /\ clock s0 = clock s
    /\ rendered el (dom s0) = spans_of str
    /\ timers s0
       = timers s ++ map (ms_tick (next_tid s) first (clock s) rate) (seq 0 n)
         ++ [done]
    /\ (exists e,
          createTypewriter el (JStr EmptyString) (inject_Z base) (Some cb) s
          = Returned e
          /\ rendered el (dom e) = []
          /\ timers e
             = timers s ++ [{| tid := next_tid s; due := clock s + 500;
                               act := TypeDone cb |}])
    /\ (timers s = [] ->
        (forall T, clock s <= T < due done ->
           exists s',
             advance sw n T s0 = Some s'
             /\ clock s' = T
             /\ children el (dom s') = seq first n
             /\ forall i c,
                  nth_error (list_ascii_of_string str) i = Some c ->
                  nth_error (nodes (dom s')) (first + i)
                  = Some {| html := html (span_of c);
                            shown := (clock s + Z.of_nat i * rate <=? T) |})
        /\ exists s',
             advance sw n (due done - 1) s0 = Some s'
             /\ due_by (due done) s' = Some done)
    /\ (wf s ->
        forall script T fuel,
          (forall t c, In (t, c) script -> t <= T) ->
          (backlog s + n + weight (TypeDone cb)
           + list_sum (map (fun tc => command_weight (snd tc)) script)
           <= fuel)%nat ->
          exists s',
            session sw fuel script T s0 = Some s'
            /\ forall i c,
                 nth_error (list_ascii_of_string str) i = Some c ->
                 nth_error (nodes (dom s')) (first + i)
                 = Some {| html := html (span_of c);
                           shown := (clock s + Z.of_nat i * rate <=? T) |}).
Proof.
  intros Hbase Hev n rate first done.
  assert (Hrate : 0 <= rate).
  { unfold rate. destruct (100 <? n)%nat; [apply Z.div_pos; lia | exact Hbase]. }
  destruct (typewriter_registers el str base cb s Hbase Hev)
    as (s0 & Hs0 & Hc0 & Hr0 & Ht0 & _).
  exists s0. repeat (split; [assumption |]).
  split.
  { destruct (typewriter_registers el EmptyString base cb s Hbase Hev)
      as (e & He & _ & Hre & _ & _ & Hte).
    exists e. split; [exact He |]. split; [exact Hre | now apply Hte]. }
  split.
  2: { intros Hwf script T fuel Hts Hfuel.
       destruct (typewriter_session sw el str base cb s script T fuel
                   Hbase Hev Hwf Hts Hfuel) as (x & s' & Hx & Hrun & Hshown).
       rewrite Hs0 in Hx. injection Hx as <-.
       exists s'. split; [exact Hrun | exact Hshown]. }
  intros Hq. split.
  - intros T HT.
    destruct (typewriter_run sw el str base cb s T Hbase Hev Hq HT)
      as (x & s' & Hx & Hrun & Hc & Hch & Hshown & _).
    rewrite Hs0 in Hx. injection Hx as <-.
    exists s'. repeat (split; [assumption |]). exact Hshown.
  - destruct (typewriter_run sw el str base cb s (due done - 1) Hbase Hev Hq)
      as (x & s' & Hx & Hrun & _ & _ & _ & Hin & Hrest).
    { fold n. fold rate. unfold done. cbn [due]. nia. }
    rewrite Hs0 in Hx. injection Hx as <-.
    exists s'. split; [exact Hrun |].
    fold n rate done in Hin.
    unfold due_by.
    destruct (next_timer (timers s')) as [m |] eqn:Hn;
      [| apply next_timer_none in Hn; rewrite Hn in Hin; destruct Hin].
    assert (m = done) as ->.
    { destruct (Hrest m (next_timer_In _ _ Hn)) as (Hm0 & Hlate).
      fold n rate first in Ht0. rewrite Ht0, Hq in Hm0. cbn [app] in Hm0.
      apply in_app_or in Hm0. destruct Hm0 as [Hm0 | [<- | []]]; [| reflexivity].
      apply in_map_iff in Hm0. destruct Hm0 as (i & <- & Hi).
      apply in_seq in Hi. cbn [due ms_tick done] in Hlate. nia. }
    now rewrite Z.leb_refl.
Qed.

(** Witness: "Metallica" typed on the artist line of the page as loaded,
    read 200 ms later; and the same with [stop] called 100 ms after the
    typewriter. *)
Lemma typewriter_schedule_witness :
  0 <= 50 /\ Z.even 50 = true /\ timers page_load = [] /\ wf page_load
  /\ exists s0 s' s'',
       createTypewriter Artist (JStr "Metallica") (inject_Z 50) (Some CbDone)
         page_load = Returned s0
       /\ List.length (timers s0) = 10%nat
       /\ advance glyph_layout 9 200 s0 = Some s'
       /\ clock s' = 200
       /\ session glyph_layout 14 [(100, Stop)] 200 s0 = Some s''
       /\ nth_error (nodes (dom s'')) 4
          = Some {| html := Glyph "l"; shown := true |}
       /\ nth_error (nodes (dom s'')) 5
          = Some {| html := Glyph "l"; shown := false |}.
Proof.
  split; [lia |]. split; [reflexivity |]. split; [reflexivity |].
  split; [exact wf_page_load |].
  destruct (typewriter_schedule glyph_layout Artist "Metallica" 50 CbDone
              page_load ltac:(lia) eq_refl)
    as (s0 & Hs0 & _ & _ & Ht0 & _ & Hrun & Hany).
  destruct (proj1 (Hrun eq_refl) 200) as (s' & Hs' & Hc & _).
  { cbn. lia. }
  destruct (Hany wf_page_load [(100, Stop)] 200 14%nat) as (s'' & Hs'' & Hsh).
  { intros t c [E | []]. injection E as <- <-. lia. }
  { vm_compute. lia. }
  exists s0, s', s''. split; [exact Hs0 |].
  split; [rewrite Ht0; reflexivity |].
  split; [exact Hs' |]. split; [exact Hc |]. split; [exact Hs'' |].
  split; [exact (Hsh 4%nat "l"%char eq_refl) | exact (Hsh 5%nat "l"%char eq_refl)].
Defined.

(** ** update *)

(** C8. For every request, [update] is [play]: the two calls leave the
    same state, hence the same behaviour at every later time, and the
    call restarts the cycle from scratch: the three text elements are
    emptied, the box is put back off stage at width 0 with the text
    hidden, the timers of the two tracked handles are gone and the only
    closure registered is the delayed start with the new request, due
    1000 ms later. *)
Theorem update_is_play (sw : Dom -> Z) (arg : option request) (s : State) :
  update arg s = play arg s
  /\ (forall fuel T,
        advance sw fuel T (update arg s) = advance sw fuel T (play arg s))
  /\ (forall el, rendered el (dom (update arg s)) = [])
  /\ box_width (dom (update arg s)) = 0
  /\ box_bottom (dom (update arg s)) = -200
  /\ logo_pos (dom (update arg s)) = -100
  /\ text_opacity (dom (update arg s)) = 0
  /\ clock (update arg s) = clock s
  /\ delayedStartTimeout (update arg s) = Some (next_tid s)
  /\ (forall tm,
        In tm (timers (update arg s))
        <-> (In tm (timers s) /\ Some (tid tm) <> autoHideTimeout s
             /\ Some (tid tm) <> delayedStartTimeout s)
            \/ tm = {| tid := next_tid s; due := clock s + 1000;
                       act := DelayedStart (data_of arg) |}).
Proof.
  split; [reflexivity |]. split; [reflexivity |].
  unfold update.
  split; [intros el; rewrite play_eq; destruct el; reflexivity |].
  rewrite play_eq.
  cbn [dom clock delayedStartTimeout set_delayedStartTimeout register with_dom].
  repeat (split; [reflexivity |]).
  split; [now rewrite !(proj1 (clearTimeout_frame _ _)) |].
  split; [reflexivity |].
  intros tm. rewrite <- play_eq. apply play_timers.
Qed.

(** Witness: [update] with A/B on the page as loaded. *)
Lemma update_is_play_witness :
  update (Some request_AB) page_load = play (Some request_AB) page_load
  /\ In {| tid := 1; due := 1000; act := DelayedStart request_AB |}
        (timers (update (Some request_AB) page_load)).
Proof.
  destruct (update_is_play glyph_layout (Some request_AB) page_load)
    as (H & _ & _ & _ & _ & _ & _ & _ & _ & Ht).
  split; [exact H |]. apply Ht. right. reflexivity.
Defined.

(** ** The rendering surface only decides the box width

    Whatever [scrollWidth] answers, the run is the same up to the box
    width: the same closures fire at the same times and write the same
    text, positions and opacities. *)

Lemma blind_idem (s : State) : blind (blind s) = blind s.
Proof. reflexivity. Qed.

Lemma append_all_blind (el : field) (sps : list span) (d : Dom) :
  set_lt_width None (append_all el sps (set_children el [] d))
  = set_lt_width None
      (append_all el sps (set_children el [] (set_lt_width None d))).
Proof. destruct el; reflexivity. Qed.

Lemma createTypewriter_blind (el : field) (text : jsval) (baseSpeed : Q)
    (cb : callback) (s : State) :
  same_but_width (createTypewriter el text baseSpeed (Some cb) s)
                 (createTypewriter el text baseSpeed (Some cb) (blind s)).
Proof.
  unbox text.
  destruct text as [| | b | n | | str | | str]; try discriminate;
    try (cbn; unfold blind; rewrite !with_dom_compose;
         apply with_dom_ext; intros d; destruct el; reflexivity).
  rewrite !createTypewriter_string. cbn [same_but_width].
  unfold blind, register.
  cbn [clock next_tid timers autoHideTimeout delayedStartTimeout dom uncaught
       with_dom].
  unfold with_dom.
  cbn [clock next_tid timers autoHideTimeout delayedStartTimeout dom uncaught
       nodes set_lt_width].
  f_equal; apply append_all_blind.
Qed.

Lemma stop_blind (s : State) : blind (stop s) = blind (stop (blind s)).
Proof.
  rewrite !stop_eq.
  change (delayedStartTimeout (blind s)) with (delayedStartTimeout s).
  change (autoHideTimeout (blind s)) with (autoHideTimeout s).
  change (next_tid (blind s)) with (next_tid s).
  change (clock (blind s)) with (clock s).
  unfold blind, register.
  destruct (delayedStartTimeout s), (autoHideTimeout s); reflexivity.
Qed.

Lemma same_but_width_blind (o o' : outcome) :
  same_but_width o o' -> blind (state_of o) = blind (state_of o').
Proof. destruct o, o'; cbn; tauto. Qed.

Lemma exec_blind (sw sw' : Dom -> Z) (a : action) (s : State) :
  same_but_width (exec sw a s) (exec sw' a (blind s)).
Proof.
  destruct a as [d | | d | | | sp | cb | | | |]; cbn [exec];
    try (cbn [same_but_width]; reflexivity).
  - (* AutoHide *)
    cbn [same_but_width]. apply stop_blind.
  - (* Tick *)
    cbn [same_but_width]. unfold reveal_tick, blind.
    cbn [dom with_dom show_span set_nodes lt_width set_lt_width].
    destruct (lt_width (dom s)) as [w |]; [destruct (w <? _) |]; reflexivity.
  - (* TypeDone *)
    destruct cb as [d | d |]; cbn [run_callback];
      try apply createTypewriter_blind.
    reflexivity.
Qed.

Lemma fire_blind (sw sw' : Dom -> Z) (tm : timer) (s : State) :
  blind (fire sw tm s) = blind (fire sw' tm (blind s)).
Proof.
  unfold fire.
  pose proof (exec_blind sw sw' (act tm)
                (set_clock (Z.max (clock s) (due tm))
                   (clearTimeout (Some (tid tm)) s))) as H.
  change (set_clock (Z.max (clock (clearTimeout (Some (tid tm)) (blind s)))
                           (due tm))
            (clearTimeout (Some (tid tm)) (blind s)))
    with (blind (set_clock (Z.max (clock s) (due tm))
                   (clearTimeout (Some (tid tm)) s))).
  change (clock (clearTimeout (Some (tid tm)) s)) with (clock s).
  destruct (exec sw _ _) as [x | x], (exec sw' _ _) as [y | y];
    cbn [same_but_width] in H; try tauto.
  unfold blind, report_exception, with_dom in *.
  cbn [clock next_tid timers autoHideTimeout delayedStartTimeout dom uncaught]
    in *.
  injection H as Hc Hn Ht Ha Hd Hw1 Hw2 Hw3 Hw4 Hw5 Hw6 Hw7 Hw8 Hw9 Hw10 Hu.
  unfold set_lt_width. rewrite Hc, Hn, Ht, Ha, Hd, Hu.
  now rewrite Hw1, Hw2, Hw3, Hw4, Hw5, Hw6, Hw7, Hw8, Hw9, Hw10.
Qed.

Lemma advance_blind (fuel : nat) (T : Z) :
  forall (sw sw' : Dom -> Z) (s : State),
    option_map blind (advance sw fuel T s)
    = option_map blind (advance sw' fuel T (blind s)).
Proof.
  induction fuel as [| f IH]; intros sw sw' s; cbn [advance];
    change (due_by T (blind s)) with (due_by T s);
    destruct (due_by T s) as [tm |]; try reflexivity.
  rewrite (IH sw sw' (fire sw tm s)).
  rewrite (fire_blind sw sw' tm s).
  symmetry. apply IH.
Qed.

(** What a run shows apart from the box width can be read off the run on
    any one rendering surface. *)
Lemma advance_any_surface (sw : Dom -> Z) (fuel : nat) (T : Z) (s x : State) :
  advance glyph_layout fuel T (blind s) = Some x ->
  exists s', advance sw fuel T s = Some s' /\ blind s' = blind x.
Proof.
  intros H. pose proof (advance_blind fuel T sw glyph_layout s) as E.
  rewrite H in E. destruct (advance sw fuel T s) as [s' |]; [| discriminate].
  exists s'. split; [reflexivity |]. cbn in E. congruence.
Qed.

Lemma advance_from_same (sw : Dom -> Z) (fuel : nat) (T : Z) (s y x : State) :
  blind s = blind y ->
  advance glyph_layout fuel T (blind y) = Some x ->
  exists s', advance sw fuel T s = Some s' /\ blind s' = blind x.
Proof.
  intros E H. rewrite <- E in H.
  destruct (advance_any_surface sw fuel T (blind s) x H) as (s' & Hs' & Hb).
  pose proof (advance_blind fuel T sw sw s) as Hsame. rewrite Hs' in Hsame.
  destruct (advance sw fuel T s) as [s'' |]; [| discriminate].
  exists s''. split; [reflexivity |]. cbn in Hsame. congruence.
Qed.

Lemma play_blind (arg : option request) (s : State) :
  blind (play arg s) = blind (play arg (blind s)).
Proof.
  rewrite !play_eq.
  change (delayedStartTimeout (blind s)) with (delayedStartTimeout s).
  change (autoHideTimeout (blind s)) with (autoHideTimeout s).
  change (next_tid (blind s)) with (next_tid s).
  change (clock (blind s)) with (clock s).
  unfold blind, register, set_delayedStartTimeout.
  destruct (delayedStartTimeout s), (autoHideTimeout s); reflexivity.
Qed.

Lemma blind_timers (s x : State) : blind s = blind x -> timers s = timers x.
Proof.
  intros H. change (timers (blind s) = timers (blind x)). now rewrite H.
Qed.

Lemma blind_rendered (el : field) (s x : State) :
  blind s = blind x -> rendered el (dom s) = rendered el (dom x).
Proof.
  intros H.
  change (rendered el (dom (blind s)) = rendered el (dom (blind x))).
  now rewrite H.
Qed.

Lemma blind_text_opacity (s x : State) :
  blind s = blind x -> text_opacity (dom s) = text_opacity (dom x).
Proof.
  intros H.
  change (text_opacity (dom (blind s)) = text_opacity (dom (blind x))).
  now rewrite H.
Qed.

Lemma blind_box_bottom (s x : State) :
  blind s = blind x -> box_bottom (dom s) = box_bottom (dom x).
Proof.
  intros H.
  change (box_bottom (dom (blind s)) = box_bottom (dom (blind x))).
  now rewrite H.
Qed.

(** ** Defaults of the request fields *)







(** ** stop while idle *)

Lemma exit_progress_settled (t t' : Z) (d : Dom) :
  3500 <= t -> 3500 <= t' ->
  exit_progress t' (exit_progress t d) = exit_progress t d.
Proof. intros H H'. unfold exit_progress. settle_leb. reflexivity. Qed.

(** C3 (amended). [stop] called in the resting state: at every later time
    the box width is 0 (never negative), the box is off stage, the text is
    hidden, the text of the three lines and the logo's opacity and shimmer
    are untouched and no exception is reported; the logo's transform is
    the resting one from 500 ms on; the logo's offset is the one it had
    until 1200 ms, -80px from 1200 ms to 1800 ms and -350px from then on;
    from 3500 ms on the overlay rests again and a further [stop] ends in
    the very same document. *)
Theorem stop_while_idle (sw : Dom -> Z) (s : State) (t : Z) :
  Idle s -> 0 <= t ->
  exists s',
    advance sw 4 (clock s + t) (stop s) = Some s'
    /\ box_width (dom s') = 0
    /\ box_bottom (dom s') = -200
    /\ text_opacity (dom s') = 0
    /\ same_text (dom s) (dom s')
    /\ logo_opacity (dom s') = logo_opacity (dom s)
    /\ logo_shimmer (dom s') = logo_shimmer (dom s)
    /\ uncaught s' = uncaught s
    /\ logo_turn (dom s') = (if t <? 500 then logo_turn (dom s) else Scale1Rot0)
    /\ logo_pos (dom s')
       = (if t <? 1200 then logo_pos (dom s)
          else if t <? 1800 then -80 else -350)
    /\ (3500 <= t ->
        Idle s'
        /\ forall t', 3500 <= t' ->
             exists s'', advance sw 4 (clock s' + t') (stop s') = Some s''
                         /\ dom s'' = dom s').
Proof.
  intros (Hq & Hw & Hb & Ho) Ht.
  destruct (stop_quiescent_run sw s t Hq Ht) as (s' & Hrun & Hd & Hc & Hu & Hend).
  exists s'. split; [exact Hrun |].
  assert (Hcases : 3500 <= t \/ 1800 <= t < 3500 \/ 1200 <= t < 1800
                   \/ 500 <= t < 1200 \/ t < 500) by lia.
  assert (Hshape :
    box_width (dom s') = 0 /\ box_bottom (dom s') = -200
    /\ text_opacity (dom s') = 0 /\ same_text (dom s) (dom s')
    /\ logo_opacity (dom s') = logo_opacity (dom s)
    /\ logo_shimmer (dom s') = logo_shimmer (dom s)
    /\ logo_turn (dom s') = (if t <? 500 then logo_turn (dom s) else Scale1Rot0)
    /\ logo_pos (dom s')
       = (if t <? 1200 then logo_pos (dom s)
          else if t <? 1800 then -80 else -350)).
  { rewrite Hd. unfold exit_progress, same_text.
    destruct Hcases as [H | [H | [H | [H | H]]]]; settle_leb; cbv iota;
      repeat match goal with
             | |- context [Z.ltb ?a ?b] =>
                 first [ replace (Z.ltb a b) with true
                           by (symmetry; apply Z.ltb_lt; lia)
                       | replace (Z.ltb a b) with false
                           by (symmetry; apply Z.ltb_ge; lia) ]
             end; cbv iota;
      repeat split; try reflexivity; assumption. }
  destruct Hshape as (Sw & Sb & So & St & Slo & Sls & Slt & Slp).
  repeat (split; [assumption |]).
  intros Hlate. specialize (Hend Hlate).
  split; [repeat split; assumption |].
  intros t' Hlate'.
  destruct (stop_quiescent_run sw s' t' Hend ltac:(lia))
    as (s'' & Hrun' & Hd' & _).
  exists s''. split; [exact Hrun' |].
  rewrite Hd', Hd. now apply exit_progress_settled.
Qed.

(** Witness: [stop] on the page as loaded, read 4000 ms later, and a
    second [stop] then, read 3500 ms after it. *)
Lemma stop_while_idle_witness :
  Idle page_load /\ 0 <= 4000 /\ 3500 <= 4000
  /\ exists s' s'',
       advance glyph_layout 4 (clock page_load + 4000) (stop page_load)
       = Some s'
       /\ box_width (dom s') = 0
       /\ logo_pos (dom s') = -350
       /\ Idle s'
       /\ advance glyph_layout 4 (clock s' + 3500) (stop s') = Some s''
       /\ dom s'' = dom s'.
Proof.
  assert (Hidle : Idle page_load) by (repeat split; reflexivity).
  split; [exact Hidle |]. split; [lia |]. split; [lia |].
  destruct (stop_while_idle glyph_layout page_load 4000 Hidle ltac:(lia))
    as (s' & Hrun & Hw & _ & _ & _ & _ & _ & _ & _ & Hp & Hlate).
  destruct (Hlate ltac:(lia)) as (Hidle' & Hagain).
  destruct (Hagain 3500 ltac:(lia)) as (s'' & Hrun' & Hsame).
  exists s', s''.
  split; [exact Hrun |]. split; [exact Hw |]. split; [exact Hp |].
  split; [exact Hidle' |]. split; [exact Hrun' | exact Hsame].
Defined.

(** C3, as stated, fails: the overlay rests 3500 ms after a [stop]; a
    [stop] called then moves the logo from its resting -350px to -80px,
    1200 ms after the call. *)
Lemma stop_while_idle_moves_logo :
  exists s1 s2,
    advance glyph_layout 4 3500 (stop page_load) = Some s1
    /\ Idle s1
    /\ logo_pos (dom s1) = -350
    /\ advance glyph_layout 4 (3500 + 1200) (stop s1) = Some s2
    /\ logo_pos (dom s2) = -80.
Proof.
  do 2 eexists.
  split; [vm_compute; reflexivity |].
  split; [repeat split; reflexivity |].
  split; [reflexivity |].
  split; [vm_compute; reflexivity | reflexivity].
Qed.

(** ** The box width across reveals *)

(** A reveal never lowers the box width. *)
Lemma reveal_tick_width_grows (sw : Dom -> Z) (sp : nat) (s : State) :
  box_width (dom s) <= box_width (dom (reveal_tick sw sp s)).
Proof.
  unfold reveal_tick, box_width. cbn [dom with_dom].
  change (lt_width (show_span sp (dom s))) with (lt_width (dom s)).
  destruct (lt_width (dom s)) as [w |] eqn:E.
  - destruct (Z.ltb_spec w (size_calc (sw (show_span sp (dom s)))));
      cbn [dom with_dom lt_width set_lt_width show_span set_nodes];
      rewrite ?E; lia.
  - cbn [dom with_dom lt_width show_span set_nodes]. rewrite E. lia.
Qed.

(** Reveals that run one right after the other leave a non-decreasing
    series of widths. *)
Lemma reveals_in_a_row_grow (sw : Dom -> Z) (ids : list nat) :
  forall s, Sorted Z.le (box_width (dom s) :: widths_after sw ids s).
Proof.
  induction ids as [| id rest IH]; intros s; cbn [widths_after].
  - repeat constructor.
  - constructor; [apply IH |]. constructor. apply reveal_tick_width_grows.
Qed.

(** With an artist and a title of 100 characters each and no second
    command at all, the auto-hide fires while the title is still being
    revealed: the box, 1600px wide at 13499 ms, is collapsed to 0 at
    13500 ms and widened to 1600px again by the title's next reveal. *)
Lemma long_titles_collapse_mid_reveal :
  exists s1 s2 s3,
    advance glyph_layout 400 13499 (play (Some request_hundreds) page_load)
    = Some s1
    /\ box_width (dom s1) = 1600
    /\ advance glyph_layout 400 13500 (play (Some request_hundreds) page_load)
       = Some s2
    /\ box_width (dom s2) = 0
    /\ map act (fired glyph_layout 400 13550 s2) = [Tick 191]
    /\ advance glyph_layout 400 13550 s2 = Some s3
    /\ box_width (dom s3) = 1600.
Proof.
  do 3 eexists.
  repeat match goal with
         | |- _ /\ _ => split
         | |- _ => vm_compute; reflexivity
         end.
Qed.

(** C5 does not hold of the script. [play] with a 40-character artist;
    at 4100 ms the first character of the artist line is revealed and the
    box is 1600px wide; [play] C/D arrives then and empties the lines; the
    one closure that fires in the next 50 ms is the reveal of the second
    character of that same artist line, and after it the box is 1000px
    wide. *)
Theorem superseded_reveal_shrinks_width :
  exists s1 s2 s3,
    advance glyph_layout 64 4100 (play (Some request_long) page_load) = Some s1
    /\ nth_error (artist_text (dom s1)) 0 = Some 12%nat
    /\ nth_error (artist_text (dom s1)) 1 = Some 13%nat
    /\ option_map shown (nth_error (nodes (dom s1)) 12) = Some true
    /\ option_map shown (nth_error (nodes (dom s1)) 13) = Some false
    /\ box_width (dom s1) = 1600
    /\ s2 = play (Some request_CD) s1
    /\ map act (fired glyph_layout 64 4150 s2) = [Tick 13]
    /\ advance glyph_layout 64 4150 s2 = Some s3
    /\ option_map shown (nth_error (nodes (dom s3)) 13) = Some true
    /\ box_width (dom s3) = 1000.
Proof.
  do 3 eexists.
  repeat match goal with
         | |- _ /\ _ => split
         | |- _ => vm_compute; reflexivity
         end.
Qed.

(** ** Commands that arrive while a cycle is running *)

(** C1 does not hold of the script. [play] A/B, then [play] C/D 1100 ms
    later, while the first cycle is entering: right after the second call
    the first cycle's expand and reveal closures are still registered
    next to the new delayed start; they fire, the first cycle's typewriter
    chain runs, and 5000 ms after the first call the overlay is on stage
    with the text visible and the artist and song lines reading "A" and
    "B", fully revealed. This is so on every rendering surface. *)
Theorem second_play_keeps_first_cycle (sw : Dom -> Z) :
  exists s1 s2 s3,
    advance sw 64 1100 (play (Some request_AB) page_load) = Some s1
    /\ s2 = play (Some request_CD) s1
    /\ map act (timers s2)
       = [Expand; Reveal request_AB; DelayedStart request_CD]
    /\ advance sw 64 5000 s2 = Some s3
    /\ rendered Artist (dom s3) = fully_shown "A"
    /\ rendered Song (dom s3) = fully_shown "B"
    /\ text_opacity (dom s3) = 1
    /\ box_bottom (dom s3) = 40.
Proof.
  edestruct (advance_any_surface sw 64 1100
               (play (Some request_AB) page_load)) as (s1 & Hs1 & Hb1);
    [vm_compute; reflexivity |].
  pose proof (play_blind (Some request_CD) s1) as Hplay.
  rewrite Hb1, <- play_blind in Hplay.
  edestruct (advance_from_same sw 64 5000 (play (Some request_CD) s1))
    as (s3 & Hs3 & Hb3); [exact Hplay | vm_compute; reflexivity |].
  exists s1, (play (Some request_CD) s1), s3.
  split; [exact Hs1 |]. split; [reflexivity |].
  split; [rewrite (blind_timers _ _ Hplay); vm_compute; reflexivity |].
  split; [exact Hs3 |].
  rewrite !(blind_rendered _ _ _ Hb3), (blind_text_opacity _ _ Hb3),
    (blind_box_bottom _ _ Hb3).
  repeat split; vm_compute; reflexivity.
Qed.

(** C2 does not hold of the script. [play], then [stop] 1100 ms later,
    while the cycle is entering (box on stage, width still 0, text
    hidden): the reveal closure of the cycle is still registered after
    [stop]; 3500 ms after [stop], when the exit sequence has ended, the
    text container is opaque, the first two lines are fully revealed and
    the box is 1000px wide, and with nothing pending any more that is how
    the overlay stays. The same [stop] 3100 ms after [play], while the
    first line is being revealed, ends with the box 1000px wide. *)
Theorem stop_while_entering_does_not_reach_idle :
  exists s1 s2 s3 r1 r2,
    advance glyph_layout 64 1100 (play (Some request_metallica) page_load)
    = Some s1
    /\ box_bottom (dom s1) = 40 /\ box_width (dom s1) = 0
    /\ text_opacity (dom s1) = 0
    /\ map act (timers (stop s1))
       = [Expand; Reveal request_metallica;
          ExitCollapse; ExitLogoStage; ExitBox; ExitLogoOff]
    /\ advance glyph_layout 64 (1100 + 3500) (stop s1) = Some s2
    /\ text_opacity (dom s2) = 1
    /\ box_width (dom s2) = 1000
    /\ rendered NowPlaying (dom s2) = fully_shown "Now Playing:"
    /\ rendered Artist (dom s2) = fully_shown "Metallica"
    /\ advance glyph_layout 64 60000 (stop s1) = Some s3
    /\ timers s3 = []
    /\ text_opacity (dom s3) = 1
    /\ box_width (dom s3) = 1000
    /\ ~ Idle s3
    /\ advance glyph_layout 64 3100 (play (Some request_metallica) page_load)
       = Some r1
    /\ text_opacity (dom r1) = 1
    /\ advance glyph_layout 64 60000 (stop r1) = Some r2
    /\ timers r2 = []
    /\ box_width (dom r2) = 1000
    /\ ~ Idle r2.
Proof.
  do 5 eexists.
  repeat match goal with
         | |- _ /\ _ => split
         | |- ~ Idle _ => intros (_ & Hw & _); vm_compute in Hw; discriminate
         | |- _ => vm_compute; reflexivity
         end.
Qed.

(** * Further properties of the script *)

(** ** What holds at every step holds in every session *)

Section Invariants.

Variable sw : Dom -> Z.
Variable P : State -> Prop.

Hypothesis P_command : forall c s, P s -> P (run_command c s).
Hypothesis P_fire :
  forall T x s, due_by T s = Some x -> P s -> P (fire sw x s).
Hypothesis P_wait :
  forall T s, (forall x, In x (timers s) -> T < due x) ->
              P s -> P (set_clock (Z.max (clock s) T) s).

Lemma advance_invariant (fuel : nat) (T : Z) :
  forall s s', P s -> advance sw fuel T s = Some s' -> P s'.
Proof.
  induction fuel as [| f IH]; intros s s' Hs H; cbn [advance] in H;
    destruct (due_by T s) as [x |] eqn:Hd; try discriminate.
  - injection H as <-. apply P_wait; [now apply due_by_none | exact Hs].
  - eapply IH; [| exact H]. eapply P_fire; eassumption.
  - injection H as <-. apply P_wait; [now apply due_by_none | exact Hs].
Qed.

Lemma session_invariant (fuel : nat) (script : list (Z * command)) (T : Z) :
  forall s s', P s -> session sw fuel script T s = Some s' -> P s'.
Proof.
  induction script as [| [t c] rest IH]; intros s s' Hs H; cbn [session] in H.
  - eapply advance_invariant; eassumption.
  - destruct (advance sw fuel t s) as [s1 |] eqn:H1; [| discriminate].
    eapply IH; [| exact H]. apply P_command.
    eapply advance_invariant; eassumption.
Qed.

End Invariants.

(** ** The inline styles stay among the values the script writes *)

Lemma createTypewriter_styles (el : field) (text : jsval) (baseSpeed : Q)
    (cb : callback) (s : State) :
  set_children NowPlaying [] (set_children Artist [] (set_children Song []
    (set_nodes [] (dom (state_of (createTypewriter el text baseSpeed (Some cb) s))))))
  = set_children NowPlaying [] (set_children Artist [] (set_children Song []
      (set_nodes [] (dom s)))).
Proof.
  unbox text.
  destruct text as [| | b | n | | str | | str]; try discriminate;
    try (cbn [createTypewriter state_of dom with_dom]; destruct el; reflexivity).
  rewrite createTypewriter_string. cbn [state_of register dom with_dom].
  destruct el; reflexivity.
Qed.

Lemma styles_written_text (d d' : Dom) :
  set_children NowPlaying [] (set_children Artist [] (set_children Song []
    (set_nodes [] d')))
  = set_children NowPlaying [] (set_children Artist [] (set_children Song []
      (set_nodes [] d))) ->
  lt_width d' = lt_width d /\ lt_bottom d' = lt_bottom d
  /\ logo_bottom d' = logo_bottom d /\ tc_opacity d' = tc_opacity d
  /\ logo_opacity d' = logo_opacity d
  /\ styles_written d' = styles_written d.
Proof.
  intros H.
  assert (H1 : lt_width d' = lt_width d) by exact (f_equal lt_width H).
  assert (H2 : lt_bottom d' = lt_bottom d) by exact (f_equal lt_bottom H).
  assert (H3 : logo_bottom d' = logo_bottom d) by exact (f_equal logo_bottom H).
  assert (H4 : tc_opacity d' = tc_opacity d) by exact (f_equal tc_opacity H).
  assert (H5 : logo_opacity d' = logo_opacity d) by exact (f_equal logo_opacity H).
  repeat (split; [assumption |]).
  unfold styles_written. now rewrite H1, H2, H3, H4, H5.
Qed.

Lemma styles_written_iff (d : Dom) :
  styles_written d = true
  <-> width_written (lt_width d) = true
      /\ among [-200; 40] (lt_bottom d) = true
      /\ among [-100; -80; -350] (logo_bottom d) = true
      /\ among [0; 1] (tc_opacity d) = true
      /\ among [1] (logo_opacity d) = true.
Proof. unfold styles_written. rewrite !andb_true_iff. tauto. Qed.

Lemma reveal_tick_styles (sw : Dom -> Z) (sp : nat) (s : State) :
  styles_written (dom s) = true ->
  styles_written (dom (reveal_tick sw sp s)) = true.
Proof.
  rewrite !styles_written_iff. intros (Hw & Hrest).
  unfold reveal_tick. cbn [dom with_dom show_span set_nodes lt_width].
  destruct (lt_width (dom s)) as [w |] eqn:E.
  - destruct (w <? _) eqn:Elt;
      cbn [dom with_dom show_span set_nodes set_lt_width lt_width lt_bottom
           logo_bottom tc_opacity logo_opacity];
      [| rewrite E; tauto].
    split; [| exact Hrest].
    pose proof (size_calc_range (sw (set_nodes (show_at sp (nodes (dom s))) (dom s))))
      as Hr.
    unfold width_written. apply orb_true_iff. right.
    apply andb_true_iff. split; apply Z.leb_le; apply Hr.
  - cbn [dom with_dom show_span set_nodes lt_width lt_bottom logo_bottom
         tc_opacity logo_opacity]. rewrite E. tauto.
Qed.

Lemma stop_styles (s : State) :
  styles_written (dom s) = true -> styles_written (dom (stop s)) = true.
Proof.
  rewrite stop_eq, !styles_written_iff. cbn [dom register with_dom].
  rewrite !(proj1 (proj2 (proj2 (clearTimeout_frame _ _)))).
  cbn [set_tc_opacity lt_width lt_bottom logo_bottom tc_opacity logo_opacity].
  intros (Hw & Hb & Hl & _ & Hlo). repeat split; assumption.
Qed.

Lemma play_styles (arg : option request) (s : State) :
  styles_written (dom (play arg s)) = true.
Proof. rewrite play_eq. reflexivity. Qed.

Lemma exec_styles (sw : Dom -> Z) (a : action) (s : State) :
  styles_written (dom s) = true ->
  styles_written (dom (state_of (exec sw a s))) = true.
Proof.
  intros H.
  destruct a as [d | | d | | | sp | cb | | | |]; cbn [exec state_of].
  - (* DelayedStart *)
    rewrite (setTimeout_register AutoHide). cbn [state_of].
    rewrite !setTimeout_register. cbn [snd register dom set_autoHideTimeout with_dom].
    apply styles_written_iff in H. apply styles_written_iff.
    cbn [set_lt_bottom set_logo_bottom set_logo_transform lt_width lt_bottom
         logo_bottom tc_opacity logo_opacity]. tauto.
  - apply styles_written_iff in H. apply styles_written_iff.
    cbn [dom with_dom set_lt_width set_logo_transform lt_width lt_bottom
         logo_bottom tc_opacity logo_opacity]. tauto.
  - (* Reveal *)
    pose proof (createTypewriter_styles NowPlaying (JStr "Now Playing:") 50
                  (CbArtist d) (with_dom (set_tc_opacity (Some 1)) s)) as Hk.
    apply styles_written_text in Hk. destruct Hk as (_ & _ & _ & _ & _ & Hk).
    assert (H1 : styles_written (dom (with_dom (set_tc_opacity (Some 1)) s)) = true).
    { apply styles_written_iff in H. apply styles_written_iff.
      cbn [dom with_dom set_tc_opacity lt_width lt_bottom logo_bottom tc_opacity
           logo_opacity]. tauto. }
    rewrite H1 in Hk.
    destruct (createTypewriter _ _ _ _ _) as [s1 | s1]; cbn [state_of] in *;
      [| exact Hk].
    rewrite setTimeout_register. cbn [snd register dom with_dom].
    apply styles_written_iff in Hk. apply styles_written_iff.
    cbn [set_logo_shimmer lt_width lt_bottom logo_bottom tc_opacity logo_opacity].
    exact Hk.
  - apply styles_written_iff in H. apply styles_written_iff.
    cbn [dom with_dom set_logo_shimmer lt_width lt_bottom logo_bottom tc_opacity
         logo_opacity]. exact H.
  - now apply stop_styles.
  - now apply reveal_tick_styles.
  - destruct cb as [d | d |]; cbn [run_callback state_of]; [| | exact H].
    + pose proof (createTypewriter_styles Artist (js_or (artist d) "Artist Name")
                    50 (CbSong d) s) as Hk.
      apply styles_written_text in Hk. destruct Hk as (_ & _ & _ & _ & _ & Hk).
      now rewrite Hk.
    + pose proof (createTypewriter_styles Song (js_or (song d) "Song Title")
                    50 CbDone s) as Hk.
      apply styles_written_text in Hk. destruct Hk as (_ & _ & _ & _ & _ & Hk).
      now rewrite Hk.
  - apply styles_written_iff in H. apply styles_written_iff.
    cbn [dom with_dom set_lt_width set_logo_transform lt_width lt_bottom
         logo_bottom tc_opacity logo_opacity]. tauto.
  - apply styles_written_iff in H. apply styles_written_iff.
    cbn [dom with_dom set_logo_bottom lt_width lt_bottom logo_bottom tc_opacity
         logo_opacity]. tauto.
  - apply styles_written_iff in H. apply styles_written_iff.
    cbn [dom with_dom set_lt_bottom lt_width lt_bottom logo_bottom tc_opacity
         logo_opacity]. tauto.
  - apply styles_written_iff in H. apply styles_written_iff.
    cbn [dom with_dom set_logo_bottom lt_width lt_bottom logo_bottom tc_opacity
         logo_opacity]. tauto.
Qed.

Lemma fire_styles (sw : Dom -> Z) (x : timer) (s : State) :
  styles_written (dom s) = true -> styles_written (dom (fire sw x s)) = true.
Proof.
  intros H. unfold fire.
  pose proof (exec_styles sw (act x)
                (set_clock (Z.max (clock (clearTimeout (Some (tid x)) s)) (due x))
                   (clearTimeout (Some (tid x)) s)) H) as Hx.
  destruct (exec sw (act x) _) as [s' | s']; exact Hx.
Qed.

Lemma command_styles (c : command) (s : State) :
  styles_written (dom s) = true ->
  styles_written (dom (run_command c s)) = true.
Proof.
  intros H. destruct c; cbn [run_command]; unfold update;
    [apply play_styles | apply play_styles | now apply stop_styles].
Qed.

(** X1. In every session, whatever the commands, their times and the
    rendering surface: when the inline styles start among the values the
    script writes (as on the page just loaded), the session returns and
    they are still among them. The box is 0 wide or between 1000 and 1600,
    never negative and never wider; it sits at -200px or 40px; the logo at
    -200px, -100px, -80px or -350px; the text container's opacity is 0 or
    1. *)
Theorem styles_stay_in_range (sw : Dom -> Z) (script : list (Z * command))
    (T : Z) (fuel : nat) (s : State) :
  styles_written (dom s) = true ->
  (backlog s + list_sum (map (fun tc => command_weight (snd tc)) script)
   <= fuel)%nat ->
  exists s',
    session sw fuel script T s = Some s'
    /\ styles_written (dom s') = true
    /\ (box_width (dom s') = 0 \/ 1000 <= box_width (dom s') <= 1600)
    /\ (box_bottom (dom s') = -200 \/ box_bottom (dom s') = 40)
    /\ In (logo_pos (dom s')) [-200; -100; -80; -350]
    /\ (text_opacity (dom s') = 0 \/ text_opacity (dom s') = 1).
Proof.
  intros Hs Hfuel.
  destruct (session_returns sw T fuel script s Hfuel) as (s' & Hrun).
  exists s'. split; [exact Hrun |].
  assert (H : styles_written (dom s') = true).
  { apply (session_invariant sw (fun st => styles_written (dom st) = true))
      with (fuel := fuel) (script := script) (T := T) (s := s);
      try assumption.
    - intros c st. apply command_styles.
    - intros t x st _. apply fire_styles.
    - intros t st _ Hst. exact Hst. }
  split; [exact H |].
  apply styles_written_iff in H. destruct H as (Hw & Hb & Hl & Ho & _).
  unfold box_width, box_bottom, logo_pos, text_opacity.
  unfold width_written, baseWidth, maxWidth in Hw. unfold among in Hb, Hl, Ho.
  split.
  { destruct (lt_width (dom s')) as [w |]; [| now left].
    apply orb_true_iff in Hw. destruct Hw as [Hw | Hw].
    - left. now apply Z.eqb_eq.
    - right. apply andb_true_iff in Hw. destruct Hw as (H1 & H2).
      split; now apply Z.leb_le. }
  split.
  { destruct (lt_bottom (dom s')) as [b |]; [| now left].
    cbn [existsb] in Hb. rewrite !orb_true_iff, !Z.eqb_eq in Hb.
    destruct Hb as [-> | [-> | Hb]]; [now left | now right | discriminate]. }
  split.
  { destruct (logo_bottom (dom s')) as [b |]; [| now left].
    cbn [existsb] in Hl. rewrite !orb_true_iff, !Z.eqb_eq in Hl. cbn [In].
    destruct Hl as [-> | [-> | [-> | Hl]]]; try tauto. discriminate. }
  destruct (tc_opacity (dom s')) as [o |]; [| now left].
  cbn [existsb] in Ho. rewrite !orb_true_iff, !Z.eqb_eq in Ho.
  destruct Ho as [-> | [-> | Ho]]; [now left | now right | discriminate].
Qed.

(** Witness: "Metallica" played on the page as loaded, [stop] 5000 ms
    later, the overlay read another second later. *)
Lemma styles_stay_in_range_witness :
  styles_written (dom page_load) = true
  /\ exists s',
       session glyph_layout 60
         [(0, Play (Some request_metallica)); (5000, Stop)] 6000 page_load
       = Some s'
       /\ (box_width (dom s') = 0 \/ 1000 <= box_width (dom s') <= 1600).
Proof.
  split; [reflexivity |].
  destruct (styles_stay_in_range glyph_layout
              [(0, Play (Some request_metallica)); (5000, Stop)] 6000 60%nat
              page_load eq_refl)
    as (s' & Hrun & _ & Hw & _).
  { vm_compute. lia. }
  exists s'. split; [exact Hrun | exact Hw].
Defined.

(** ** What lowers the box width *)

Lemma exec_keeps_width (sw : Dom -> Z) (a : action) (s : State) :
  lowers_width a = false ->
  box_width (dom s) <= box_width (dom (state_of (exec sw a s))).
Proof.
  intros Ha. unfold box_width.
  destruct a as [d | | d | | | sp | cb | | | |]; try discriminate;
    cbn [exec state_of].
  - rewrite (setTimeout_register AutoHide). cbn [state_of].
    rewrite !setTimeout_register. cbn. lia.
  - pose proof (createTypewriter_styles NowPlaying (JStr "Now Playing:") 50
                  (CbArtist d) (with_dom (set_tc_opacity (Some 1)) s)) as Hk.
    apply styles_written_text in Hk. destruct Hk as (Hk & _).
    destruct (createTypewriter _ _ _ _ _) as [s1 | s1]; cbn [state_of] in *.
    + rewrite setTimeout_register. cbn [snd register dom with_dom].
      cbn [set_logo_shimmer lt_width]. rewrite Hk. cbn. lia.
    + rewrite Hk. cbn. lia.
  - cbn. lia.
  - rewrite stop_eq. cbn [dom register with_dom].
    rewrite !(proj1 (proj2 (proj2 (clearTimeout_frame _ _)))). cbn. lia.
  - apply reveal_tick_width_grows.
  - destruct cb as [d | d |]; cbn [run_callback state_of]; [| | lia].
    + pose proof (createTypewriter_styles Artist (js_or (artist d) "Artist Name")
                    50 (CbSong d) s) as Hk.
      apply styles_written_text in Hk. destruct Hk as (Hk & _).
      rewrite Hk. lia.
    + pose proof (createTypewriter_styles Song (js_or (song d) "Song Title")
                    50 CbDone s) as Hk.
      apply styles_written_text in Hk. destruct Hk as (Hk & _).
      rewrite Hk. lia.
  - cbn. lia.
  - cbn. lia.
  - cbn. lia.
Qed.

Lemma fire_keeps_width (sw : Dom -> Z) (x : timer) (s : State) :
  lowers_width (act x) = false ->
  box_width (dom s) <= box_width (dom (fire sw x s)).
Proof.
  intros Ha. unfold fire.
  pose proof (exec_keeps_width sw (act x)
                (set_clock (Z.max (clock (clearTimeout (Some (tid x)) s)) (due x))
                   (clearTimeout (Some (tid x)) s)) Ha) as Hx.
  cbn [dom set_clock] in Hx.
  rewrite (proj1 (proj2 (proj2 (clearTimeout_frame _ _)))) in Hx.
  destruct (exec sw (act x) _) as [s' | s']; exact Hx.
Qed.

(** X2. Between two commands the box width goes down only when the expand
    closure of [play] (which writes 1000px) or the collapse closure of
    [stop] (which writes 0) runs: over any stretch of the event loop in
    which neither ran, the box is at least as wide at the end as at the
    start, whatever the rendering surface answers. [stop] itself leaves
    the width alone. *)
Theorem width_lowered_only_by_expand_and_collapse (sw : Dom -> Z)
    (fuel : nat) (T : Z) (s : State) :
  (backlog s <= fuel)%nat ->
  (forall x, In x (fired sw fuel T s) -> lowers_width (act x) = false) ->
  box_width (dom (stop s)) = box_width (dom s)
  /\ exists s',
       advance sw fuel T s = Some s'
       /\ box_width (dom s) <= box_width (dom s').
Proof.
  intros Hfuel Hfired. split.
  { rewrite stop_eq. cbn [dom register with_dom].
    now rewrite !(proj1 (proj2 (proj2 (clearTimeout_frame _ _)))). }
  destruct (advance_returns sw T fuel s Hfuel) as (s' & Hrun & _).
  exists s'. split; [exact Hrun |].
  clear Hfuel. revert s s' Hfired Hrun.
  induction fuel as [| f IH]; intros s s' Hfired Hrun;
    cbn [advance fired] in *;
    destruct (due_by T s) as [x |] eqn:Hd; try discriminate;
    try (injection Hrun as <-; cbn [dom set_clock]; lia).
  pose proof (fire_keeps_width sw x s (Hfired x (or_introl eq_refl))) as H1.
  assert (H2 : box_width (dom (fire sw x s)) <= box_width (dom s')).
  { apply IH; [| exact Hrun]. intros y Hy. apply Hfired. now right. }
  lia.
Qed.

(** Witness: the reveal stretch of a cycle, from 3000 ms to 5000 ms after
    [play]: the closures that run are reveals, the artist callback and the
    end of the shimmer. *)
Lemma width_lowered_only_by_expand_and_collapse_witness :
  exists s1,
    advance glyph_layout 64 2999 (play (Some request_metallica) page_load)
    = Some s1
    /\ (backlog s1 <= 64)%nat
    /\ forallb (fun x => negb (lowers_width (act x)))
         (fired glyph_layout 64 5000 s1) = true
    /\ exists s2,
         advance glyph_layout 64 5000 s1 = Some s2
         /\ box_width (dom s1) <= box_width (dom s2).
Proof.
  eexists. split; [vm_compute; reflexivity |].
  match goal with
  | |- (backlog ?s1 <= _)%nat /\ _ =>
      assert (Hb : (backlog s1 <= 64)%nat) by (vm_compute; lia);
      assert (Hf : forallb (fun x => negb (lowers_width (act x)))
                     (fired glyph_layout 64 5000 s1) = true)
        by (vm_compute; reflexivity);
      destruct (width_lowered_only_by_expand_and_collapse glyph_layout 64 5000
                  s1 Hb) as (_ & s2 & Hrun & Hle)
  end.
  { intros x Hx. rewrite forallb_forall in Hf.
    apply negb_true_iff. now apply Hf. }
  split; [exact Hb |]. split; [exact Hf |].
  exists s2. split; [exact Hrun | exact Hle].
Defined.

(** ** The registry after a closure has run *)

Lemma createTypewriter_50 (el : field) (str : string) (cb : callback)
    (s : State) :
  createTypewriter el (JStr str) 50 (Some cb) s
  = Returned
      (register
         (typewriter_timers str cb (next_tid s) (List.length (nodes (dom s)))
            (clock s))
         (with_dom (fun d => append_all el (spans_of str) (set_children el [] d))
            s)).
Proof.
  rewrite createTypewriter_string. do 2 f_equal.
  unfold typewriter_timers.
  assert (Hrate : 0 <= (if (100 <? String.length str)%nat then 25 else 50))
    by (destruct (100 <? String.length str)%nat; lia).
  f_equal.
  - unfold tick_timers. apply map_ext. intros i.
    unfold tick_timer, ms_tick.
    change 50%Q with (inject_Z 50).
    rewrite (floor_scaled0 (Z.of_nat i) 50 (String.length str) eq_refl).
    change (50 / 2) with 25.
    rewrite Z.max_r by nia. reflexivity.
  - change 50%Q with (inject_Z 50). change 500%Q with (inject_Z 500).
    rewrite (floor_scaled (Z.of_nat (String.length str)) 50 500
               (String.length str) eq_refl).
    change (50 / 2) with 25.
    rewrite Z.max_r by nia. now rewrite Z.add_assoc.
Qed.

Lemma typewriter_timers_tids (str : string) (cb : callback) (h first : nat)
    (now : Z) :
  map tid (typewriter_timers str cb h first now)
  = seq h (S (String.length str)).
Proof.
  unfold typewriter_timers. rewrite map_app, map_map.
  cbn [map tid ms_tick]. rewrite map_add_seq.
  replace (S (String.length str)) with (String.length str + 1)%nat by lia.
  now rewrite seq_app.
Qed.

Lemma spawned_tids (a : action) (h first : nat) (now : Z) :
  map tid (spawned a h first now)
  = seq h (List.length (spawned a h first now)).
Proof.
  assert (Htw : forall str cb,
             map tid (typewriter_timers str cb h first now)
             = seq h (List.length (typewriter_timers str cb h first now))).
  { intros str cb. rewrite typewriter_timers_tids. f_equal.
    unfold typewriter_timers. rewrite length_app, length_map, length_seq.
    cbn [List.length]. lia. }
  assert (Hty : forall text cb,
             map tid (typed_timers text cb h first now)
             = seq h (List.length (typed_timers text cb h first now))).
  { intros text cb. destruct text; try reflexivity; apply Htw. }
  destruct a as [d | | d | | | sp | cb | | | |]; try reflexivity.
  - cbn. repeat f_equal; lia.
  - cbn [spawned]. rewrite map_app, length_app, typewriter_timers_tids.
    unfold typewriter_timers. rewrite length_app, length_map, length_seq.
    cbn. repeat f_equal; lia.
  - cbn. repeat f_equal; lia.
  - destruct cb as [d | d |]; [apply Hty | apply Hty | reflexivity].
Qed.

Lemma exec_registry (sw : Dom -> Z) (a : action) (s : State) :
  let s' := state_of (exec sw a s) in
  let new := spawned a (next_tid s) (List.length (nodes (dom s))) (clock s) in
  timers s' = filter (fun x => negb (gone_by a s x)) (timers s) ++ new
  /\ next_tid s' = (next_tid s + List.length new)%nat
  /\ clock s' = clock s
  /\ delayedStartTimeout s' = delayedStartTimeout s
  /\ autoHideTimeout s'
     = (if is_delayed_start a then Some (next_tid s + 2)%nat
        else autoHideTimeout s).
Proof.
  cbv zeta.
  assert (Hid : forall l : list timer, filter (fun _ => negb false) l = l)
    by (intros l; apply filter_true).
  assert (Htyped : forall el text cb,
    let s' := state_of (createTypewriter el text 50 (Some cb) s) in
    let new := typed_timers text cb (next_tid s) (List.length (nodes (dom s)))
                 (clock s) in
    timers s' = timers s ++ new
    /\ next_tid s' = (next_tid s + List.length new)%nat
    /\ clock s' = clock s
    /\ delayedStartTimeout s' = delayedStartTimeout s
    /\ autoHideTimeout s' = autoHideTimeout s).
  { intros el text cb. cbv zeta. unbox text.
    destruct text as [| | b | n | | str | | str]; try discriminate;
      try (cbn [createTypewriter state_of typed_timers timers next_tid clock
                delayedStartTimeout autoHideTimeout with_dom List.length];
           rewrite app_nil_r, Nat.add_0_r; repeat split).
    rewrite createTypewriter_50. cbn [state_of typed_timers].
    repeat split. }
  destruct a as [d | | d | | | sp | cb | | | |];
    cbn [gone_by spawned is_delayed_start];
    try solve [cbn [exec state_of timers next_tid clock delayedStartTimeout
                    autoHideTimeout with_dom List.length];
               rewrite Hid, app_nil_r, Nat.add_0_r; repeat split].
  - (* DelayedStart *)
    cbn [exec].
    change (setTimeout Expand 500) with (setTimeout Expand (inject_Z 500)).
    change (setTimeout (Reveal d) 2000)
      with (setTimeout (Reveal d) (inject_Z 2000)).
    change (setTimeout AutoHide 12000) with (setTimeout AutoHide (inject_Z 12000)).
    rewrite !setTimeout_ms by lia.
    cbn [snd state_of timers next_tid clock delayedStartTimeout autoHideTimeout
         set_autoHideTimeout with_dom List.length].
    rewrite Hid, <- !app_assoc. cbn [app].
    split; [repeat f_equal; lia |].
    split; [lia |]. split; [reflexivity |]. split; [reflexivity |].
    f_equal. lia.
  - (* Reveal *)
    cbn [exec]. rewrite createTypewriter_50.
    change (setTimeout ShimmerOff 1300) with (setTimeout ShimmerOff (inject_Z 1300)).
    rewrite setTimeout_ms by lia.
    cbn [snd state_of timers next_tid clock delayedStartTimeout autoHideTimeout
         register with_dom dom nodes set_tc_opacity].
    rewrite Hid, <- app_assoc, length_app.
    split; [| split; [cbn [List.length]; lia | repeat split]].
    reflexivity.
  - (* AutoHide *)
    cbn [exec state_of]. rewrite stop_eq.
    cbn [timers next_tid clock delayedStartTimeout autoHideTimeout register
         with_dom].
    rewrite cleared_tracked, !(proj1 (clearTimeout_frame _ _)),
      !(proj1 (proj2 (clearTimeout_frame _ _))).
    split; [reflexivity |]. split; [reflexivity |]. split; [reflexivity |].
    rewrite !(proj2 (proj2 (proj2 (proj2 (proj2 (clearTimeout_frame _ _)))))),
      !(proj1 (proj2 (proj2 (proj2 (proj2 (clearTimeout_frame _ _)))))).
    split; reflexivity.
  - (* Tick *)
    rewrite (exec_effect sw (Tick sp) _ s eq_refl).
    cbn [state_of timers next_tid clock delayedStartTimeout autoHideTimeout
         with_dom List.length].
    rewrite Hid, app_nil_r, Nat.add_0_r. repeat split.
  - (* TypeDone *)
    destruct cb as [d | d |]; cbn [exec run_callback spawned]; rewrite Hid.
    + apply Htyped.
    + apply Htyped.
    + cbn [state_of List.length]. rewrite app_nil_r, Nat.add_0_r. repeat split.
Qed.

Lemma fire_registry (sw : Dom -> Z) (x : timer) (s : State) :
  let now := Z.max (clock s) (due x) in
  let new := spawned (act x) (next_tid s) (List.length (nodes (dom s))) now in
  timers (fire sw x s)
  = filter (fun y => negb (Nat.eqb (tid y) (tid x) || gone_by (act x) s y))
      (timers s) ++ new
  /\ next_tid (fire sw x s) = (next_tid s + List.length new)%nat
  /\ clock (fire sw x s) = now
  /\ delayedStartTimeout (fire sw x s) = delayedStartTimeout s
  /\ autoHideTimeout (fire sw x s)
     = (if is_delayed_start (act x) then Some (next_tid s + 2)%nat
        else autoHideTimeout s).
Proof.
  cbv zeta. unfold fire.
  set (s1 := set_clock _ (clearTimeout (Some (tid x)) s)).
  pose proof (exec_registry sw (act x) s1) as H. cbv zeta in H.
  assert (Hg : gone_by (act x) s1 = gone_by (act x) s)
    by (destruct (act x); reflexivity).
  rewrite Hg in H.
  assert (Ht : filter (fun y => negb (gone_by (act x) s y)) (timers s1)
               = filter (fun y => negb (Nat.eqb (tid y) (tid x)
                                        || gone_by (act x) s y)) (timers s)).
  { unfold s1. cbn [timers set_clock clearTimeout set_timers].
    rewrite filter_twice. apply filter_ext. intros y. now rewrite negb_orb. }
  rewrite Ht in H.
  change (next_tid s1) with (next_tid s) in H.
  change (nodes (dom s1)) with (nodes (dom s)) in H.
  change (clock s1) with (Z.max (clock s) (due x)) in H.
  change (delayedStartTimeout s1) with (delayedStartTimeout s) in H.
  change (autoHideTimeout s1) with (autoHideTimeout s) in H.
  destruct (exec sw (act x) s1) as [s' | s']; exact H.
Qed.

(** ** The two tracked timers never race *)

Lemma coherent_step (s s' : State) (keep : timer -> bool) (new : list timer) :
  coherent s ->
  timers s' = filter keep (timers s) ++ new ->
  next_tid s' = (next_tid s + List.length new)%nat ->
  map tid new = seq (next_tid s) (List.length new) ->
  (forall x, In x new -> is_delayed_start (act x) = true ->
             delayedStartTimeout s' = Some (tid x)) ->
  (forall x, In x new -> is_auto_hide (act x) = true ->
             autoHideTimeout s' = Some (tid x)) ->
  (delayedStartTimeout s' = delayedStartTimeout s
   \/ exists x, In x new /\ is_delayed_start (act x) = true
                /\ delayedStartTimeout s' = Some (tid x)) ->
  (autoHideTimeout s' = autoHideTimeout s
   \/ exists x, In x new /\ is_auto_hide (act x) = true
                /\ autoHideTimeout s' = Some (tid x)) ->
  ((exists x, In x new
              /\ (is_delayed_start (act x) || is_auto_hide (act x)) = true) ->
   forall y, In y (timers s) -> keep y = true ->
             is_delayed_start (act y) = false /\ is_auto_hide (act y) = false) ->
  (forall x y, In x new -> In y new ->
               is_delayed_start (act x) = true -> is_auto_hide (act y) = true ->
               False) ->
  coherent s'.
Proof.
  intros (Hnd & Hlt & Hh & Hds & Hah & Hex) Ht Hn Htids Hnds Hnah Hd' Ha' Hdrop
    Hnew.
  assert (Hnew_tid : forall x, In x new ->
                               (next_tid s <= tid x < next_tid s')%nat).
  { intros x Hx. apply (in_map tid) in Hx. rewrite Htids in Hx.
    apply in_seq in Hx. lia. }
  assert (armed_new :
            forall x, In x new ->
                      is_delayed_start (act x) = true
                      \/ is_auto_hide (act x) = true ->
                      exists x, In x new
                                /\ (is_delayed_start (act x)
                                    || is_auto_hide (act x)) = true).
  { intros x Hx E. exists x. split; [exact Hx |].
    apply orb_true_iff. exact E. }
  assert (Hkept : forall x, In x (filter keep (timers s)) ->
                            In x (timers s) /\ keep x = true)
    by (intros x Hx; now apply filter_In in Hx).
  assert (Hnd_new : NoDup (map tid new)) by (rewrite Htids; apply seq_NoDup).
  assert (Hsame : forall x y, In x new -> In y new -> tid x = tid y -> x = y).
  { intros x y Hx Hy E.
    destruct (In_nth _ _ x Hx) as (i & Hi & Ei).
    destruct (In_nth _ _ x Hy) as (j & Hj & Ej).
    assert (i = j).
    { apply (proj1 (NoDup_nth (map tid new) (tid x)) Hnd_new);
        rewrite ?length_map; try assumption.
      rewrite !(map_nth tid). now rewrite Ei, Ej. }
    subst j. now rewrite <- Ei, <- Ej. }
  assert (Hin : forall x, In x (timers s') ->
                          (In x (timers s) /\ keep x = true) \/ In x new).
  { intros x Hx. rewrite Ht in Hx. apply in_app_or in Hx.
    destruct Hx as [Hx | Hx]; [left; now apply Hkept | now right]. }
  split.
  { rewrite Ht, map_app. apply NoDup_app; [| exact Hnd_new |].
    - assert (Hincl : forall l, NoDup (map tid l) ->
                                NoDup (map tid (filter keep l))).
      { induction l as [| a l IH]; cbn [filter map]; intros Hl; [constructor |].
        inversion Hl as [| ? ? Hna Hl']; subst.
        destruct (keep a); cbn [map]; [| now apply IH].
        constructor; [| now apply IH].
        intros Hc. apply Hna. apply in_map_iff in Hc.
        destruct Hc as (z & Ez & Hz). apply filter_In in Hz.
        apply in_map_iff. exists z. tauto. }
      now apply Hincl.
    - intros i Hi Hi'. apply in_map_iff in Hi. destruct Hi as (z & <- & Hz).
      apply Hkept in Hz. destruct Hz as (Hz & _). apply Hlt in Hz.
      rewrite Htids in Hi'. apply in_seq in Hi'. lia. }
  split.
  { intros x Hx. destruct (Hin x Hx) as [(Hx' & _) | Hx'].
    - apply Hlt in Hx'. lia.
    - now apply Hnew_tid. }
  split.
  { intros h [E | E].
    - destruct Ha' as [Ha' | (x & Hx & _ & Ha')]; rewrite Ha' in E.
      + assert (h < next_tid s)%nat by (apply Hh; now left). lia.
      + injection E as <-. now apply Hnew_tid.
    - destruct Hd' as [Hd' | (x & Hx & _ & Hd')]; rewrite Hd' in E.
      + assert (h < next_tid s)%nat by (apply Hh; now right). lia.
      + injection E as <-. now apply Hnew_tid. }
  split.
  { intros x Hx. destruct (Hin x Hx) as [(Hx' & Hk) | Hx'].
    - pose proof (Hlt x Hx') as Hxlt.
      destruct Hd' as [Hd' | (x0 & Hx0 & Ex0 & Hd')]; rewrite Hd'.
      + apply Hds, Hx'.
      + assert (Hno : is_delayed_start (act x) = false).
        { apply (Hdrop (armed_new x0 Hx0 (or_introl Ex0)) x Hx' Hk). }
        rewrite Hno. split; [discriminate |].
        intros E. injection E as E. apply Hnew_tid in Hx0. lia.
    - split; [now apply Hnds |].
      intros E.
      destruct Hd' as [Hd' | (x0 & Hx0 & Ex0 & Hd')]; rewrite Hd' in E.
      + assert (tid x < next_tid s)%nat by (apply Hh; now right).
        apply Hnew_tid in Hx'. lia.
      + injection E as E.
        now rewrite (Hsame x x0 Hx' Hx0 (eq_sym E)). }
  split.
  { intros x Hx. destruct (Hin x Hx) as [(Hx' & Hk) | Hx'].
    - pose proof (Hlt x Hx') as Hxlt.
      destruct Ha' as [Ha' | (x0 & Hx0 & Ex0 & Ha')]; rewrite Ha'.
      + apply Hah, Hx'.
      + assert (Hno : is_auto_hide (act x) = false).
        { apply (Hdrop (armed_new x0 Hx0 (or_intror Ex0)) x Hx' Hk). }
        rewrite Hno. split; [discriminate |].
        intros E. injection E as E. apply Hnew_tid in Hx0. lia.
    - split; [now apply Hnah |].
      intros E.
      destruct Ha' as [Ha' | (x0 & Hx0 & Ex0 & Ha')]; rewrite Ha' in E.
      + assert (tid x < next_tid s)%nat by (apply Hh; now left).
        apply Hnew_tid in Hx'. lia.
      + injection E as E.
        now rewrite (Hsame x x0 Hx' Hx0 (eq_sym E)). }
  intros x y Hx Hy Ex Ey.
  destruct (Hin x Hx) as [(Hx' & Hkx) | Hx'], (Hin y Hy) as [(Hy' & Hky) | Hy'].
  - exact (Hex x y Hx' Hy' Ex Ey).
  - destruct (Hdrop (armed_new y Hy' (or_intror Ey)) x Hx' Hkx) as (Hno & _).
    congruence.
  - destruct (Hdrop (armed_new x Hx' (or_introl Ex)) y Hy' Hky) as (_ & Hno).
    congruence.
  - exact (Hnew x y Hx' Hy' Ex Ey).
Qed.

Lemma play_registry (arg : option request) (s : State) :
  timers (play arg s)
  = filter (fun x => negb (tracked s x)) (timers s)
    ++ [{| tid := next_tid s; due := clock s + 1000;
           act := DelayedStart (data_of arg) |}]
  /\ next_tid (play arg s) = (next_tid s + 1)%nat
  /\ clock (play arg s) = clock s
  /\ delayedStartTimeout (play arg s) = Some (next_tid s)
  /\ autoHideTimeout (play arg s) = autoHideTimeout s.
Proof.
  rewrite play_eq.
  cbn [timers next_tid clock delayedStartTimeout autoHideTimeout
       set_delayedStartTimeout register with_dom List.length].
  rewrite cleared_tracked, !(proj1 (clearTimeout_frame _ _)),
    !(proj1 (proj2 (clearTimeout_frame _ _))),
    !(proj1 (proj2 (proj2 (proj2 (proj2 (clearTimeout_frame _ _)))))).
  repeat split.
Qed.

Lemma stop_registry (s : State) :
  timers (stop s)
  = filter (fun x => negb (tracked s x)) (timers s)
    ++ exit_timers (next_tid s) (clock s)
  /\ next_tid (stop s) = (next_tid s + 4)%nat
  /\ clock (stop s) = clock s
  /\ delayedStartTimeout (stop s) = delayedStartTimeout s
  /\ autoHideTimeout (stop s) = autoHideTimeout s.
Proof.
  rewrite stop_eq.
  cbn [timers next_tid clock delayedStartTimeout autoHideTimeout register
       with_dom List.length exit_timers].
  rewrite cleared_tracked, !(proj1 (clearTimeout_frame _ _)),
    !(proj1 (proj2 (clearTimeout_frame _ _))),
    !(proj1 (proj2 (proj2 (proj2 (proj2 (clearTimeout_frame _ _)))))),
    !(proj2 (proj2 (proj2 (proj2 (proj2 (clearTimeout_frame _ _)))))).
  repeat split.
Qed.

Lemma coherent_tracked (s : State) (x : timer) :
  coherent s -> In x (timers s) ->
  tracked s x = is_delayed_start (act x) || is_auto_hide (act x).
Proof.
  intros (_ & _ & _ & Hds & Hah & _) Hx.
  specialize (Hds x Hx). specialize (Hah x Hx). unfold tracked.
  destruct (is_delayed_start (act x)) eqn:Ed, (is_auto_hide (act x)) eqn:Ea.
  - rewrite (proj1 Hds eq_refl), Nat.eqb_refl. apply orb_true_r.
  - rewrite (proj1 Hds eq_refl), Nat.eqb_refl. apply orb_true_r.
  - rewrite (proj1 Hah eq_refl), Nat.eqb_refl. reflexivity.
  - assert (H1 : match autoHideTimeout s with
                 | Some h => Nat.eqb (tid x) h
                 | None => false
                 end = false).
    { destruct (autoHideTimeout s) as [h |]; [| reflexivity].
      apply Nat.eqb_neq. intros E.
      assert (false = true) by (apply Hah; now rewrite E). discriminate. }
    assert (H2 : match delayedStartTimeout s with
                 | Some h => Nat.eqb (tid x) h
                 | None => false
                 end = false).
    { destruct (delayedStartTimeout s) as [h |]; [| reflexivity].
      apply Nat.eqb_neq. intros E.
      assert (false = true) by (apply Hds; now rewrite E). discriminate. }
    now rewrite H1, H2.
Qed.

Lemma coherent_page_load : coherent page_load.
Proof.
  split; [constructor |]. split; [intros x [] |].
  split; [intros h [E | E]; discriminate |].
  split; [intros x [] |]. split; [intros x [] |]. intros x y [].
Qed.

Lemma coherent_play (arg : option request) (s : State) :
  coherent s -> coherent (play arg s).
Proof.
  intros H.
  destruct (play_registry arg s) as (Ht & Hn & _ & Hd & Ha).
  apply (coherent_step s _ _ _ H Ht Hn); try reflexivity.
  - intros x [<- | []] _. exact Hd.
  - intros x [<- | []]. discriminate.
  - right. eexists. split; [left; reflexivity |]. split; [reflexivity | exact Hd].
  - now left.
  - intros _ y Hy Hk. apply negb_true_iff in Hk.
    rewrite (coherent_tracked s y H Hy) in Hk. now apply orb_false_iff in Hk.
  - intros x y [<- | []] [<- | []] _. discriminate.
Qed.

Lemma coherent_stop (s : State) : coherent s -> coherent (stop s).
Proof.
  intros H.
  destruct (stop_registry s) as (Ht & Hn & _ & Hd & Ha).
  apply (coherent_step s _ _ _ H Ht Hn).
  - cbn. repeat f_equal; lia.
  - intros x Hx. in_cases Hx; subst x; discriminate.
  - intros x Hx. in_cases Hx; subst x; discriminate.
  - now left.
  - now left.
  - intros (x & Hx & E). in_cases Hx; subst x; discriminate.
  - intros x y Hx. in_cases Hx; subst x; discriminate.
Qed.

Lemma typewriter_timers_acts (str : string) (cb : callback) (h first : nat)
    (now : Z) (y : timer) :
  In y (typewriter_timers str cb h first now) ->
  (exists sp, act y = Tick sp) \/ act y = TypeDone cb.
Proof.
  unfold typewriter_timers. intros Hy. apply in_app_or in Hy.
  destruct Hy as [Hy | [<- | []]]; [| now right].
  apply in_map_iff in Hy. destruct Hy as (i & <- & _). left. now eexists.
Qed.

Lemma spawned_kinds (a : action) (h first : nat) (now : Z) (y : timer) :
  In y (spawned a h first now) ->
  is_delayed_start (act y) = false
  /\ (is_auto_hide (act y) = true ->
      is_delayed_start a = true /\ tid y = (h + 2)%nat).
Proof.
  assert (Htw : forall str cb,
             In y (typewriter_timers str cb h first now) ->
             is_delayed_start (act y) = false /\ is_auto_hide (act y) = false).
  { intros str cb Hy. apply typewriter_timers_acts in Hy.
    destruct Hy as [(sp & ->) | ->]; split; reflexivity. }
  assert (Hty : forall text cb,
             In y (typed_timers text cb h first now) ->
             is_delayed_start (act y) = false /\ is_auto_hide (act y) = false).
  { intros text cb Hy. destruct text; try (now destruct Hy);
      now apply Htw in Hy. }
  destruct a as [d | | d | | | sp | cb | | | |]; cbn [spawned]; intros Hy;
    try (now destruct Hy).
  - in_cases Hy; subst y; cbn; split; try reflexivity; try discriminate.
    intros _. split; reflexivity.
  - apply in_app_or in Hy. destruct Hy as [Hy | [<- | []]].
    + apply Htw in Hy. destruct Hy as (-> & ->). split; [reflexivity | discriminate].
    + split; [reflexivity | discriminate].
  - in_cases Hy; subst y; split; try reflexivity; discriminate.
  - destruct cb as [d | d |]; try (now destruct Hy);
      apply Hty in Hy; destruct Hy as (-> & ->);
      (split; [reflexivity | discriminate]).
Qed.

Lemma coherent_fire (sw : Dom -> Z) (x : timer) (s : State) :
  coherent s -> In x (timers s) -> coherent (fire sw x s).
Proof.
  intros H Hx.
  destruct (fire_registry sw x s) as (Ht & Hn & _ & Hd & Ha). cbv zeta in *.
  pose proof H as (_ & _ & _ & Hds & Hah & Hex).
  apply (coherent_step s _ _ _ H Ht Hn).
  - apply spawned_tids.
  - intros y Hy E. apply spawned_kinds in Hy. destruct Hy as (Hy & _).
    congruence.
  - intros y Hy E. apply spawned_kinds in Hy. destruct Hy as (_ & Hy).
    destruct (Hy E) as (Ex & Etid). rewrite Ha, Ex, Etid. reflexivity.
  - now left.
  - destruct (act x) as [d | | d | | | sp | cb | | | |] eqn:Eact;
      try (left; exact Ha).
    right. eexists. split; [right; right; left; reflexivity |].
    split; [reflexivity | exact Ha].
  - intros (y & Hy & E) z Hz Hk.
    apply spawned_kinds in Hy. destruct Hy as (Hno & Hy).
    rewrite Hno in E. cbn [orb] in E. destruct (Hy E) as (Ex & _).
    apply negb_true_iff, orb_false_iff in Hk. destruct Hk as (Hk & _).
    apply Nat.eqb_neq in Hk.
    split.
    + destruct (is_delayed_start (act z)) eqn:Ez; [| reflexivity].
      elim Hk. apply (proj1 (Hds z Hz)) in Ez.
      apply (proj1 (Hds x Hx)) in Ex. congruence.
    + destruct (is_auto_hide (act z)) eqn:Ez; [| reflexivity].
      elim (Hex x z Hx Hz Ex Ez).
  - intros y z Hy _ E. apply spawned_kinds in Hy. destruct Hy as (Hy & _).
    congruence.
Qed.

Lemma coherent_set_clock (c : Z) (s : State) :
  coherent s -> coherent (set_clock c s).
Proof. intros H. exact H. Qed.

Lemma coherent_session (sw : Dom -> Z) (fuel : nat)
    (script : list (Z * command)) (T : Z) (s s' : State) :
  coherent s -> session sw fuel script T s = Some s' -> coherent s'.
Proof.
  apply (session_invariant sw coherent).
  - intros c st Hst. destruct c; cbn [run_command]; unfold update;
      [now apply coherent_play | now apply coherent_play
      | now apply coherent_stop].
  - intros t x st Hd Hst. apply coherent_fire; [exact Hst |].
    now apply due_by_In in Hd.
  - intros t st _ Hst. now apply coherent_set_clock.
Qed.

Lemma armed_after_clear (s : State) :
  coherent s ->
  filter (fun x => is_delayed_start (act x) || is_auto_hide (act x))
    (filter (fun x => negb (tracked s x)) (timers s)) = [].
Proof.
  intros H.
  assert (Hl : forall l, (forall x, In x l -> In x (timers s)) ->
             filter (fun x => is_delayed_start (act x) || is_auto_hide (act x))
               (filter (fun x => negb (tracked s x)) l) = []).
  { induction l as [| a l IH]; intros Hin; [reflexivity |].
    cbn [filter].
    rewrite (coherent_tracked s a H (Hin a (or_introl eq_refl))).
    destruct (is_delayed_start (act a) || is_auto_hide (act a)) eqn:E;
      cbn [negb filter]; [| rewrite E]; apply IH; intros x Hx; apply Hin;
      now right. }
  now apply Hl.
Qed.

Lemma armed_at_most_one (s : State) :
  coherent s -> (List.length (armed s) <= 1)%nat.
Proof.
  intros H. pose proof H as (Hnd & _ & _ & Hds & Hah & Hex).
  assert (Hsame : forall x y, In x (armed s) -> In y (armed s) -> tid x = tid y).
  { intros x y Hx Hy. unfold armed in Hx, Hy.
    apply filter_In in Hx, Hy. destruct Hx as (Hx & Ex), Hy as (Hy & Ey).
    apply orb_true_iff in Ex, Ey.
    destruct Ex as [Ex | Ex], Ey as [Ey | Ey].
    - apply (proj1 (Hds x Hx)) in Ex. apply (proj1 (Hds y Hy)) in Ey. congruence.
    - elim (Hex x y Hx Hy Ex Ey).
    - elim (Hex y x Hy Hx Ey Ex).
    - apply (proj1 (Hah x Hx)) in Ex. apply (proj1 (Hah y Hy)) in Ey. congruence. }
  assert (Hnd' : NoDup (map tid (armed s))).
  { unfold armed. clear Hsame.
    induction (timers s) as [| a l IH]; cbn [filter map]; [constructor |].
    inversion Hnd as [| ? ? Hna Hl]; subst.
    destruct (is_delayed_start (act a) || is_auto_hide (act a)); cbn [map];
      [| apply IH; try assumption; intros; (apply Hds || apply Hah || eapply Hex);
         try eassumption; now right].
    constructor.
    - intros Hc. apply Hna. apply in_map_iff in Hc.
      destruct Hc as (z & Ez & Hz). apply filter_In in Hz.
      apply in_map_iff. exists z. tauto.
    - apply IH; try assumption; intros; (apply Hds || apply Hah || eapply Hex);
        try eassumption; now right. }
  destruct (armed s) as [| a [| b l]]; cbn [List.length]; try lia.
  exfalso. cbn [map] in Hnd'. inversion Hnd' as [| ? ? Hna _]; subst.
  apply Hna. left. symmetry. apply Hsame; cbn [In]; tauto.
Qed.

(** X3. The two timers whose handles the script keeps never race. In every
    session from a state in which the two globals and the registry agree
    (the page as loaded is one), whatever the commands and their times:
    at most one delayed start or auto-hide is pending at any time, the
    script holds its handle, a [stop] leaves none pending, and a [play] or
    [update] leaves exactly its own delayed start, due 1000 ms later. *)
Theorem tracked_timers_never_race (sw : Dom -> Z)
    (script : list (Z * command)) (T : Z) (fuel : nat) (s : State) :
  coherent s ->
  (backlog s + list_sum (map (fun tc => command_weight (snd tc)) script)
   <= fuel)%nat ->
  exists s',
    session sw fuel script T s = Some s'
    /\ (List.length (armed s') <= 1)%nat
    /\ (forall x, In x (armed s') -> tracked s' x = true)
    /\ armed (stop s') = []
    /\ forall arg,
         armed (play arg s')
         = [{| tid := next_tid s'; due := clock s' + 1000;
               act := DelayedStart (data_of arg) |}]
         /\ armed (update arg s') = armed (play arg s').
Proof.
  intros Hs Hfuel.
  destruct (session_returns sw T fuel script s Hfuel) as (s' & Hrun).
  pose proof (coherent_session sw fuel script T s s' Hs Hrun) as H'.
  exists s'. split; [exact Hrun |].
  split; [now apply armed_at_most_one |].
  split.
  { intros x Hx. unfold armed in Hx. apply filter_In in Hx.
    destruct Hx as (Hx & E). now rewrite (coherent_tracked s' x H' Hx). }
  split.
  { unfold armed. rewrite (proj1 (stop_registry s')), filter_app.
    now rewrite (armed_after_clear s' H'). }
  intros arg. split; [| reflexivity].
  unfold armed. rewrite (proj1 (play_registry arg s')), filter_app.
  now rewrite (armed_after_clear s' H').
Qed.

(** Witness: two [play]s 1100 ms apart on the page as loaded, read 100 ms
    after the second. *)
Lemma tracked_timers_never_race_witness :
  coherent page_load
  /\ exists s',
       session glyph_layout 60
         [(0, Play (Some request_AB)); (1100, Play (Some request_CD))] 1200
         page_load = Some s'
       /\ (List.length (armed s') <= 1)%nat
       /\ armed (stop s') = [].
Proof.
  split; [exact coherent_page_load |].
  destruct (tracked_timers_never_race glyph_layout
              [(0, Play (Some request_AB)); (1100, Play (Some request_CD))]
              1200 60%nat page_load coherent_page_load)
    as (s' & Hrun & Hlen & _ & Hstop & _).
  { vm_compute. lia. }
  exists s'. split; [exact Hrun |]. split; [exact Hlen | exact Hstop].
Defined.

(** ** Every session comes to rest *)

Lemma typing_time_nonneg (v : jsval) : 0 <= typing_time v.
Proof.
  destruct v as [| | b | n | | str | | str]; cbn [typing_time]; try lia;
    destruct (100 <? String.length str)%nat; lia.
Qed.

Lemma lifetime_nonneg (a : action) : 0 <= lifetime a.
Proof.
  destruct a as [d | | d | | | sp | cb | | | |]; cbn [lifetime]; try lia.
  destruct cb as [d | d |]; try lia.
  - pose proof (typing_time_nonneg (js_or (artist d) "Artist Name")).
    pose proof (typing_time_nonneg (js_or (song d) "Song Title")). lia.
  - apply typing_time_nonneg.
Qed.

Lemma typed_timers_lifetime (text : jsval) (cb : callback) (h first : nat)
    (now : Z) (y : timer) :
  In y (typed_timers text cb h first now) ->
  now <= due y
  /\ due y + lifetime (act y) <= now + typing_time text + lifetime (TypeDone cb).
Proof.
  unbox text.
  pose proof (lifetime_nonneg (TypeDone cb)) as Hcb.
  destruct text as [| | b | n | | str | | str]; try discriminate;
    try (now intros []).
  cbn [typed_timers typing_time]. unfold typewriter_timers.
  set (rate := if (100 <? String.length str)%nat then 25 else 50).
  assert (Hrate : 0 <= rate) by (unfold rate; destruct (_ <? _)%nat; lia).
  intros Hy. apply in_app_or in Hy. destruct Hy as [Hy | [<- | []]].
  - apply in_map_iff in Hy. destruct Hy as (i & <- & Hi). apply in_seq in Hi.
    unfold ms_tick. cbn [due act]. change (lifetime (Tick (first + i))) with 0.
    clearbody rate. split; nia.
  - cbn [due act]. clearbody rate. split; nia.
Qed.

Lemma spawned_lifetime (a : action) (h first : nat) (now : Z) (y : timer) :
  In y (spawned a h first now) ->
  now <= due y /\ due y + lifetime (act y) <= now + lifetime a.
Proof.
  destruct a as [d | | d | | | sp | cb | | | |]; cbn [spawned];
    try (now intros []).
  - pose proof (lifetime_nonneg (Reveal d)) as Hr.
    intros Hy. in_cases Hy; subst y; cbn [due act];
      change (lifetime Expand) with 0; change (lifetime AutoHide) with 3500;
      cbn [lifetime] in *; lia.
  - pose proof (lifetime_nonneg (TypeDone (CbArtist d))) as Ha.
    intros Hy. apply in_app_or in Hy. destruct Hy as [Hy | [<- | []]].
    + apply (typed_timers_lifetime (JStr "Now Playing:")) in Hy.
      change (typing_time (JStr "Now Playing:")) with 1100 in Hy.
      cbn [lifetime] in *. lia.
    + cbn [due act lifetime] in *. lia.
  - intros Hy. in_cases Hy; subst y; cbn [due act lifetime]; lia.
  - destruct cb as [d | d |]; try (now intros []); intros Hy;
      apply typed_timers_lifetime in Hy; cbn [lifetime] in *; lia.
Qed.

Lemma fire_settles (sw : Dom -> Z) (H t : Z) (x : timer) (s : State) :
  punctual s -> settles_by H s -> due_by t s = Some x ->
  punctual (fire sw x s) /\ settles_by H (fire sw x s)
  /\ clock (fire sw x s) = due x.
Proof.
  intros Hp Hs Hd.
  destruct (fire_registry sw x s) as (Ht & _ & Hc & _). cbv zeta in *.
  assert (Hx : In x (timers s)) by (now apply due_by_In in Hd).
  assert (Hnow : Z.max (clock s) (due x) = due x) by (apply Z.max_r, Hp, Hx).
  rewrite Hnow in *.
  assert (Hmin : forall y, In y (timers s) -> due x <= due y).
  { intros y Hy. unfold due_by in Hd.
    destruct (next_timer (timers s)) as [m |] eqn:Hm; [| discriminate].
    destruct (due m <=? t); [| discriminate]. injection Hd as ->.
    pose proof (next_timer_min _ _ Hm y Hy) as Hnb. unfold fires_before in Hnb.
    lia. }
  split; [| split; [| exact Hc]].
  - intros y Hy. rewrite Ht in Hy. rewrite Hc. apply in_app_or in Hy.
    destruct Hy as [Hy | Hy].
    + apply filter_In in Hy. apply Hmin, Hy.
    + now apply spawned_lifetime in Hy.
  - intros y Hy. rewrite Ht in Hy. apply in_app_or in Hy.
    destruct Hy as [Hy | Hy].
    + apply filter_In in Hy. apply Hs, Hy.
    + apply spawned_lifetime in Hy. specialize (Hs x Hx). lia.
Qed.

Lemma advance_settles (sw : Dom -> Z) (H t : Z) (fuel : nat) :
  forall s s',
    punctual s -> settles_by H s -> advance sw fuel t s = Some s' ->
    punctual s' /\ settles_by H s' /\ clock s' = Z.max (clock s) t
    /\ forall x, In x (timers s') -> t < due x.
Proof.
  induction fuel as [| f IH]; intros s s' Hp Hs Hrun; cbn [advance] in Hrun;
    destruct (due_by t s) as [x |] eqn:Hd; try discriminate.
  - injection Hrun as <-. pose proof (due_by_none _ _ Hd) as Hlate.
    split; [| split; [exact Hs | split; [reflexivity | exact Hlate]]].
    intros y Hy. cbn [timers clock set_clock] in *.
    specialize (Hp y Hy). specialize (Hlate y Hy). lia.
  - destruct (fire_settles sw H t x s Hp Hs Hd) as (Hp1 & Hs1 & Hc1).
    destruct (IH _ _ Hp1 Hs1 Hrun) as (Hp' & Hs' & Hc' & Hlate).
    repeat split; try assumption.
    apply due_by_In in Hd. destruct Hd as (Hx & Hdue).
    specialize (Hp x Hx). lia.
  - injection Hrun as <-. pose proof (due_by_none _ _ Hd) as Hlate.
    split; [| split; [exact Hs | split; [reflexivity | exact Hlate]]].
    intros y Hy. cbn [timers clock set_clock] in *.
    specialize (Hp y Hy). specialize (Hlate y Hy). lia.
Qed.

Lemma command_settles (H : Z) (c : command) (s : State) :
  punctual s -> settles_by H s -> clock s + command_time c <= H ->
  punctual (run_command c s) /\ settles_by H (run_command c s)
  /\ clock (run_command c s) = clock s.
Proof.
  intros Hp Hs Hc.
  assert (Hplay : forall arg,
             clock s + (1000 + lifetime (DelayedStart (data_of arg))) <= H ->
             punctual (play arg s) /\ settles_by H (play arg s)
             /\ clock (play arg s) = clock s).
  { intros arg Hb. destruct (play_registry arg s) as (Ht & _ & Hck & _).
    split; [| split; [| exact Hck]]; intros y Hy; rewrite Ht in Hy;
      rewrite ?Hck; apply in_app_or in Hy;
      (destruct Hy as [Hy | [<- | []]];
       [apply filter_In in Hy; (apply Hp || apply Hs); apply Hy
       | cbn [due act]; lia]). }
  destruct c as [arg | arg |]; cbn [run_command command_time] in *;
    unfold update; try (now apply Hplay).
  destruct (stop_registry s) as (Ht & _ & Hck & _).
  split; [| split; [| exact Hck]]; intros y Hy; rewrite Ht in Hy;
    rewrite ?Hck; apply in_app_or in Hy;
    (destruct Hy as [Hy | Hy];
     [apply filter_In in Hy; (apply Hp || apply Hs); apply Hy
     | in_cases Hy; subst y; cbn [due act lifetime]; lia]).
Qed.

Lemma session_settles (sw : Dom -> Z) (H : Z) (fuel : nat)
    (script : list (Z * command)) (T : Z) :
  forall s s',
    punctual s -> settles_by H s ->
    (forall t c t' c', In (t, c) script -> In (t', c') script ->
                       Z.max (clock s) t + command_time c' <= H) ->
    session sw fuel script T s = Some s' ->
    punctual s' /\ settles_by H s'
    /\ forall x, In x (timers s') -> T < due x.
Proof.
  induction script as [| [t c] rest IH]; intros s s' Hp Hs Hscript Hrun;
    cbn [session] in Hrun.
  - destruct (advance_settles sw H T fuel s s' Hp Hs Hrun) as (H1 & H2 & _ & H4).
    repeat split; assumption.
  - destruct (advance sw fuel t s) as [s1 |] eqn:E1; [| discriminate].
    destruct (advance_settles sw H t fuel s s1 Hp Hs E1) as (Hp1 & Hs1 & Hc1 & _).
    destruct (command_settles H c s1 Hp1 Hs1) as (Hp2 & Hs2 & Hc2).
    { rewrite Hc1. apply (Hscript t c t c); now left. }
    apply (IH _ _ Hp2 Hs2); [| exact Hrun].
    intros u a u' a' Hu Hu'. rewrite Hc2, Hc1.
    pose proof (Hscript u a u' a' (or_intror Hu) (or_intror Hu')).
    pose proof (Hscript t c u' a' (or_introl eq_refl) (or_intror Hu')).
    lia.
Qed.

(** ** The box and the logo end off stage *)

Lemma fire_positions (sw : Dom -> Z) (x : timer) (s : State) :
  lt_bottom (dom (fire sw x s))
  = match act x with
    | DelayedStart _ => Some 40
    | ExitBox => Some (-200)
    | _ => lt_bottom (dom s)
    end
  /\ logo_bottom (dom (fire sw x s))
     = match act x with
       | DelayedStart _ | ExitLogoStage => Some (-80)
       | ExitLogoOff => Some (-350)
       | _ => logo_bottom (dom s)
       end.
Proof.
  unfold fire.
  set (s1 := set_clock _ (clearTimeout (Some (tid x)) s)).
  assert (Hd : dom s1 = dom s)
    by (unfold s1; cbn [dom set_clock];
        apply (proj1 (proj2 (proj2 (clearTimeout_frame _ _))))).
  rewrite <- Hd. clearbody s1. clear Hd.
  assert (Hrep : forall st, dom (report_exception st) = dom st) by reflexivity.
  assert (Htyped : forall el text cb,
             lt_bottom (dom (state_of (createTypewriter el text 50 (Some cb) s1)))
             = lt_bottom (dom s1)
             /\ logo_bottom (dom (state_of (createTypewriter el text 50 (Some cb) s1)))
                = logo_bottom (dom s1)).
  { intros el text cb.
    pose proof (createTypewriter_styles el text 50 cb s1) as Hk.
    apply styles_written_text in Hk. tauto. }
  destruct (act x) as [d | | d | | | sp | cb | | | |]; cbn [exec];
    try (split; reflexivity).
  - rewrite stop_eq. cbn [dom register with_dom].
    rewrite !(proj1 (proj2 (proj2 (clearTimeout_frame _ _)))).
    split; reflexivity.
  - unfold reveal_tick. cbn [dom with_dom show_span set_nodes lt_width].
    destruct (lt_width (dom s1)) as [w |]; [destruct (w <? _) |];
      split; reflexivity.
  - destruct cb as [d | d |]; cbn [run_callback]; [| | split; reflexivity].
    + destruct (Htyped Artist (js_or (artist d) "Artist Name") (CbSong d))
        as (Hb & Hl).
      destruct (createTypewriter _ _ _ _ _); cbn [state_of] in *;
        rewrite ?Hrep; now split.
    + destruct (Htyped Song (js_or (song d) "Song Title") CbDone) as (Hb & Hl).
      destruct (createTypewriter _ _ _ _ _); cbn [state_of] in *;
        rewrite ?Hrep; now split.
Qed.

Lemma spawned_exits (a : action) (h first : nat) (now : Z) (z : timer) :
  In z (spawned a h first now) ->
  act z = ExitLogoStage \/ act z = ExitLogoOff \/ act z = ExitBox ->
  a = AutoHide.
Proof.
  assert (Htw : forall str cb,
             In z (typewriter_timers str cb h first now) ->
             act z = ExitLogoStage \/ act z = ExitLogoOff \/ act z = ExitBox ->
             False).
  { intros str cb Hz E. apply typewriter_timers_acts in Hz.
    destruct Hz as [(sp & Hz) | Hz]; rewrite Hz in E;
      destruct E as [E | [E | E]]; discriminate. }
  assert (Hty : forall text cb,
             In z (typed_timers text cb h first now) ->
             act z = ExitLogoStage \/ act z = ExitLogoOff \/ act z = ExitBox ->
             False).
  { intros text cb Hz. destruct text; try (now destruct Hz);
      intros E; exact (Htw _ _ Hz E). }
  destruct a as [d | | d | | | sp | cb | | | |]; cbn [spawned]; intros Hz E;
    try (now destruct Hz); try reflexivity; exfalso.
  - in_cases Hz; subst z; destruct E as [E | [E | E]]; discriminate.
  - apply in_app_or in Hz. destruct Hz as [Hz | [<- | []]];
      [now apply (Htw _ _ Hz) | destruct E as [E | [E | E]]; discriminate].
  - destruct cb as [d | d |]; try (now destruct Hz); now apply (Hty _ _ Hz).
Qed.

Lemma coherent_same_tid (s : State) (x y : timer) :
  coherent s -> In x (timers s) -> In y (timers s) -> tid x = tid y -> x = y.
Proof.
  intros (Hnd & _) Hx Hy E.
  destruct (In_nth _ _ x Hx) as (i & Hi & Ei).
  destruct (In_nth _ _ x Hy) as (j & Hj & Ej).
  assert (i = j).
  { apply (proj1 (NoDup_nth (map tid (timers s)) (tid x)) Hnd);
      rewrite ?length_map; try assumption.
    rewrite !(map_nth tid). now rewrite Ei, Ej. }
  subst j. now rewrite <- Ei, <- Ej.
Qed.

(** A pending timer other than the one that fires stays pending, unless
    it is one of the two the auto-hide clears. *)
Lemma fire_keeps (sw : Dom -> Z) (x y : timer) (s : State) :
  coherent s -> In x (timers s) -> In y (timers s) -> y <> x ->
  is_delayed_start (act y) || is_auto_hide (act y) = false
  \/ act x <> AutoHide ->
  In y (timers (fire sw x s)).
Proof.
  intros H Hx Hy Hne Hk.
  rewrite (proj1 (fire_registry sw x s)). apply in_or_app. left.
  apply filter_In. split; [exact Hy |].
  apply negb_true_iff, orb_false_iff. split.
  - apply Nat.eqb_neq. intros E. apply Hne.
    now apply (coherent_same_tid s y x H Hy Hx).
  - destruct (act x); try reflexivity. cbn [gone_by].
    rewrite (coherent_tracked s y H Hy).
    destruct Hk as [Hk | Hk]; [exact Hk | now elim Hk].
Qed.

Lemma staged_fire (sw : Dom -> Z) (t : Z) (x : timer) (s : State) :
  coherent s -> staged s -> due_by t s = Some x -> staged (fire sw x s).
Proof.
  intros H (S1 & S2 & S3) Hd.
  assert (Hx : In x (timers s)) by (now apply due_by_In in Hd).
  assert (Hmin : forall y, In y (timers s) -> due x <= due y).
  { intros y Hy. unfold due_by in Hd.
    destruct (next_timer (timers s)) as [m |] eqn:Hm; [| discriminate].
    destruct (due m <=? t); [| discriminate]. injection Hd as ->.
    pose proof (next_timer_min _ _ Hm y Hy) as Hnb. unfold fires_before in Hnb.
    lia. }
  destruct (fire_positions sw x s) as (Hb & Hl).
  pose proof (proj1 (fire_registry sw x s)) as Ht. cbv zeta in Ht.
  assert (Hnew : forall z,
             In z (spawned (act x) (next_tid s) (List.length (nodes (dom s)))
                     (Z.max (clock s) (due x))) ->
             In z (timers (fire sw x s)))
    by (intros z Hz; rewrite Ht; apply in_or_app; now right).
  assert (Hkeep : forall y, In y (timers s) -> act y <> act x ->
                            act x <> AutoHide -> In y (timers (fire sw x s))).
  { intros y Hy Hne Hna. apply fire_keeps; try assumption; [| now right].
    intros ->. now apply Hne. }
  assert (Hexit : forall y, In y (timers s) -> y <> x ->
                            act y = ExitLogoOff \/ act y = ExitBox ->
                            In y (timers (fire sw x s))).
  { intros y Hy Hne E. apply fire_keeps; try assumption.
    left. destruct E as [-> | ->]; reflexivity. }
  split; [| split].
  - intros E. rewrite Hb in E.
    destruct (act x) as [d | | d | | | sp | cb | | | |] eqn:Ea;
      try discriminate;
      try (destruct (S1 E) as (y & Hy & Ey); exists y;
           split; [| exact Ey];
           apply Hkeep; [exact Hy | | discriminate];
           destruct Ey as [-> | ->]; discriminate).
    + eexists. split; [apply Hnew; right; right; left; reflexivity |].
      now left.
    + eexists. split; [apply Hnew; right; right; left; reflexivity |].
      now right.
  - intros E. rewrite Hl in E.
    destruct (act x) as [d | | d | | | sp | cb | | | |] eqn:Ea;
      try (destruct E as [E | E]; discriminate);
      try (destruct (S2 E) as (y & Hy & Ey); exists y;
           split; [| exact Ey];
           apply Hkeep; [exact Hy | | discriminate];
           destruct Ey as [Ey | [-> | ->]]; try discriminate;
           intros Ec; rewrite Ec in Ey; discriminate).
    + eexists. split; [apply Hnew; right; right; left; reflexivity |].
      right. now left.
    + eexists. split; [apply Hnew; right; right; right; left; reflexivity |].
      right. now right.
    + destruct (S3 x Hx Ea) as (y & Hy & Ey & Hlt). exists y.
      split; [| right; now right].
      apply Hexit; [exact Hy | | now left].
      intros ->. lia.
  - intros z Hz Ez. rewrite Ht in Hz. apply in_app_or in Hz.
    destruct Hz as [Hz | Hz].
    + apply filter_In in Hz. destruct Hz as (Hz & _).
      destruct (S3 z Hz Ez) as (y & Hy & Ey & Hlt). exists y.
      split; [| now split].
      apply Hexit; [exact Hy | | now left].
      intros ->. specialize (Hmin z Hz). lia.
    + pose proof (spawned_exits _ _ _ _ _ Hz (or_introl Ez)) as Ea.
      rewrite Ea in Hz, Hnew. cbn [spawned] in Hz. in_cases Hz; subst z;
        try discriminate.
      eexists. split; [apply Hnew; right; right; right; left; reflexivity |].
      split; [reflexivity | cbn [due]; lia].
Qed.

Lemma staged_command (c : command) (s : State) :
  coherent s -> staged s -> staged (run_command c s).
Proof.
  intros H (S1 & S2 & S3).
  assert (Hkept : forall y, In y (timers s) ->
             is_delayed_start (act y) || is_auto_hide (act y) = false ->
             In y (filter (fun x => negb (tracked s x)) (timers s))).
  { intros y Hy Ek. apply filter_In. split; [exact Hy |].
    now rewrite (coherent_tracked s y H Hy), Ek. }
  assert (Hplay : forall arg, staged (play arg s)).
  { intros arg. pose proof (proj1 (play_registry arg s)) as Ht.
    assert (Hdom : dom (play arg s) = play_reset (dom s)).
    { rewrite play_eq. cbn [dom set_delayedStartTimeout register with_dom].
      now rewrite !(proj1 (proj2 (proj2 (clearTimeout_frame _ _)))). }
    split; [| split].
    - rewrite Hdom. discriminate.
    - intros _. eexists. split; [rewrite Ht; apply in_or_app; right; now left |].
      now left.
    - intros z Hz Ez. rewrite Ht in Hz. apply in_app_or in Hz.
      destruct Hz as [Hz | [<- | []]]; [| discriminate].
      apply filter_In in Hz. destruct Hz as (Hz & _).
      destruct (S3 z Hz Ez) as (y & Hy & Ey & Hlt). exists y.
      split; [| now split].
      rewrite Ht. apply in_or_app. left. apply Hkept; [exact Hy |].
      now rewrite Ey. }
  destruct c as [arg | arg |]; cbn [run_command]; unfold update;
    try apply Hplay.
  pose proof (proj1 (stop_registry s)) as Ht.
  split; [| split].
  - intros _. eexists.
    split; [rewrite Ht; apply in_or_app; right; right; right; left; reflexivity |].
    now right.
  - intros _. eexists.
    split; [rewrite Ht; apply in_or_app; right; right; right; right; left;
            reflexivity |].
    right. now right.
  - intros z Hz Ez. rewrite Ht in Hz. apply in_app_or in Hz.
    destruct Hz as [Hz | Hz].
    + apply filter_In in Hz. destruct Hz as (Hz & _).
      destruct (S3 z Hz Ez) as (y & Hy & Ey & Hlt). exists y.
      split; [| now split].
      rewrite Ht. apply in_or_app. left. apply Hkept; [exact Hy |].
      now rewrite Ey.
    + in_cases Hz; subst z; try discriminate.
      eexists.
      split; [rewrite Ht; apply in_or_app; right; right; right; right; left;
              reflexivity |].
      split; [reflexivity | cbn [due]; lia].
Qed.

Lemma fold_max_bound (l : list Z) :
  0 <= fold_right Z.max 0 l /\ forall x, In x l -> x <= fold_right Z.max 0 l.
Proof.
  induction l as [| a l (IH0 & IH)]; cbn [fold_right].
  - split; [lia | intros x []].
  - split; [lia |]. intros x [<- | Hx]; [lia |]. specialize (IH x Hx). lia.
Qed.

Lemma rest_time_bound (script : list (Z * command)) (t t' : Z)
    (c c' : command) :
  In (t, c) script -> In (t', c') script ->
  Z.max 0 t + command_time c' <= rest_time script.
Proof.
  intros Hc Hc'. unfold rest_time.
  destruct (fold_max_bound (map fst script)) as (H0 & Ht).
  destruct (fold_max_bound (map (fun tc => command_time (snd tc)) script))
    as (_ & Hl).
  specialize (Ht t (in_map fst _ _ Hc)).
  specialize (Hl (command_time c')
                (in_map (fun tc => command_time (snd tc)) _ _ Hc')).
  lia.
Qed.

(** X4. Every session on the page as loaded comes to rest off stage.
    Whatever the commands, their times and the rendering surface, and
    even though a superseded cycle's closures are not cancelled: once the
    latest command is further back than the longest time a command needs
    (for [play]: 1000 ms plus the longer of hold and exit, 15500 ms, and
    of the reveal of the three lines), no timer is pending, the box is at
    -200px and the logo at -200px or -350px. *)
Theorem session_comes_to_rest (sw : Dom -> Z) (script : list (Z * command))
    (T : Z) (fuel : nat) :
  rest_time script <= T ->
  (list_sum (map (fun tc => command_weight (snd tc)) script) <= fuel)%nat ->
  exists s',
    session sw fuel script T page_load = Some s'
    /\ timers s' = []
    /\ box_bottom (dom s') = -200
    /\ (logo_pos (dom s') = -200 \/ logo_pos (dom s') = -350).
Proof.
  intros HT Hfuel.
  destruct (session_returns sw T fuel script page_load) as (s' & Hrun);
    [exact Hfuel |].
  exists s'. split; [exact Hrun |].
  assert (Hrest : timers s' = []).
  { destruct (session_settles sw T fuel script T page_load s') as (_ & Hs & Hlate);
      try assumption.
    - intros x [].
    - intros x [].
    - intros t c t' c' Hc Hc'. change (clock page_load) with 0.
      pose proof (rest_time_bound script t t' c c' Hc Hc'). lia.
    - unfold settles_by in Hs.
      destruct (timers s') as [| x l]; [reflexivity |]. exfalso.
      specialize (Hs x (or_introl eq_refl)).
      specialize (Hlate x (or_introl eq_refl)).
      pose proof (lifetime_nonneg (act x)). lia. }
  split; [exact Hrest |].
  assert (Hinv : (coherent s' /\ staged s') /\ styles_written (dom s') = true).
  { apply (session_invariant sw
             (fun st => (coherent st /\ staged st)
                        /\ styles_written (dom st) = true))
      with (fuel := fuel) (script := script) (T := T) (s := page_load);
      try assumption.
    - intros c st ((Hc & Hst) & Hsty).
      split; [split |].
      + destruct c; cbn [run_command]; unfold update;
          [now apply coherent_play | now apply coherent_play
          | now apply coherent_stop].
      + now apply staged_command.
      + now apply command_styles.
    - intros t x st Hd ((Hc & Hst) & Hsty).
      split; [split |].
      + apply coherent_fire; [exact Hc | now apply due_by_In in Hd].
      + now apply (staged_fire sw t).
      + now apply fire_styles.
    - intros t st _ Hst. exact Hst.
    - split; [split; [exact coherent_page_load |] | reflexivity].
      split; [discriminate |]. split; [intros [E | E]; discriminate |].
      intros x []. }
  destruct Hinv as ((_ & (S1 & S2 & _)) & Hsty).
  rewrite Hrest in S1, S2.
  apply styles_written_iff in Hsty. destruct Hsty as (_ & Hb & Hl & _).
  unfold box_bottom, logo_pos. unfold among in Hb, Hl.
  split.
  - destruct (lt_bottom (dom s')) as [b |]; [| reflexivity].
    cbn [existsb] in Hb. rewrite !orb_true_iff, !Z.eqb_eq in Hb.
    destruct Hb as [-> | [-> | Hb]]; [reflexivity | | discriminate].
    destruct (S1 eq_refl) as (x & [] & _).
  - destruct (logo_bottom (dom s')) as [b |]; [| now left].
    cbn [existsb] in Hl. rewrite !orb_true_iff, !Z.eqb_eq in Hl.
    destruct Hl as [-> | [-> | [-> | Hl]]]; try discriminate.
    + destruct (S2 (or_intror eq_refl)) as (x & [] & _).
    + destruct (S2 (or_introl eq_refl)) as (x & [] & _).
    + now right.
Qed.

(** Witness: [play], then [stop] 1100 ms later, while the cycle is
    entering; the overlay is read 20 s after the page was loaded. *)
Lemma session_comes_to_rest_witness :
  rest_time [(0, Play (Some request_metallica)); (1100, Stop)] <= 20000
  /\ exists s',
       session glyph_layout 80
         [(0, Play (Some request_metallica)); (1100, Stop)] 20000 page_load
       = Some s'
       /\ timers s' = []
       /\ box_bottom (dom s') = -200.
Proof.
  split; [vm_compute; discriminate |].
  destruct (session_comes_to_rest glyph_layout
              [(0, Play (Some request_metallica)); (1100, Stop)] 20000 80%nat)
    as (s' & Hrun & Hrest & Hb & _).
  { vm_compute. discriminate. }
  { vm_compute. lia. }
  exists s'. split; [exact Hrun |]. split; [exact Hrest | exact Hb].
Defined.

(** ** One turn of the event loop in one step *)

Lemma createTypewriter_outcome (el : field) (text : jsval) (cb : callback)
    (s : State) :
  dom (state_of (createTypewriter el text 50 (Some cb) s)) = typed el text (dom s)
  /\ uncaught (state_of (createTypewriter el text 50 (Some cb) s)) = uncaught s
  /\ createTypewriter el text 50 (Some cb) s
     = (if has_split text then Returned else Threw)
         (state_of (createTypewriter el text 50 (Some cb) s)).
Proof.
  unbox text.
  destruct text as [| | b | n | | str | | str]; try discriminate;
    try solve [cbn [createTypewriter state_of has_split typed]; repeat split].
  rewrite createTypewriter_50. cbn [state_of has_split typed]. repeat split.
Qed.

Lemma exec_outcome (sw : Dom -> Z) (a : action) (s : State) :
  dom (state_of (exec sw a s)) = writes sw a (dom s)
  /\ uncaught (state_of (exec sw a s)) = uncaught s
  /\ exec sw a s
     = (if throws a then Threw else Returned) (state_of (exec sw a s)).
Proof.
  destruct a as [d | | d | | | sp | cb | | | |].
  - cbn [exec].
    change (setTimeout Expand 500) with (setTimeout Expand (inject_Z 500)).
    change (setTimeout (Reveal d) 2000)
      with (setTimeout (Reveal d) (inject_Z 2000)).
    change (setTimeout AutoHide 12000) with (setTimeout AutoHide (inject_Z 12000)).
    rewrite !setTimeout_ms by lia.
    cbn [state_of snd writes throws dom uncaught set_autoHideTimeout with_dom].
    split; [reflexivity |]. split; reflexivity.
  - cbn [exec state_of writes throws dom uncaught with_dom].
    split; [reflexivity |]. split; reflexivity.
  - cbn [exec]. rewrite createTypewriter_50.
    change (setTimeout ShimmerOff 1300) with (setTimeout ShimmerOff (inject_Z 1300)).
    rewrite setTimeout_ms by lia.
    cbn [state_of snd dom uncaught with_dom register writes throws typed].
    split; [reflexivity |]. split; reflexivity.
  - cbn [exec state_of writes throws dom uncaught with_dom].
    split; [reflexivity |]. split; reflexivity.
  - cbn [exec state_of writes throws]. rewrite stop_eq.
    cbn [dom uncaught register with_dom].
    rewrite !(proj1 (proj2 (proj2 (clearTimeout_frame _ _)))),
      !(proj1 (proj2 (proj2 (proj2 (clearTimeout_frame _ _))))).
    split; [reflexivity |]. split; reflexivity.
  - rewrite (exec_effect sw (Tick sp) _ s eq_refl).
    cbn [state_of writes throws dom uncaught with_dom].
    split; [reflexivity |]. split; reflexivity.
  - destruct cb as [d | d |]; cbn [exec run_callback writes throws].
    + destruct (createTypewriter_outcome Artist (js_or (artist d) "Artist Name")
                  (CbSong d) s) as (Hd & Hu & Hk).
      split; [exact Hd |]. split; [exact Hu |].
      destruct (has_split _); exact Hk.
    + destruct (createTypewriter_outcome Song (js_or (song d) "Song Title")
                  CbDone s) as (Hd & Hu & Hk).
      split; [exact Hd |]. split; [exact Hu |].
      destruct (has_split _); exact Hk.
    + cbn [state_of]. split; [reflexivity |]. split; reflexivity.
  - cbn [exec state_of writes throws dom uncaught with_dom].
    split; [reflexivity |]. split; reflexivity.
  - cbn [exec state_of writes throws dom uncaught with_dom].
    split; [reflexivity |]. split; reflexivity.
  - cbn [exec state_of writes throws dom uncaught with_dom].
    split; [reflexivity |]. split; reflexivity.
  - cbn [exec state_of writes throws dom uncaught with_dom].
    split; [reflexivity |]. split; reflexivity.
Qed.

Lemma state_ext (a b : State) :
  clock a = clock b -> next_tid a = next_tid b -> timers a = timers b ->
  autoHideTimeout a = autoHideTimeout b ->
  delayedStartTimeout a = delayedStartTimeout b -> dom a = dom b ->
  uncaught a = uncaught b -> a = b.
Proof. destruct a, b. cbn. intros. now subst. Qed.

(** [fire] in one step: the timer leaves the registry with those its
    closure clears, what the closure registers is appended, what it writes
    is written, and an exception is counted. *)
Lemma fire_eq (sw : Dom -> Z) (x : timer) (s : State) :
  fire sw x s = fired_state sw x s.
Proof.
  destruct (fire_registry sw x s) as (Ht & Hn & Hc & Hd & Ha). cbv zeta in *.
  assert (Hdom : dom (fire sw x s) = writes sw (act x) (dom s)
                 /\ uncaught (fire sw x s)
                    = if throws (act x) then S (uncaught s) else uncaught s).
  { unfold fire.
    set (s1 := set_clock _ (clearTimeout (Some (tid x)) s)).
    destruct (exec_outcome sw (act x) s1) as (H1 & H2 & H3).
    assert (E1 : dom s1 = dom s)
      by (apply (proj1 (proj2 (proj2 (clearTimeout_frame _ _))))).
    assert (E2 : uncaught s1 = uncaught s)
      by (apply (proj1 (proj2 (proj2 (proj2 (clearTimeout_frame _ _)))))).
    rewrite H3. rewrite E1 in H1. rewrite E2 in H2.
    destruct (throws (act x)); cbn [dom uncaught report_exception];
      rewrite H1, H2; split; reflexivity. }
  destruct Hdom as (Hdom & Hu).
  apply state_ext; assumption.
Qed.

(** ** The run with the reveals left out *)

Lemma map_hide_show (id : nat) (l : list span) :
  map hide_span (show_at id l) = map hide_span l.
Proof.
  revert id. induction l as [| sp l IH]; intros [| id]; cbn [show_at map];
    try reflexivity.
  now rewrite IH.
Qed.

Lemma hide_tick (sw : Dom -> Z) (sp : nat) (d : Dom) :
  hide (tick_effect sw sp d) = hide d.
Proof.
  unfold tick_effect, hide. cbn [show_span set_nodes lt_width].
  destruct (lt_width d) as [w |]; [destruct (w <? _) |];
    unfold show_span;
    cbn [set_lt_width set_nodes nodes lt_bottom logo_bottom logo_transform
         logo_opacity logo_shimmer tc_opacity np_text artist_text song_text];
    now rewrite map_hide_show.
Qed.

Lemma map_hide_spans (str : string) :
  map hide_span (spans_of str) = spans_of str.
Proof.
  unfold spans_of. rewrite map_map. apply map_ext. intros c. reflexivity.
Qed.

Lemma map_hide_hide (l : list span) :
  map hide_span (map hide_span l) = map hide_span l.
Proof. rewrite map_map. apply map_ext. intros sp. reflexivity. Qed.

Lemma dom_ext (a b : Dom) :
  lt_width a = lt_width b -> lt_bottom a = lt_bottom b ->
  logo_bottom a = logo_bottom b -> logo_transform a = logo_transform b ->
  logo_opacity a = logo_opacity b -> logo_shimmer a = logo_shimmer b ->
  tc_opacity a = tc_opacity b -> nodes a = nodes b ->
  np_text a = np_text b -> artist_text a = artist_text b ->
  song_text a = song_text b -> a = b.
Proof. destruct a, b. cbn. intros. now subst. Qed.

Lemma hide_typed (el : field) (text : jsval) (d : Dom) :
  hide (typed el text (hide d)) = hide (typed el text d).
Proof.
  destruct text as [| | b | n | | str | | str], el; apply dom_ext;
    cbn [hide typed append_all set_children set_nodes set_lt_width children
         nodes lt_width lt_bottom logo_bottom logo_transform logo_opacity
         logo_shimmer tc_opacity np_text artist_text song_text];
    rewrite ?map_app, ?map_hide_hide, ?length_map; reflexivity.
Qed.

Lemma hide_writes (sw sw' : Dom -> Z) (a : action) (d : Dom) :
  is_tick a = false ->
  hide (writes sw a (hide d)) = hide (writes sw' a d).
Proof.
  intros Ha.
  assert (Hset : hide (hide d) = hide d).
  { unfold hide. cbn [set_lt_width set_nodes nodes]. now rewrite map_hide_hide. }
  destruct a as [r | | r | | | sp | cb | | | |]; try discriminate;
    cbn [writes];
    try (unfold hide;
         cbn [set_lt_width set_nodes set_lt_bottom set_logo_bottom
              set_logo_transform set_logo_shimmer set_tc_opacity nodes lt_width
              lt_bottom logo_bottom logo_transform logo_opacity logo_shimmer
              tc_opacity np_text artist_text song_text];
         now rewrite map_hide_hide).
  - (* Reveal *)
    change (hide (set_logo_shimmer true ?x))
      with (set_logo_shimmer true (hide x)).
    f_equal.
    rewrite <- (hide_typed _ _ (set_tc_opacity (Some 1) d)).
    reflexivity.
  - destruct cb as [r | r |]; cbn [writes].
    + apply hide_typed.
    + apply hide_typed.
    + exact Hset.
Qed.

Lemma filter_filter_absorb {A : Type} (p q : A -> bool) (l : list A) :
  (forall y, In y l -> p y = true -> q y = true) ->
  filter p (filter q l) = filter p l.
Proof.
  induction l as [| a l IH]; intros H; [reflexivity |]. cbn [filter].
  destruct (q a) eqn:Eq; cbn [filter].
  - destruct (p a); [f_equal |]; apply IH; intros y Hy; apply H; now right.
  - destruct (p a) eqn:Ep.
    + rewrite (H a (or_introl eq_refl) Ep) in Eq. discriminate.
    + apply IH. intros y Hy. apply H. now right.
Qed.

Lemma spawned_of_tick (a : action) (h first : nat) (now : Z) :
  is_tick a = true -> spawned a h first now = [].
Proof. destruct a; try discriminate. reflexivity. Qed.

(** A reveal leaves the outline as it is. *)
Lemma outline_tick (sw : Dom -> Z) (x : timer) (s : State) :
  wf s -> In x (timers s) -> is_tick (act x) = true ->
  outline (fire sw x s) = outline s.
Proof.
  intros Hwf Hx Ht. rewrite fire_eq.
  destruct (act x) as [| | | | | sp | | | | |] eqn:Ea; try discriminate.
  unfold outline, fired_state. rewrite Ea.
  cbn [clock next_tid timers autoHideTimeout delayedStartTimeout dom uncaught
       spawned List.length is_delayed_start throws gone_by writes].
  apply state_ext;
    cbn [clock next_tid timers autoHideTimeout delayedStartTimeout dom uncaught];
    try reflexivity.
  - lia.
  - rewrite app_nil_r. apply filter_filter_absorb.
    intros y Hy Hnt. rewrite orb_false_r. apply negb_true_iff, Nat.eqb_neq.
    intros E. rewrite (wf_same_tid s y x Hwf Hy Hx E), Ea in Hnt. discriminate.
  - apply hide_tick.
Qed.

Lemma spawned_length (a : action) (h h' first first' : nat) (now now' : Z) :
  List.length (spawned a h first now) = List.length (spawned a h' first' now').
Proof.
  assert (Htw : forall str cb,
             List.length (typewriter_timers str cb h first now)
             = List.length (typewriter_timers str cb h' first' now')).
  { intros str cb. unfold typewriter_timers.
    now rewrite !length_app, !length_map. }
  destruct a as [r | | r | | | sp | cb | | | |]; try reflexivity.
  destruct cb as [r | r |]; cbn [spawned]; try reflexivity;
    destruct (js_or _ _); try reflexivity; apply Htw.
Qed.

Lemma nonticks_typewriter (str : string) (cb : callback) (h first : nat)
    (now : Z) :
  filter (fun x => negb (is_tick (act x))) (typewriter_timers str cb h first now)
  = [{| tid := h + String.length str;
        due := now + Z.of_nat (String.length str)
                     * (if (100 <? String.length str)%nat then 25 else 50)
               + 500;
        act := TypeDone cb |}].
Proof.
  unfold typewriter_timers. rewrite filter_app.
  replace (filter _ (map _ _)) with (@nil timer); [reflexivity |].
  symmetry. induction (seq 0 (String.length str)) as [| i l IH];
    [reflexivity | exact IH].
Qed.

(** What a closure other than a reveal registers does not depend on the
    spans that exist, up to the reveals. *)
Lemma nonticks_spawned (a : action) (h first first' : nat) (now : Z) :
  filter (fun x => negb (is_tick (act x))) (spawned a h first now)
  = filter (fun x => negb (is_tick (act x))) (spawned a h first' now).
Proof.
  destruct a as [r | | r | | | sp | cb | | | |]; try reflexivity.
  destruct cb as [r | r |]; cbn [spawned]; try reflexivity;
    destruct (js_or _ _); try reflexivity; cbn [typed_timers];
    now rewrite !nonticks_typewriter.
Qed.

(** Any other closure does to the outline what it does to the state. *)
Lemma outline_fire (sw : Dom -> Z) (x : timer) (s : State) :
  is_tick (act x) = false -> clock s <= due x ->
  outline (fire sw x s) = after x (outline s).
Proof.
  intros Ht Hc. rewrite fire_eq. unfold after.
  assert (Hlen : List.length (nodes (hide (dom s))) = List.length (nodes (dom s)))
    by (cbn [hide set_lt_width set_nodes nodes]; apply length_map).
  assert (Hg : gone_by (act x) (set_clock (due x) (outline s))
               = gone_by (act x) s) by (destruct (act x); reflexivity).
  apply state_ext;
    cbn [outline fired_state set_clock clock next_tid timers autoHideTimeout
         delayedStartTimeout dom uncaught];
    try reflexivity.
  - f_equal. apply spawned_length.
  - rewrite Hg, !filter_app, Hlen, Z.max_id, (Z.max_r _ _ Hc). f_equal.
    rewrite !filter_twice. apply filter_ext_in. intros y _.
    destruct (is_tick (act y)); cbn [negb andb]; [apply andb_false_r |].
    now rewrite andb_true_r.
  - symmetry. now apply hide_writes.
Qed.

Lemma fire_punctual (sw : Dom -> Z) (t : Z) (x : timer) (s : State) :
  punctual s -> due_by t s = Some x -> punctual (fire sw x s).
Proof.
  intros Hp Hd.
  destruct (fire_registry sw x s) as (Ht & _ & Hc & _). cbv zeta in *.
  assert (Hx : In x (timers s)) by (now apply due_by_In in Hd).
  assert (Hnow : Z.max (clock s) (due x) = due x) by (apply Z.max_r, Hp, Hx).
  rewrite Hnow in *.
  intros y Hy. rewrite Ht in Hy. rewrite Hc. apply in_app_or in Hy.
  destruct Hy as [Hy | Hy]; [| now apply spawned_lifetime in Hy].
  apply filter_In in Hy. destruct Hy as (Hy & _).
  unfold due_by in Hd.
  destruct (next_timer (timers s)) as [m |] eqn:Hm; [| discriminate].
  destruct (due m <=? t); [| discriminate]. injection Hd as ->.
  pose proof (next_timer_min _ _ Hm y Hy) as Hnb. unfold fires_before in Hnb.
  lia.
Qed.

Lemma outline_set_clock (c : Z) (s : State) : outline (set_clock c s) = outline s.
Proof. reflexivity. Qed.

(** The timer that fires next is the one that fires next among any part
    of the registry it belongs to. *)
Lemma next_timer_filter (p : timer -> bool) (l : list timer) (x : timer) :
  NoDup (map tid l) -> next_timer l = Some x -> p x = true ->
  next_timer (filter p l) = Some x.
Proof.
  intros Hnd Hx Hp.
  assert (Hin : In x (filter p l))
    by (apply filter_In; split; [now apply next_timer_In | exact Hp]).
  destruct (next_timer (filter p l)) as [m |] eqn:Hm;
    [| apply next_timer_none in Hm; rewrite Hm in Hin; destruct Hin].
  f_equal.
  pose proof (next_timer_In _ _ Hm) as Hml. apply filter_In in Hml.
  destruct Hml as (Hml & _).
  pose proof (next_timer_min _ _ Hx m Hml) as H1.
  pose proof (next_timer_min _ _ Hm x Hin) as H2.
  unfold fires_before in H1, H2.
  assert (Etid : tid m = tid x) by lia.
  pose proof (next_timer_In _ _ Hx) as Hxl.
  destruct (In_nth _ _ x Hml) as (i & Hi & Ei).
  destruct (In_nth _ _ x Hxl) as (j & Hj & Ej).
  assert (i = j).
  { apply (proj1 (NoDup_nth (map tid l) (tid x)) Hnd);
      rewrite ?length_map; try assumption.
    rewrite !(map_nth tid). now rewrite Ei, Ej. }
  subst j. now rewrite <- Ei, Ej.
Qed.

Lemma next_timer_filter_none (p : timer -> bool) (l : list timer) (T : Z) :
  (forall x, In x l -> T < due x) ->
  match next_timer (filter p l) with
  | Some tm => if due tm <=? T then Some tm else None
  | None => None
  end = None.
Proof.
  intros H. destruct (next_timer (filter p l)) as [m |] eqn:Hm; [| reflexivity].
  apply next_timer_In, filter_In in Hm. destruct Hm as (Hm & _).
  specialize (H m Hm). destruct (due m <=? T) eqn:E; [| reflexivity].
  apply Z.leb_le in E. lia.
Qed.

Lemma outline_run_more (T : Z) (fuel : nat) :
  forall o o', outline_run fuel T o = Some o' ->
               outline_run (S fuel) T o = Some o'.
Proof.
  induction fuel as [| f IH]; intros o o' H; cbn [outline_run] in *;
    destruct (due_by T o) as [x |]; try discriminate; try exact H.
  now apply IH.
Qed.

(** The outline of a run is the run of the outline. *)
Lemma advance_outline (sw : Dom -> Z) (T : Z) (fuel : nat) :
  forall s s',
    wf s -> punctual s -> advance sw fuel T s = Some s' ->
    outline_run fuel T (outline s) = Some (outline s').
Proof.
  induction fuel as [| f IH]; intros s s' Hwf Hp Hrun; cbn [advance] in Hrun;
    destruct (due_by T s) as [x |] eqn:Hd; try discriminate.
  - injection Hrun as <-. rewrite outline_set_clock. cbn [outline_run].
    unfold due_by. cbn [timers outline].
    rewrite next_timer_filter_none; [reflexivity | now apply due_by_none].
  - pose proof (due_by_In _ _ _ Hd) as (Hx & Hdue).
    assert (Hwf1 : wf (fire sw x s)) by now apply wf_fire.
    assert (Hp1 : punctual (fire sw x s)) by now apply (fire_punctual sw T).
    destruct (is_tick (act x)) eqn:Et.
    + apply outline_run_more. rewrite <- (outline_tick sw x s Hwf Hx Et).
      now apply IH.
    + cbn [outline_run].
      assert (E : due_by T (outline s) = Some x).
      { unfold due_by in *. cbn [timers outline].
        destruct (next_timer (timers s)) as [m |] eqn:Hm; [| discriminate].
        destruct (due m <=? T) eqn:Em; [| discriminate].
        injection Hd as ->.
        rewrite (next_timer_filter _ _ x (proj1 Hwf) Hm) by (now rewrite Et).
        now rewrite Em. }
      rewrite E, <- (outline_fire sw x s Et (Hp x Hx)). now apply IH.
  - injection Hrun as <-. rewrite outline_set_clock. cbn [outline_run].
    unfold due_by. cbn [timers outline].
    rewrite next_timer_filter_none; [reflexivity | now apply due_by_none].
Qed.

(** ** A cycle from rest, with the reveals left out *)

Lemma outline_step (x : timer) (o : State) (f : nat) (T : Z) :
  due_by T o = Some x -> outline_run (S f) T o = outline_run f T (after x o).
Proof. intros H. cbn [outline_run]. now rewrite H. Qed.

Lemma outline_done (o : State) (f : nat) (T : Z) :
  due_by T o = None -> outline_run f T o = Some o.
Proof. intros H. destruct f; cbn [outline_run]; now rewrite H. Qed.

Lemma outline_run_fuel (T : Z) (f1 f2 : nat) :
  forall o a b,
    outline_run f1 T o = Some a -> outline_run f2 T o = Some b -> a = b.
Proof.
  revert f2. induction f1 as [| f1 IH]; intros [| f2] o a b Ha Hb;
    cbn [outline_run] in *; destruct (due_by T o) as [x |];
    try discriminate; try congruence.
  eapply IH; eassumption.
Qed.

Lemma typewriter_timers_length (str : string) (cb : callback) (h first : nat)
    (now : Z) :
  List.length (typewriter_timers str cb h first now) = S (String.length str).
Proof.
  unfold typewriter_timers. rewrite length_app, length_map, length_seq.
  cbn [List.length]. lia.
Qed.

Lemma length_spans_of (str : string) :
  List.length (spans_of str) = String.length str.
Proof.
  unfold spans_of. now rewrite length_map, length_list_ascii_of_string.
Qed.

#[local] Hint Rewrite @length_app typewriter_timers_length Z.max_id @filter_app
  nonticks_typewriter : outline_db.

(** A String object is typed as the string it wraps. *)
Lemma has_split_unboxed (v : jsval) : has_split v = has_split (unboxed v).
Proof. destruct v; reflexivity. Qed.

Lemma typing_time_unboxed (v : jsval) : typing_time v = typing_time (unboxed v).
Proof. destruct v; reflexivity. Qed.

Lemma last_reveal_unboxed (v : jsval) : last_reveal v = last_reveal (unboxed v).
Proof. destruct v; reflexivity. Qed.

Lemma typed_timers_unboxed (v : jsval) (cb : callback) (h first : nat) (now : Z) :
  typed_timers v cb h first now = typed_timers (unboxed v) cb h first now.
Proof. destruct v; reflexivity. Qed.

Lemma typed_unboxed (el : field) (v : jsval) (d : Dom) :
  typed el v d = typed el (unboxed v) d.
Proof. destruct v; reflexivity. Qed.

Lemma unboxed_string (v : jsval) (A : string) : v = JStr A -> unboxed v = JStr A.
Proof. now intros ->. Qed.


Lemma createTypewriter_string_object (el : field) (str : string) (baseSpeed : Q)
    (cb : option callback) (s : State) :
  createTypewriter el (JStrObj str) baseSpeed cb s
  = createTypewriter el (JStr str) baseSpeed cb s.
Proof. reflexivity. Qed.

Lemma outline_play_rest (arg : option request) (s : State) :
  timers s = [] ->
  outline (play arg s)
  = {| clock := 0; next_tid := next_tid s + 1;
       timers := [{| tid := next_tid s; due := clock s + 1000;
                     act := DelayedStart (data_of arg) |}];
       autoHideTimeout := autoHideTimeout s;
       delayedStartTimeout := Some (next_tid s);
       dom := hide (play_reset (dom s)); uncaught := uncaught s |}.
Proof.
  intros H. rewrite play_eq, !(clearTimeout_none_pending _ _ H).
  unfold outline.
  cbn [clock next_tid timers autoHideTimeout delayedStartTimeout dom uncaught
       set_delayedStartTimeout register with_dom List.length].
  rewrite H. reflexivity.
Qed.

(** The outline of a cycle whose two lines are strings, once the last
    callback has run and before the auto-hide: only the auto-hide is
    pending, the box and the logo are on stage, the text container is
    opaque, and the three elements hold the spans of the label, the artist
    and the song. *)
Lemma outline_hold (arg : option request) (s : State) (T : Z) (A S : string) :
  timers s = [] ->
  unboxed (js_or (artist (data_of arg)) "Artist Name") = JStr A ->
  unboxed (js_or (song (data_of arg)) "Song Title") = JStr S ->
  clock s + 4100 + typing_time (JStr A) + typing_time (JStr S) <= T
  < clock s + 13000 ->
  let f := List.length (nodes (dom s)) in
  exists o,
    outline_run 7 T (outline (play arg s)) = Some o
    /\ timers o = [{| tid := next_tid s + 3; due := clock s + 13000;
                      act := AutoHide |}]
    /\ autoHideTimeout o = Some (next_tid s + 3)%nat
    /\ uncaught o = uncaught s
    /\ lt_bottom (dom o) = Some 40
    /\ logo_bottom (dom o) = Some (-80)
    /\ tc_opacity (dom o) = Some 1
    /\ logo_transform (dom o) = Some Flourish
    /\ logo_shimmer (dom o) = false
    /\ np_text (dom o) = seq f 12
    /\ artist_text (dom o) = seq (f + 12) (String.length A)
    /\ song_text (dom o) = seq (f + 12 + String.length A) (String.length S)
    /\ nodes (dom o)
       = map hide_span (nodes (dom s))
         ++ spans_of "Now Playing:" ++ spans_of A ++ spans_of S.
Proof.
  intros H HA HS HT f. rewrite (outline_play_rest arg s H).
  set (h := next_tid s). set (c := clock s) in *. set (d := data_of arg) in *.
  cbn [typing_time] in HT.
  set (ra := if (100 <? String.length A)%nat then 25 else 50) in *.
  set (rs := if (100 <? String.length S)%nat then 25 else 50) in *.
  assert (Hra : 0 <= Z.of_nat (String.length A) * ra)
    by (subst ra; destruct (100 <? String.length A)%nat; lia).
  assert (Hrs : 0 <= Z.of_nat (String.length S) * rs)
    by (subst rs; destruct (100 <? String.length S)%nat; lia).
  eexists. split.
  { erewrite outline_step by next_due. outline_fired. outline_tidy.
    erewrite outline_step by next_due. outline_fired. outline_tidy.
    erewrite outline_step by next_due. outline_fired. outline_tidy.
    change (Z.of_nat 12 * (if (100 <? 12)%nat then 25 else 50)) with 600.
    erewrite outline_step by next_due. outline_fired.
    rewrite ?(typed_timers_unboxed (js_or (artist d) "Artist Name")),
      ?(has_split_unboxed (js_or (artist d) "Artist Name")), ?HA. outline_tidy.
    fold ra.
    erewrite outline_step by next_due. outline_fired. outline_tidy.
    erewrite outline_step by next_due. outline_fired.
    rewrite ?(typed_timers_unboxed (js_or (song d) "Song Title")),
      ?(has_split_unboxed (js_or (song d) "Song Title")), ?HS. outline_tidy.
    fold rs.
    erewrite outline_step by next_due. outline_fired. outline_tidy.
    apply outline_done. next_due. }
  cbn [timers autoHideTimeout uncaught dom].
  split; [f_equal; f_equal; lia |].
  split; [f_equal; lia |].
  split; [reflexivity |].
  cbn [writes].
  rewrite ?(typed_unboxed _ (js_or (artist d) "Artist Name")),
    ?(typed_unboxed _ (js_or (song d) "Song Title")), ?HA, ?HS.
  do 5 (split; [reflexivity |]).
  cbn [hide typed append_all set_children set_nodes set_lt_width set_lt_bottom
       set_logo_bottom set_logo_transform set_logo_shimmer set_tc_opacity
       set_logo_opacity play_reset children nodes np_text artist_text song_text].
  rewrite ?map_app, ?map_hide_hide, ?map_hide_spans, ?length_app, ?length_map,
    ?length_spans_of.
  cbn [String.length app].
  split; [reflexivity |]. split; [reflexivity |]. split; [reflexivity |].
  now rewrite <- !app_assoc.
Qed.

(** ** Splitting a run *)

Lemma advance_more (sw : Dom -> Z) (T : Z) (fuel : nat) :
  forall s s', advance sw fuel T s = Some s' ->
               advance sw (S fuel) T s = Some s'.
Proof.
  induction fuel as [| f IH]; intros s s' H; cbn [advance] in *;
    destruct (due_by T s) as [x |]; try discriminate; try exact H.
  now apply IH.
Qed.

Lemma advance_fuel (sw : Dom -> Z) (T : Z) (f1 f2 : nat) :
  forall s a b,
    advance sw f1 T s = Some a -> advance sw f2 T s = Some b -> a = b.
Proof.
  revert f2. induction f1 as [| f1 IH]; intros [| f2] s a b Ha Hb;
    cbn [advance] in *; destruct (due_by T s) as [x |];
    try discriminate; try congruence.
  eapply IH; eassumption.
Qed.

Lemma set_clock_twice (a b : Z) (s : State) :
  set_clock a (set_clock b s) = set_clock a s.
Proof. reflexivity. Qed.

Lemma fire_set_clock (sw : Dom -> Z) (x : timer) (c : Z) (s : State) :
  Z.max c (due x) = Z.max (clock s) (due x) ->
  fire sw x (set_clock c s) = fire sw x s.
Proof.
  intros H. unfold fire.
  replace (clearTimeout (Some (tid x)) (set_clock c s))
    with (set_clock c (clearTimeout (Some (tid x)) s)) by reflexivity.
  rewrite set_clock_twice. cbn [clock set_clock].
  rewrite !(proj1 (clearTimeout_frame _ _)).
  change (clock (set_clock c (clearTimeout (Some (tid x)) s))) with c.
  now rewrite H.
Qed.

(** A run to [T] is a run to an earlier time followed by a run to [T]. *)
Lemma advance_split (sw : Dom -> Z) (t T : Z) (fuel : nat) :
  t <= T ->
  forall s s',
    advance sw fuel T s = Some s' ->
    exists s1, advance sw fuel t s = Some s1 /\ advance sw fuel T s1 = Some s'.
Proof.
  intros Ht. induction fuel as [| f IH]; intros s s' H.
  - cbn [advance] in H. destruct (due_by T s) as [x |] eqn:Hd; [discriminate |].
    injection H as <-.
    assert (Hlate : forall x, In x (timers s) -> T < due x)
      by now apply due_by_none.
    exists (set_clock (Z.max (clock s) t) s). split.
    + apply advance_none_due. intros x Hx. specialize (Hlate x Hx). lia.
    + rewrite advance_none_due by exact Hlate.
      rewrite set_clock_twice. cbn [clock set_clock]. do 2 f_equal. lia.
  - cbn [advance] in H. destruct (due_by T s) as [x |] eqn:Hd.
    + pose proof (due_by_In _ _ _ Hd) as (Hx & Hdue).
      destruct (due x <=? t) eqn:Ex.
      * assert (Hd' : due_by t s = Some x).
        { unfold due_by in *.
          destruct (next_timer (timers s)) as [m |]; [| discriminate].
          destruct (due m <=? T); [| discriminate]. injection Hd as ->.
          now rewrite Ex. }
        destruct (IH _ _ H) as (s1 & H1 & H2). exists s1. split.
        -- cbn [advance]. now rewrite Hd'.
        -- now apply advance_more.
      * apply Z.leb_gt in Ex.
        assert (Hd' : due_by t s = None).
        { unfold due_by in *.
          destruct (next_timer (timers s)) as [m |]; [| discriminate].
          destruct (due m <=? T); [| discriminate]. injection Hd as ->.
          apply Z.leb_gt in Ex. now rewrite Ex. }
        exists (set_clock (Z.max (clock s) t) s). split.
        -- cbn [advance]. now rewrite Hd'.
        -- cbn [advance].
           change (due_by T (set_clock (Z.max (clock s) t) s)) with (due_by T s).
           rewrite Hd, fire_set_clock; [exact H | lia].
    + injection H as <-.
      assert (Hlate : forall x, In x (timers s) -> T < due x)
        by now apply due_by_none.
      exists (set_clock (Z.max (clock s) t) s). split.
      * apply advance_none_due. intros x Hx. specialize (Hlate x Hx). lia.
      * rewrite advance_none_due by exact Hlate.
        rewrite set_clock_twice. cbn [clock set_clock]. do 2 f_equal. lia.
Qed.

(** ** Every reveal of a cycle runs, and in time *)

Lemma last_reveal_nonneg (v : jsval) : 0 <= last_reveal v.
Proof.
  destruct v as [| | b | n | | str | | str]; cbn [last_reveal]; try lia;
    destruct (100 <? String.length str)%nat; lia.
Qed.

Lemma typing_time_last (v : jsval) : last_reveal v <= typing_time v.
Proof. destruct v; cbn [last_reveal typing_time]; lia. Qed.

Lemma typed_timers_reach (text : jsval) (cb : callback) (h first : nat)
    (now : Z) (y : timer) (r : Z) :
  In y (typed_timers text cb h first now) -> reveal_reach (act y) = Some r ->
  (r = 0 /\ due y <= now + last_reveal text)
  \/ (act y = TypeDone cb /\ due y = now + typing_time text).
Proof.
  unbox text.
  destruct text as [| | b | n | | str | | str]; try discriminate;
    try (now intros []).
  cbn [typed_timers typing_time last_reveal]. unfold typewriter_timers.
  set (rate := if (100 <? String.length str)%nat then 25 else 50).
  assert (Hrate : 0 <= rate)
    by (unfold rate; destruct (100 <? String.length str)%nat; lia).
  clearbody rate.
  intros Hy Hr. apply in_app_or in Hy. destruct Hy as [Hy | [<- | []]].
  - apply in_map_iff in Hy. destruct Hy as (i & <- & Hi). apply in_seq in Hi.
    cbn [act ms_tick] in Hr. unfold reveal_reach in Hr. some_eq Hr.
    left. cbn [due ms_tick]. split; [reflexivity | nia].
  - right. cbn [act due]. split; [reflexivity | lia].
Qed.

Lemma typed_timers_no_split (v : jsval) (cb : callback) (h first : nat)
    (now : Z) :
  has_split v = false -> typed_timers v cb h first now = [].
Proof. destruct v; try reflexivity; discriminate. Qed.

Lemma typed_no_split (el : field) (v : jsval) (d : Dom) :
  has_split v = false -> typed el v d = set_children el [] d.
Proof. destruct v; try reflexivity; discriminate. Qed.

Lemma artist_reach_nonneg (d : request) :
  0 <= (if has_split (js_or (artist d) "Artist Name")
        then typing_time (js_or (artist d) "Artist Name")
             + last_reveal (js_or (song d) "Song Title")
        else 0).
Proof.
  pose proof (typing_time_nonneg (js_or (artist d) "Artist Name")).
  pose proof (last_reveal_nonneg (js_or (song d) "Song Title")).
  destruct (has_split _); lia.
Qed.

Lemma spawned_reach (a : action) (h first : nat) (now : Z) (y : timer) (r : Z) :
  In y (spawned a h first now) -> reveal_reach (act y) = Some r ->
  exists ra, reveal_reach a = Some ra /\ due y + r <= now + ra.
Proof.
  destruct a as [d | | d | | | sp | cb | | | |]; cbn [spawned];
    try (now intros []).
  - intros Hy Hr. in_cases Hy; subst y; try discriminate.
    cbn [act due] in *. unfold reveal_reach in *. some_eq Hr.
    eexists. split; [reflexivity | cbv beta zeta; lia].
  - intros Hy Hr. eexists. split; [reflexivity | cbv beta zeta].
    pose proof (artist_reach_nonneg d) as Hnn.
    apply in_app_or in Hy. destruct Hy as [Hy | [<- | []]]; [| discriminate].
    destruct (typed_timers_reach (JStr "Now Playing:") _ _ _ _ _ _ Hy Hr)
      as [(-> & Hd) | (Ha & Hd)].
    + change (last_reveal (JStr "Now Playing:")) with 600 in Hd. lia.
    + rewrite Ha in Hr. unfold reveal_reach in Hr. some_eq Hr.
      change (typing_time (JStr "Now Playing:")) with 1100 in Hd. lia.
  - intros Hy Hr. in_cases Hy; subst y; discriminate.
  - destruct cb as [d | d |]; try (now intros []); intros Hy Hr;
      (eexists; split; [reflexivity | cbv beta zeta]).
    + pose proof (last_reveal_nonneg (js_or (song d) "Song Title")).
      pose proof (typing_time_last (js_or (artist d) "Artist Name")).
      destruct (has_split (js_or (artist d) "Artist Name")) eqn:Es;
        [| now rewrite (typed_timers_no_split _ _ _ _ _ Es) in Hy].
      destruct (typed_timers_reach _ _ _ _ _ _ _ Hy Hr)
        as [(-> & Hd) | (Ha & Hd)].
      * lia.
      * rewrite Ha in Hr. unfold reveal_reach in Hr. some_eq Hr. lia.
    + destruct (typed_timers_reach _ _ _ _ _ _ _ Hy Hr)
        as [(-> & Hd) | (Ha & Hd)]; [lia |].
      rewrite Ha in Hr. discriminate.
Qed.

Lemma fire_reveals (sw : Dom -> Z) (D t : Z) (x : timer) (s : State) :
  punctual s -> reveals_by D s -> due_by t s = Some x ->
  reveals_by D (fire sw x s).
Proof.
  intros Hp Hs Hd.
  destruct (fire_registry sw x s) as (Ht & _). cbv zeta in *.
  assert (Hx : In x (timers s)) by (now apply due_by_In in Hd).
  assert (Hnow : Z.max (clock s) (due x) = due x) by (apply Z.max_r, Hp, Hx).
  rewrite Hnow in *.
  intros y r Hy Hr. rewrite Ht in Hy. apply in_app_or in Hy.
  destruct Hy as [Hy | Hy].
  - apply filter_In in Hy. now apply (Hs y r).
  - destruct (spawned_reach _ _ _ _ _ _ Hy Hr) as (ra & Ha & Hle).
    specialize (Hs x ra Hx Ha). lia.
Qed.

Lemma writes_nodes (sw : Dom -> Z) (a : action) (d : Dom) :
  nodes (writes sw a d)
  = match a with
    | Tick sp => show_at sp (nodes d)
    | _ => nodes d
    end ++ typed_spans a.
Proof.
  assert (Hty : forall el text,
             nodes (typed el text d)
             = nodes d ++ match text with JStr str | JStrObj str => spans_of str | _ => [] end).
  { intros el text. destruct text, el; cbn; now rewrite ?app_nil_r. }
  destruct a as [r | | r | | | sp | cb | | | |]; cbn [writes typed_spans];
    rewrite ?app_nil_r; try reflexivity.
  - exact (proj1 (tick_effect_frame sw sp d)).
  - destruct cb as [r | r |]; cbn [writes typed_spans];
      rewrite ?app_nil_r; try reflexivity; apply Hty.
Qed.

Lemma spawned_ticks (a : action) (h first : nat) (now : Z) (i : nat) (sp : span) :
  nth_error (typed_spans a) i = Some sp ->
  exists y, In y (spawned a h first now) /\ act y = Tick (first + i).
Proof.
  assert (Htw : forall str cb,
             nth_error (spans_of str) i = Some sp ->
             exists y, In y (typewriter_timers str cb h first now)
                       /\ act y = Tick (first + i)).
  { intros str cb Hn.
    assert (Hi : (i < String.length str)%nat).
    { rewrite <- length_spans_of. apply nth_error_Some. now rewrite Hn. }
    exists (ms_tick h first now
              (if (100 <? String.length str)%nat then 25 else 50) i).
    split; [| reflexivity].
    unfold typewriter_timers. apply in_or_app. left.
    apply in_map. apply in_seq. lia. }
  assert (Hty : forall text cb,
             nth_error match text with JStr str | JStrObj str => spans_of str | _ => [] end i
             = Some sp ->
             exists y, In y (typed_timers text cb h first now)
                       /\ act y = Tick (first + i)).
  { intros text cb Hn.
    destruct text; try (now destruct i); now apply Htw. }
  destruct a as [r | | r | | | k | cb | | | |]; cbn [typed_spans spawned];
    intros Hn; try (now destruct i).
  - destruct (Htw _ (CbArtist r) Hn) as (y & Hy & Ey). exists y.
    split; [apply in_or_app; now left | exact Ey].
  - destruct cb as [r | r |]; try (now destruct i); now apply Hty.
Qed.

Lemma fire_accounted (sw : Dom -> Z) (f : nat) (x : timer) (s : State) :
  wf s -> accounted f s -> In x (timers s) -> accounted f (fire sw x s).
Proof.
  intros Hwf Hacc Hx j sp Hj Hn. rewrite fire_eq in *.
  cbn [fired_state dom timers] in *. rewrite writes_nodes in Hn.
  assert (Hkeep : forall y, In y (timers s) -> y <> x ->
                            (exists k, act y = Tick k) ->
                            In y (filter
                                    (fun y => negb (Nat.eqb (tid y) (tid x)
                                                    || gone_by (act x) s y))
                                    (timers s))).
  { intros y Hy Hne (k & Ek). apply filter_In. split; [exact Hy |].
    apply negb_true_iff, orb_false_iff. split.
    - apply Nat.eqb_neq. intros E. apply Hne.
      now apply (wf_same_tid s y x Hwf Hy Hx).
    - destruct (act x); try reflexivity. cbn [gone_by].
      now apply (wf_not_tracked s y k Hwf Hy). }
  set (base := match act x with
               | Tick k => show_at k (nodes (dom s))
               | _ => nodes (dom s)
               end) in *.
  assert (Hlen : List.length base = List.length (nodes (dom s)))
    by (unfold base; destruct (act x); try reflexivity; apply length_show_at).
  destruct (Nat.lt_ge_cases j (List.length base)) as [Hlt | Hge].
  - rewrite nth_error_app1 in Hn by exact Hlt.
    assert (Hold : forall sp0, nth_error (nodes (dom s)) j = Some sp0 ->
                     act x <> Tick j ->
                     shown sp0 = true
                     \/ exists y, In y (filter
                                    (fun y => negb (Nat.eqb (tid y) (tid x)
                                                    || gone_by (act x) s y))
                                    (timers s)) /\ act y = Tick j).
    { intros sp0 H0 Hne. destruct (Hacc j sp0 Hj H0) as [Hs | (y & Hy & Ey)];
        [now left | right].
      exists y. split; [| exact Ey]. apply Hkeep; [exact Hy | | now exists j].
      intros ->. now apply Hne. }
    unfold base in Hn. destruct (act x) as [| | | | | k | | | | |] eqn:Ea;
      try (destruct (Hold sp Hn ltac:(discriminate)) as [Hs | (y & Hy & Ey)];
           [now left | right; exists y; split;
                       [apply in_or_app; now left | exact Ey]]).
    rewrite nth_error_show_at in Hn.
    destruct (Nat.eqb j k) eqn:Ejk.
    + destruct (nth_error (nodes (dom s)) j); [| discriminate].
      cbn [option_map] in Hn. injection Hn as <-. now left.
    + apply Nat.eqb_neq in Ejk.
      destruct (Hold sp Hn) as [Hs | (y & Hy & Ey)];
        [intros E; injection E as E; now apply Ejk | now left |].
      right. exists y. split; [apply in_or_app; now left | exact Ey].
  - rewrite nth_error_app2 in Hn by exact Hge.
    destruct (spawned_ticks (act x) (next_tid s) (List.length (nodes (dom s)))
                (Z.max (clock s) (due x)) _ _ Hn) as (y & Hy & Ey).
    right. exists y. split; [apply in_or_app; now right |].
    rewrite Ey. f_equal. lia.
Qed.

(** ** Nothing hides a cycle before its auto-hide *)

Lemma typed_width (el : field) (text : jsval) (d : Dom) :
  lt_width (typed el text d) = lt_width d.
Proof. destruct text, el; reflexivity. Qed.

Lemma tick_width_range (sw : Dom -> Z) (sp : nat) (d : Dom) :
  1000 <= box_width d <= 1600 ->
  1000 <= box_width (tick_effect sw sp d) <= 1600.
Proof.
  unfold tick_effect, box_width. cbv zeta. intros H.
  change (lt_width (show_span sp d)) with (lt_width d).
  destruct (lt_width d) as [w |] eqn:Ew; [| lia].
  pose proof (size_calc_range (sw (show_span sp d))) as Hr.
  unfold baseWidth, maxWidth in Hr.
  destruct (w <? _); cbn [lt_width set_lt_width show_span set_nodes];
    rewrite ?Ew; lia.
Qed.

Lemma writes_width_range (sw : Dom -> Z) (a : action) (d : Dom) :
  is_exit a = false ->
  is_expand a = true \/ 1000 <= box_width d <= 1600 ->
  1000 <= box_width (writes sw a d) <= 1600.
Proof.
  intros He Hw.
  destruct a as [r | | r | | | sp | cb | | | |]; try discriminate;
    try (destruct Hw as [Hw | Hw]; [discriminate |]);
    try exact Hw.
  - unfold box_width. cbn. lia.
  - now apply tick_width_range.
  - destruct cb as [r | r |]; cbn [writes]; unfold box_width in *;
      rewrite ?typed_width; exact Hw.
Qed.

Lemma spawned_opening (a : action) (h first : nat) (now : Z) (y : timer) :
  is_exit a = false -> is_auto_hide a = false ->
  In y (spawned a h first now) ->
  is_exit (act y) = false
  /\ is_delayed_start (act y) = false
  /\ (is_auto_hide (act y) = true ->
      is_delayed_start a = true /\ due y = now + 12000).
Proof.
  assert (Htw : forall str cb,
             In y (typewriter_timers str cb h first now) ->
             is_exit (act y) = false /\ is_delayed_start (act y) = false
             /\ is_auto_hide (act y) = false).
  { intros str cb Hy. apply typewriter_timers_acts in Hy.
    destruct Hy as [(sp & ->) | ->]; repeat split. }
  assert (Hty : forall text cb,
             In y (typed_timers text cb h first now) ->
             is_exit (act y) = false /\ is_delayed_start (act y) = false
             /\ is_auto_hide (act y) = false).
  { intros text cb Hy. destruct text; try (now destruct Hy);
      now apply Htw in Hy. }
  intros He Ha.
  destruct a as [d | | d | | | sp | cb | | | |]; try discriminate;
    cbn [spawned]; intros Hy; try (now destruct Hy).
  - in_cases Hy; subst y; cbn [act due is_exit is_delayed_start is_auto_hide];
      repeat split; discriminate.
  - apply in_app_or in Hy. destruct Hy as [Hy | [<- | []]].
    + apply Htw in Hy. destruct Hy as (-> & -> & ->).
      repeat split; discriminate.
    + repeat split; discriminate.
  - destruct cb as [d | d |]; try (now destruct Hy);
      apply Hty in Hy; destruct Hy as (-> & -> & ->);
      repeat split; discriminate.
Qed.

Lemma fire_opening (sw : Dom -> Z) (T0 t : Z) (x : timer) (s : State) :
  wf s -> punctual s -> due_by t s = Some x ->
  opening T0 s -> opening T0 (fire sw x s).
Proof.
  intros Hwf Hp Hd Ho Hc. rewrite fire_eq in *.
  assert (Hx : In x (timers s)) by (now apply due_by_In in Hd).
  assert (Hnow : Z.max (clock s) (due x) = due x) by (apply Z.max_r, Hp, Hx).
  cbn [fired_state clock timers dom] in *. rewrite Hnow in *.
  pose proof (Hp x Hx) as Hcx.
  destruct (Ho ltac:(lia)) as (Hall & Hw).
  destruct (Hall x Hx) as (Hex & Hax & Hdx).
  assert (Hnah : is_auto_hide (act x) = false).
  { destruct (is_auto_hide (act x)); [| reflexivity].
    specialize (Hax eq_refl). lia. }
  assert (Hgone : forall y, gone_by (act x) s y = false)
    by (intros y; destruct (act x); try reflexivity; discriminate).
  split.
  - intros y Hy. apply in_app_or in Hy. destruct Hy as [Hy | Hy].
    + apply filter_In in Hy. now apply Hall.
    + destruct (spawned_opening _ _ _ _ _ Hex Hnah Hy) as (H1 & H2 & H3).
      split; [exact H1 | split].
      * intros Hay. destruct (H3 Hay) as (Hds & ->).
        specialize (Hdx Hds). lia.
      * rewrite H2. discriminate.
  - destruct (is_delayed_start (act x)) eqn:Eds.
    { left. destruct (act x) as [r | | | | | | | | | |]; try discriminate.
      eexists. split; [apply in_or_app; right; cbn [spawned]; left; reflexivity |].
      reflexivity. }
    destruct (is_expand (act x)) eqn:Eex.
    { right. apply writes_width_range; [exact Hex | now left]. }
    destruct Hw as [(y & Hy & Hk) | Hw].
    + left. exists y. split; [| exact Hk].
      apply in_or_app. left. apply filter_In. split; [exact Hy |].
      rewrite Hgone, orb_false_r. apply negb_true_iff, Nat.eqb_neq.
      intros E. apply (wf_same_tid s y x Hwf Hy Hx) in E. subst y.
      rewrite Eds, Eex in Hk. discriminate.
    + right. apply writes_width_range; [exact Hex | now right].
Qed.

Lemma reveal_reach_nonneg (a : action) (r : Z) :
  reveal_reach a = Some r -> 0 <= r.
Proof.
  intros H.
  assert (Hl : forall v, 0 <= last_reveal v) by apply last_reveal_nonneg.
  destruct a as [d | | d | | | sp | cb | | | |]; try discriminate;
    try destruct cb as [d | d |]; try discriminate;
    unfold reveal_reach in H; some_eq H;
    try pose proof (artist_reach_nonneg d);
    try specialize (Hl (js_or (song d) "Song Title")); lia.
Qed.

Lemma cycle_fire (sw : Dom -> Z) (f : nat) (D T0 t : Z) (x : timer) (s : State) :
  due_by t s = Some x -> cycle_inv f D T0 s -> cycle_inv f D T0 (fire sw x s).
Proof.
  intros Hd (Hwf & Hp & Hr & Ha & Ho).
  assert (Hx : In x (timers s)) by (now apply due_by_In in Hd).
  split; [now apply wf_fire |].
  split; [now apply (fire_punctual sw t) |].
  split; [now apply (fire_reveals sw D t) |].
  split; [now apply fire_accounted |].
  now apply (fire_opening sw T0 t).
Qed.

Lemma cycle_wait (f : nat) (D T0 T : Z) (s : State) :
  (forall x, In x (timers s) -> T < due x) ->
  cycle_inv f D T0 s -> cycle_inv f D T0 (set_clock (Z.max (clock s) T) s).
Proof.
  intros Hlate (Hwf & Hp & Hr & Ha & Ho).
  split; [now apply wf_set_clock |].
  split; [| split; [exact Hr | split; [exact Ha |]]].
  - intros y Hy. cbn [clock timers set_clock] in *.
    specialize (Hp y Hy). specialize (Hlate y Hy). lia.
  - intros Hc. cbn [clock timers dom set_clock] in *. apply Ho. lia.
Qed.

Lemma cycle_advance (sw : Dom -> Z) (f : nat) (D T0 T : Z) (fuel : nat)
    (s s' : State) :
  cycle_inv f D T0 s -> advance sw fuel T s = Some s' -> cycle_inv f D T0 s'.
Proof.
  apply (advance_invariant sw (cycle_inv f D T0)).
  - intros t x s0 Hd. now apply cycle_fire with (t := t).
  - intros t s0. apply cycle_wait.
Qed.

(** ** The overlay while it holds *)

Lemma cycle_play (arg : option request) (s : State) (D T0 : Z) :
  wf s -> timers s = [] ->
  clock s + 4100
  + (if has_split (js_or (artist (data_of arg)) "Artist Name")
     then typing_time (js_or (artist (data_of arg)) "Artist Name")
          + last_reveal (js_or (song (data_of arg)) "Song Title")
     else 0) <= D ->
  T0 < clock s + 13000 ->
  cycle_inv (List.length (nodes (dom s))) D T0 (play arg s).
Proof.
  intros Hwf Hq HD HT.
  destruct (play_registry arg s) as (Ht & _ & Hc & _).
  rewrite Hq in Ht. cbn [filter app] in Ht.
  assert (Hn : nodes (dom (play arg s)) = nodes (dom s)).
  { rewrite play_eq. cbn [dom set_delayedStartTimeout register with_dom].
    change (nodes (play_reset ?d)) with (nodes d).
    now rewrite !(proj1 (proj2 (proj2 (clearTimeout_frame _ _)))). }
  split; [now apply wf_play |].
  split; [| split; [| split]].
  - intros y Hy. rewrite Ht in Hy. destruct Hy as [<- | []].
    rewrite Hc. cbn [due]. lia.
  - intros y r Hy Hr. rewrite Ht in Hy. destruct Hy as [<- | []].
    cbn [act due] in *. unfold reveal_reach in Hr. some_eq Hr. lia.
  - intros j sp Hj Hnth. rewrite Hn in Hnth.
    apply nth_error_None in Hj. rewrite Hj in Hnth. discriminate.
  - intros _. split.
    + intros y Hy. rewrite Ht in Hy. destruct Hy as [<- | []].
      cbn [act due is_exit is_auto_hide is_delayed_start].
      split; [reflexivity | split; [discriminate | intros _; lia]].
    + left. eexists. split; [rewrite Ht; left; reflexivity | reflexivity].
Qed.

Lemma cycle_done (f : nat) (D T0 T : Z) (s : State) :
  cycle_inv f D T0 s -> (forall x, In x (timers s) -> T < due x) -> D <= T ->
  (forall y, In y (timers s) -> is_tick (act y) = false)
  /\ (forall j sp, (f <= j)%nat -> nth_error (nodes (dom s)) j = Some sp ->
                   shown sp = true).
Proof.
  intros (_ & _ & Hr & Ha & _) Hlate HD.
  assert (Hno : forall y, In y (timers s) -> is_tick (act y) = false).
  { intros y Hy. destruct (act y) as [| | | | | k | | | | |] eqn:Ey;
      try reflexivity.
    specialize (Hr y 0 Hy). rewrite Ey in Hr. specialize (Hr eq_refl).
    specialize (Hlate y Hy). lia. }
  split; [exact Hno |].
  intros j sp Hj Hn. destruct (Ha j sp Hj Hn) as [Hs | (y & Hy & Ey)];
    [exact Hs |].
  specialize (Hno y Hy). rewrite Ey in Hno. discriminate.
Qed.

Lemma rendered_shown (el : field) (d : Dom) (a : nat) (l : list span) :
  children el d = seq a (List.length l) ->
  (forall i sp, nth_error l i = Some sp ->
                nth_error (nodes d) (a + i)
                = Some {| html := html sp; shown := true |}) ->
  rendered el d = map (fun sp => {| html := html sp; shown := true |}) l.
Proof.
  unfold rendered. intros -> H. revert a H.
  induction l as [| sp l IH]; intros a H; [reflexivity |].
  cbn [List.length seq flat_map map].
  pose proof (H 0%nat sp eq_refl) as H0. rewrite Nat.add_0_r in H0.
  rewrite H0. cbn [app]. f_equal. apply IH.
  intros i sp' Hi. specialize (H (S i) sp' Hi).
  now rewrite Nat.add_succ_r in H.
Qed.

Lemma shown_of_hidden (N L : list span) (f : nat) :
  map hide_span N = L ->
  (forall j sp, (f <= j)%nat -> nth_error N j = Some sp -> shown sp = true) ->
  forall j sp, (f <= j)%nat -> nth_error L j = Some sp ->
               nth_error N j = Some {| html := html sp; shown := true |}.
Proof.
  intros <- Hs j sp Hj Hn. rewrite nth_error_map in Hn.
  destruct (nth_error N j) as [sp1 |] eqn:E1; [| discriminate].
  cbn [option_map] in Hn. injection Hn as <-.
  specialize (Hs j sp1 Hj E1). destruct sp1 as [h b].
  cbn [shown html hide_span] in *. now subst b.
Qed.

Lemma nth_error_middle {A : Type} (l0 x r : list A) (i : nat) (v : A) :
  nth_error x i = Some v ->
  nth_error (l0 ++ x ++ r) (List.length l0 + i) = Some v.
Proof.
  intros H. rewrite nth_error_app2 by lia.
  replace (List.length l0 + i - List.length l0)%nat with i by lia.
  rewrite nth_error_app1; [exact H |].
  apply nth_error_Some. now rewrite H.
Qed.

Lemma filter_all {A : Type} (p : A -> bool) (l : list A) :
  (forall x, In x l -> p x = true) -> filter p l = l.
Proof.
  induction l as [| a l IH]; intros H; [reflexivity |].
  cbn [filter]. rewrite (H a (or_introl eq_refl)). f_equal.
  apply IH. intros x Hx. apply H. now right.
Qed.

Lemma backlog_rest (s : State) : timers s = [] -> backlog s = 0%nat.
Proof. unfold backlog. now intros ->. Qed.

(** From the outline to the state: a cycle that starts with nothing
    pending, read at a time [T] by which its reveals have run and its
    auto-hide has not. The state has the timers, the handles, the
    exceptions and the document of the outline, every span of the cycle
    is opaque, and the box is open. *)
Lemma cycle_bridge (sw : Dom -> Z) (arg : option request) (s : State) (T : Z)
    (fuel k : nat) (o : State) :
  wf s -> timers s = [] ->
  clock s + 4100
  + (if has_split (js_or (artist (data_of arg)) "Artist Name")
     then typing_time (js_or (artist (data_of arg)) "Artist Name")
          + last_reveal (js_or (song (data_of arg)) "Song Title")
     else 0) <= T
  < clock s + 13000 ->
  (weight (DelayedStart (data_of arg)) <= fuel)%nat ->
  outline_run k T (outline (play arg s)) = Some o ->
  exists s',
    advance sw fuel T (play arg s) = Some s'
    /\ wf s' /\ clock s' = T
    /\ timers s' = timers o
    /\ autoHideTimeout s' = autoHideTimeout o
    /\ uncaught s' = uncaught o
    /\ hide (dom s') = dom o
    /\ (forall j sp,
          (List.length (nodes (dom s)) <= j)%nat ->
          nth_error (nodes (dom o)) j = Some sp ->
          nth_error (nodes (dom s')) j
          = Some {| html := html sp; shown := true |})
    /\ ((exists y, In y (timers o)
                   /\ is_delayed_start (act y) || is_expand (act y) = true)
        \/ 1000 <= box_width (dom s') <= 1600).
Proof.
  intros Hwf Hq HT Hfuel Ho.
  set (f := List.length (nodes (dom s))).
  pose proof (artist_reach_nonneg (data_of arg)) as HtA.
  pose proof (backlog_play arg s) as Hb. rewrite (backlog_rest s Hq) in Hb.
  destruct (advance_returns sw T fuel (play arg s) ltac:(lia))
    as (s' & Hrun & _).
  exists s'. split; [exact Hrun |].
  (* the invariant of the cycle *)
  assert (Hinv0 : cycle_inv f T T (play arg s))
    by (apply cycle_play; [exact Hwf | exact Hq | lia | lia]).
  pose proof (cycle_advance sw f T T T fuel _ _ Hinv0 Hrun) as Hinv.
  pose proof (advance_leaves_none_due sw fuel T _ _ Hrun) as Hlate.
  destruct (cycle_done f T T T s' Hinv Hlate ltac:(lia)) as (Hnotick & Hshown).
  (* the clock *)
  assert (Hp0 : punctual s) by (intros y Hy; rewrite Hq in Hy; destruct Hy).
  assert (Hs0 : settles_by (clock s + command_time (Play arg)) s)
    by (intros y Hy; rewrite Hq in Hy; destruct Hy).
  destruct (command_settles _ (Play arg) s Hp0 Hs0 ltac:(lia))
    as (Hp1 & Hs1 & Hc1).
  cbn [run_command] in Hp1, Hs1, Hc1.
  destruct (advance_settles sw _ T fuel _ _ Hp1 Hs1 Hrun) as (_ & _ & Hck & _).
  rewrite Hc1 in Hck.
  (* the outline *)
  pose proof (advance_outline sw T fuel _ _ (wf_play arg s Hwf) Hp1 Hrun) as Ho'.
  pose proof (outline_run_fuel T _ _ _ _ _ Ho' Ho) as Eo.
  assert (Et : timers s' = timers o).
  { rewrite <- Eo. cbn [outline timers]. symmetry. apply filter_all.
    intros y Hy. now rewrite (Hnotick y Hy). }
  assert (Ed : hide (dom s') = dom o) by (now rewrite <- Eo).
  assert (En : map hide_span (nodes (dom s')) = nodes (dom o))
    by (now rewrite <- Ed).
  destruct Hinv as (Hwf' & _ & _ & _ & Hopen).
  split; [exact Hwf' |].
  split; [lia |].
  split; [exact Et |].
  split; [now rewrite <- Eo |].
  split; [now rewrite <- Eo |].
  split; [exact Ed |].
  split; [exact (shown_of_hidden _ _ f En Hshown) |].
  destruct (Hopen ltac:(lia)) as (_ & [(y & Hy & Hk) | Hw]); [| now right].
  left. exists y. rewrite <- Et. now split.
Qed.

(** A style that [hide] leaves alone, and the children of an element, are
    those of the outline. *)
Lemma hidden_children (el : field) (d : Dom) :
  children el (hide d) = children el d.
Proof. destruct el; reflexivity. Qed.

(** A line of the outline whose spans are all opaque in the state. *)
Lemma rendered_line (el : field) (d o : Dom) (l0 r : list span) (str : string) :
  hide d = o ->
  children el o = seq (List.length l0) (String.length str) ->
  nodes o = l0 ++ spans_of str ++ r ->
  (forall j sp, (List.length l0 <= j)%nat -> nth_error (nodes o) j = Some sp ->
                nth_error (nodes d) j = Some {| html := html sp; shown := true |}) ->
  rendered el d = fully_shown str.
Proof.
  intros Ed Hc Hn Hs.
  apply (rendered_shown el d (List.length l0) (spans_of str)).
  - now rewrite <- (hidden_children el d), Ed, length_spans_of.
  - intros i sp Hi. apply Hs; [lia |]. rewrite Hn.
    now apply nth_error_middle.
Qed.

(** A cycle that starts with nothing pending, at the time [T] at which the
    three lines are typed and the auto-hide has not run: the state the
    event loop is in. *)
Lemma cycle_hold (sw : Dom -> Z) (arg : option request) (s : State) (T : Z)
    (A S : string) (fuel : nat) :
  wf s -> timers s = [] ->
  unboxed (js_or (artist (data_of arg)) "Artist Name") = JStr A ->
  unboxed (js_or (song (data_of arg)) "Song Title") = JStr S ->
  clock s + 4100 + typing_time (JStr A) + typing_time (JStr S) <= T
  < clock s + 13000 ->
  (weight (DelayedStart (data_of arg)) <= fuel)%nat ->
  exists s',
    advance sw fuel T (play arg s) = Some s'
    /\ wf s' /\ clock s' = T
    /\ timers s' = [{| tid := next_tid s + 3; due := clock s + 13000;
                       act := AutoHide |}]
    /\ autoHideTimeout s' = Some (next_tid s + 3)%nat
    /\ uncaught s' = uncaught s
    /\ rendered NowPlaying (dom s') = fully_shown "Now Playing:"
    /\ rendered Artist (dom s') = fully_shown A
    /\ rendered Song (dom s') = fully_shown S
    /\ lt_bottom (dom s') = Some 40
    /\ logo_bottom (dom s') = Some (-80)
    /\ tc_opacity (dom s') = Some 1
    /\ logo_transform (dom s') = Some Flourish
    /\ logo_shimmer (dom s') = false
    /\ 1000 <= box_width (dom s') <= 1600.
Proof.
  intros Hwf Hq HA HS HT Hfuel.
  destruct (outline_hold arg s T A S Hq HA HS HT)
    as (o & Ho & Hto & Hao & Huo & Hlb & Hgb & Hop & Htr & Hsh & Hnp & Har
        & Hso & Hno).
  pose proof (typing_time_last (JStr S)) as HlS.
  destruct (cycle_bridge sw arg s T fuel 7 o Hwf Hq
              ltac:(rewrite has_split_unboxed, typing_time_unboxed,
                      last_reveal_unboxed, HA, HS; cbn [has_split]; lia)
              Hfuel Ho)
    as (s' & Hrun & Hwf' & Hck & Et & Ea & Eu & Ed & Hnth & Hw).
  set (f := List.length (nodes (dom s))) in *.
  set (l0 := map hide_span (nodes (dom s))) in *.
  assert (Hl0 : List.length l0 = f) by apply length_map.
  exists s'. split; [exact Hrun |].
  split; [exact Hwf' |]. split; [exact Hck |].
  split; [now rewrite Et |]. split; [now rewrite Ea |].
  split; [now rewrite Eu |].
  split; [| split; [| split]].
  - apply (rendered_line NowPlaying (dom s') (dom o) l0
             (spans_of A ++ spans_of S) "Now Playing:" Ed).
    + now rewrite Hl0.
    + exact Hno.
    + rewrite Hl0. exact Hnth.
  - apply (rendered_line Artist (dom s') (dom o)
             (l0 ++ spans_of "Now Playing:") (spans_of S) A Ed).
    + rewrite length_app, Hl0. exact Har.
    + now rewrite Hno, <- app_assoc.
    + intros j sp Hj. apply Hnth. rewrite length_app in Hj. lia.
  - apply (rendered_line Song (dom s') (dom o)
             (l0 ++ spans_of "Now Playing:" ++ spans_of A) [] S Ed).
    + rewrite !length_app, Hl0, !length_spans_of, Nat.add_assoc. exact Hso.
    + now rewrite Hno, app_nil_r, <- !app_assoc.
    + intros j sp Hj. apply Hnth. rewrite length_app in Hj. lia.
  - assert (Hst : forall (X : Type) (p : Dom -> X),
               (forall d, p (hide d) = p d) -> p (dom s') = p (dom o))
      by (intros X p Hp; now rewrite <- Ed, Hp).
    split; [rewrite <- Hlb; now apply (Hst _ lt_bottom) |].
    split; [rewrite <- Hgb; now apply (Hst _ logo_bottom) |].
    split; [rewrite <- Hop; now apply (Hst _ tc_opacity) |].
    split; [rewrite <- Htr; now apply (Hst _ logo_transform) |].
    split; [rewrite <- Hsh; now apply (Hst _ logo_shimmer) |].
    destruct Hw as [(y & Hy & Hk) | Hw]; [| exact Hw].
    rewrite Hto in Hy. destruct Hy as [<- | []]. discriminate.
Qed.

(** ** The end of a cycle *)

Lemma advance_le (sw : Dom -> Z) (T : Z) (f1 f2 : nat) (s s' : State) :
  (f1 <= f2)%nat -> advance sw f1 T s = Some s' -> advance sw f2 T s = Some s'.
Proof.
  intros Hle H. induction Hle as [| f2 _ IH]; [exact H |].
  now apply advance_more.
Qed.

Lemma advance_fired (sw : Dom -> Z) (f : nat) (T : Z) (s : State) (x : timer) :
  due_by T s = Some x -> advance sw (S f) T s = advance sw f T (fire sw x s).
Proof. intros H. cbn [advance]. now rewrite H. Qed.

(** When every pending timer is one of the two the script tracks, [stop]
    clears the registry before it registers its own. *)
Lemma stop_drops_tracked (s : State) :
  (forall x, In x (timers s) -> tracked s x = true) ->
  stop s = stop (set_timers [] s).
Proof.
  intros H. rewrite !stop_eq.
  rewrite (clearTimeout_none_pending (autoHideTimeout (set_timers [] s))
             (set_timers [] s) eq_refl).
  rewrite (clearTimeout_none_pending (delayedStartTimeout (set_timers [] s))
             (set_timers [] s) eq_refl).
  assert (E : clearTimeout (delayedStartTimeout s)
                (clearTimeout (autoHideTimeout s) s) = set_timers [] s).
  { apply state_ext;
      rewrite ?cleared_tracked, ?(proj1 (clearTimeout_frame _ _)),
        ?(proj1 (proj2 (clearTimeout_frame _ _))),
        ?(proj1 (proj2 (proj2 (clearTimeout_frame _ _)))),
        ?(proj1 (proj2 (proj2 (proj2 (clearTimeout_frame _ _))))),
        ?(proj1 (proj2 (proj2 (proj2 (proj2 (clearTimeout_frame _ _)))))),
        ?(proj2 (proj2 (proj2 (proj2 (proj2 (clearTimeout_frame _ _))))));
      try reflexivity.
    cbn [timers set_timers].
    induction (timers s) as [| x l IH]; [reflexivity |].
    cbn [filter]. rewrite (H x (or_introl eq_refl)). cbn [negb].
    apply IH. intros y Hy. apply H. now right. }
  rewrite E. reflexivity.
Qed.

(** The exit sequence from a state in which only tracked timers are
    pending: [stop] cancels them and its four closures run alone. *)
Lemma stop_tracked_run (sw : Dom -> Z) (s : State) (t : Z) :
  (forall x, In x (timers s) -> tracked s x = true) -> 0 <= t ->
  exists s',
    advance sw 4 (clock s + t) (stop s) = Some s'
    /\ dom s' = exit_progress t (dom s)
    /\ clock s' = clock s + t
    /\ uncaught s' = uncaught s
    /\ (3500 <= t -> timers s' = []).
Proof.
  intros H Ht. rewrite (stop_drops_tracked s H).
  exact (stop_quiescent_run sw (set_timers [] s) t eq_refl Ht).
Qed.

(** The auto-hide, when it is the only timer pending: it runs at its due
    time and the exit sequence follows. *)
Lemma auto_hide_run (sw : Dom -> Z) (s : State) (x : timer) (T : Z) :
  timers s = [x] -> act x = AutoHide -> clock s <= due x <= T ->
  exists s',
    advance sw 5 T s = Some s'
    /\ dom s' = exit_progress (T - due x) (dom s)
    /\ clock s' = T
    /\ uncaught s' = uncaught s
    /\ (due x + 3500 <= T -> timers s' = []).
Proof.
  intros Ht Ha Hc.
  set (s1 := set_clock (due x) (set_timers [] s)).
  destruct (stop_quiescent_run sw s1 (T - due x) eq_refl ltac:(lia))
    as (s' & Hrun & Hd & Hck & Hu & Hq).
  replace (clock s1 + (T - due x)) with T in * by (cbn [s1 clock set_clock]; lia).
  exists s'.
  assert (Hdue : due_by T s = Some x).
  { unfold due_by. rewrite Ht. cbn [next_timer].
    destruct (Z.leb_spec (due x) T); [reflexivity | lia]. }
  assert (Hf : fire sw x s = stop s1).
  { unfold fire. rewrite Ha. cbn [exec]. f_equal.
    unfold clearTimeout. rewrite Ht. cbn [filter]. rewrite Nat.eqb_refl.
    cbn [negb clock set_timers]. rewrite Z.max_r by lia. reflexivity. }
  split; [rewrite (advance_fired sw 4 T s x Hdue), Hf; exact Hrun |].
  split; [exact Hd |]. split; [exact Hck |]. split; [exact Hu |].
  intros H. apply Hq. lia.
Qed.

Lemma exit_progress_text (el : field) (t : Z) (d : Dom) :
  rendered el (exit_progress t d) = rendered el d.
Proof.
  unfold exit_progress.
  destruct (500 <=? t), (1200 <=? t), (1800 <=? t), (3500 <=? t), el;
    reflexivity.
Qed.

Lemma exit_progress_done (t : Z) (d : Dom) :
  3500 <= t ->
  box_width (exit_progress t d) = 0 /\ box_bottom (exit_progress t d) = -200
  /\ text_opacity (exit_progress t d) = 0 /\ logo_pos (exit_progress t d) = -350
  /\ logo_turn (exit_progress t d) = Scale1Rot0.
Proof.
  intros H. unfold exit_progress. settle_leb. repeat split.
Qed.

(** ** A whole cycle *)

(** X5. A cycle that starts with nothing pending shows the request. For
    every request whose artist and song are strings (or fall back to the
    defaults), every rendering surface and every well-formed state with no
    timer pending: from the moment the song line is typed (4100 ms after
    the call plus the typing times of the artist and the song) until the
    auto-hide runs (13000 ms after the call) the three lines read
    "Now Playing:", the artist and the song with every character opaque,
    the text container is opaque, the box is on stage at 40px and between
    1000 and 1600 wide, the logo sits at -80px with its flourish and
    without shimmer, no exception was raised, and the only timer pending
    is the auto-hide. *)
Theorem cycle_shows_request (sw : Dom -> Z) (arg : option request) (s : State)
    (T : Z) (A S : string) :
  wf s -> timers s = [] ->
  js_or (artist (data_of arg)) "Artist Name" = JStr A ->
  js_or (song (data_of arg)) "Song Title" = JStr S ->
  clock s + 4100 + typing_time (JStr A) + typing_time (JStr S) <= T
  < clock s + 13000 ->
  exists s',
    advance sw (weight (DelayedStart (data_of arg))) T (play arg s) = Some s'
    /\ rendered NowPlaying (dom s') = fully_shown "Now Playing:"
    /\ rendered Artist (dom s') = fully_shown A
    /\ rendered Song (dom s') = fully_shown S
    /\ text_opacity (dom s') = 1
    /\ box_bottom (dom s') = 40
    /\ 1000 <= box_width (dom s') <= 1600
    /\ logo_pos (dom s') = -80
    /\ logo_turn (dom s') = Flourish
    /\ logo_shimmer (dom s') = false
    /\ uncaught s' = uncaught s
    /\ timers s' = [{| tid := next_tid s + 3; due := clock s + 13000;
                       act := AutoHide |}].
Proof.
  intros Hwf Hq HA HS HT.
  destruct (cycle_hold sw arg s T A S _ Hwf Hq (unboxed_string _ _ HA)
              (unboxed_string _ _ HS) HT (Nat.le_refl _))
    as (s' & Hrun & _ & _ & Ht & _ & Hu & Hnp & Har & Hso & Hlb & Hgb & Hop
        & Htr & Hsh & Hw).
  exists s'. unfold text_opacity, box_bottom, logo_pos, logo_turn.
  rewrite Hlb, Hgb, Hop, Htr.
  repeat (split; [assumption || reflexivity |]). exact Ht.
Qed.

Lemma cycle_shows_request_witness :
  exists s',
    advance glyph_layout (weight (DelayedStart request_metallica)) 10000
      (play (Some request_metallica) page_load) = Some s'
    /\ rendered Artist (dom s') = fully_shown "Metallica"
    /\ rendered Song (dom s') = fully_shown "Enter Sandman"
    /\ text_opacity (dom s') = 1
    /\ box_bottom (dom s') = 40.
Proof.
  destruct (cycle_shows_request glyph_layout (Some request_metallica) page_load
              10000 "Metallica" "Enter Sandman")
    as (s' & Hrun & _ & Har & Hso & Hop & Hlb & _).
  - exact wf_page_load.
  - reflexivity.
  - reflexivity.
  - reflexivity.
  - vm_compute. split; [discriminate | reflexivity].
  - exists s'. repeat (split; [assumption |]). exact Hlb.
Defined.

(** X6. The auto-hide ends the cycle. When the three lines are typed
    before the auto-hide runs (their typing times add up to less than
    8900 ms), a cycle that starts with nothing pending is back at rest
    16500 ms after the call with no further command: no timer is pending,
    the box is 0 wide and off stage at -200px, the text container is
    transparent, the logo is at -350px without its flourish, and no
    exception was raised; the three lines are still in the document, fully
    typed. *)
Theorem auto_hide_ends_cycle (sw : Dom -> Z) (arg : option request) (s : State)
    (T : Z) (A S : string) :
  wf s -> timers s = [] ->
  js_or (artist (data_of arg)) "Artist Name" = JStr A ->
  js_or (song (data_of arg)) "Song Title" = JStr S ->
  typing_time (JStr A) + typing_time (JStr S) < 8900 ->
  clock s + 16500 <= T ->
  exists s',
    advance sw (weight (DelayedStart (data_of arg))) T (play arg s) = Some s'
    /\ Idle s'
    /\ logo_pos (dom s') = -350
    /\ logo_turn (dom s') = Scale1Rot0
    /\ rendered NowPlaying (dom s') = fully_shown "Now Playing:"
    /\ rendered Artist (dom s') = fully_shown A
    /\ rendered Song (dom s') = fully_shown S
    /\ uncaught s' = uncaught s.
Proof.
  intros Hwf Hq HA HS Hfit HT.
  set (fuel := weight (DelayedStart (data_of arg))).
  set (T1 := clock s + 4100 + typing_time (JStr A) + typing_time (JStr S)).
  destruct (cycle_hold sw arg s T1 A S fuel Hwf Hq (unboxed_string _ _ HA)
              (unboxed_string _ _ HS)
              ltac:(unfold T1; lia) (Nat.le_refl _))
    as (sh & Hh & _ & Hck & Ht & _ & Hu & Hnp & Har & Hso & _).
  destruct (auto_hide_run sw sh _ T Ht eq_refl ltac:(cbn [due]; lia))
    as (s' & Hrun & Hd & _ & Hu' & Hrest).
  cbn [due] in *.
  exists s'. split.
  { pose proof (backlog_play arg s) as Hb. rewrite (backlog_rest s Hq) in Hb.
    destruct (advance_returns sw T fuel (play arg s) ltac:(unfold fuel; lia))
      as (s2 & Hrun2 & _).
    destruct (advance_split sw T1 T fuel ltac:(unfold T1; lia) _ _ Hrun2)
      as (s1 & H1 & H2).
    rewrite Hh in H1. injection H1 as <-.
    now rewrite (advance_fuel sw T _ _ _ _ _ Hrun H2). }
  destruct (exit_progress_done (T - (clock s + 13000)) (dom sh) ltac:(lia))
    as (Hw & Hb & Ho & Hl & Htr).
  unfold Idle. rewrite Hd, !exit_progress_text.
  split; [split; [apply Hrest; lia | split; [exact Hw | split; [exact Hb | exact Ho]]] |].
  split; [exact Hl |]. split; [exact Htr |]. split; [exact Hnp |].
  split; [exact Har |]. split; [exact Hso |]. now rewrite Hu'.
Qed.

Lemma auto_hide_ends_cycle_witness :
  exists s',
    advance glyph_layout (weight (DelayedStart request_metallica)) 16500
      (play (Some request_metallica) page_load) = Some s'
    /\ Idle s'
    /\ rendered Song (dom s') = fully_shown "Enter Sandman".
Proof.
  destruct (auto_hide_ends_cycle glyph_layout (Some request_metallica) page_load
              16500 "Metallica" "Enter Sandman")
    as (s' & Hrun & Hidle & _ & _ & _ & _ & Hso & _).
  - exact wf_page_load.
  - reflexivity.
  - reflexivity.
  - reflexivity.
  - vm_compute. reflexivity.
  - vm_compute. discriminate.
  - exists s'. split; [exact Hrun |]. split; [exact Hidle | exact Hso].
Defined.

(** X7. [stop] while the overlay holds ends the cycle. When the three
    lines are typed and the auto-hide has not run, [stop] cancels the
    auto-hide, the only timer pending, and 3500 ms later the overlay is at
    rest as after an auto-hide: nothing pending, box 0 wide at -200px, text
    container transparent, logo at -350px, no exception; the three lines
    stay in the document. *)
Theorem stop_while_holding_rests (sw : Dom -> Z) (arg : option request)
    (s : State) (t T : Z) (A S : string) :
  wf s -> timers s = [] ->
  js_or (artist (data_of arg)) "Artist Name" = JStr A ->
  js_or (song (data_of arg)) "Song Title" = JStr S ->
  clock s + 4100 + typing_time (JStr A) + typing_time (JStr S) <= t
  < clock s + 13000 ->
  t + 3500 <= T ->
  exists s',
    session sw (weight (DelayedStart (data_of arg))) [(t, Stop)] T (play arg s)
    = Some s'
    /\ Idle s'
    /\ logo_pos (dom s') = -350
    /\ logo_turn (dom s') = Scale1Rot0
    /\ rendered NowPlaying (dom s') = fully_shown "Now Playing:"
    /\ rendered Artist (dom s') = fully_shown A
    /\ rendered Song (dom s') = fully_shown S
    /\ uncaught s' = uncaught s.
Proof.
  intros Hwf Hq HA HS Ht HT.
  set (fuel := weight (DelayedStart (data_of arg))).
  destruct (cycle_hold sw arg s t A S fuel Hwf Hq (unboxed_string _ _ HA)
              (unboxed_string _ _ HS) Ht (Nat.le_refl _))
    as (sh & Hh & _ & Hck & Hth & Hah & Hu & Hnp & Har & Hso & _).
  assert (Htr : forall x, In x (timers sh) -> tracked sh x = true).
  { intros x Hx. rewrite Hth in Hx. destruct Hx as [<- | []].
    unfold tracked. rewrite Hah. cbn [tid]. now rewrite Nat.eqb_refl. }
  destruct (stop_tracked_run sw sh (T - t) Htr ltac:(lia))
    as (s' & Hrun & Hd & _ & Hu' & Hrest).
  replace (clock sh + (T - t)) with T in Hrun by lia.
  exists s'. split.
  { cbn [session]. rewrite Hh. cbn [run_command].
    apply (advance_le sw T 4 fuel); [| exact Hrun].
    unfold fuel, weight. lia. }
  destruct (exit_progress_done (T - t) (dom sh) ltac:(lia))
    as (Hw & Hb & Ho & Hl & Htf).
  unfold Idle. rewrite Hd, !exit_progress_text.
  split; [split; [apply Hrest; lia | split; [exact Hw | split; [exact Hb | exact Ho]]] |].
  split; [exact Hl |]. split; [exact Htf |]. split; [exact Hnp |].
  split; [exact Har |]. split; [exact Hso |]. now rewrite Hu'.
Qed.

Lemma stop_while_holding_rests_witness :
  exists s',
    session glyph_layout (weight (DelayedStart request_metallica))
      [(8000, Stop)] 11500 (play (Some request_metallica) page_load) = Some s'
    /\ Idle s'
    /\ rendered Artist (dom s') = fully_shown "Metallica".
Proof.
  destruct (stop_while_holding_rests glyph_layout (Some request_metallica)
              page_load 8000 11500 "Metallica" "Enter Sandman")
    as (s' & Hrun & Hidle & _ & _ & _ & Har & _).
  - exact wf_page_load.
  - reflexivity.
  - reflexivity.
  - reflexivity.
  - vm_compute. split; [discriminate | reflexivity].
  - vm_compute. discriminate.
  - exists s'. split; [exact Hrun |]. split; [exact Hidle | exact Har].
Defined.

(** ** A field without a split method *)

(** The outline of a cycle whose artist has no [split], once the callback
    that types the artist has run: it threw, the artist and the song line
    are empty, and the auto-hide is pending alone. *)
Lemma outline_bad_artist (arg : option request) (s : State) (T : Z) :
  timers s = [] ->
  has_split (js_or (artist (data_of arg)) "Artist Name") = false ->
  clock s + 4300 <= T < clock s + 13000 ->
  let f := List.length (nodes (dom s)) in
  exists o,
    outline_run 5 T (outline (play arg s)) = Some o
    /\ timers o = [{| tid := next_tid s + 3; due := clock s + 13000;
                      act := AutoHide |}]
    /\ autoHideTimeout o = Some (next_tid s + 3)%nat
    /\ uncaught o = S (uncaught s)
    /\ lt_bottom (dom o) = Some 40
    /\ logo_bottom (dom o) = Some (-80)
    /\ tc_opacity (dom o) = Some 1
    /\ logo_transform (dom o) = Some Flourish
    /\ logo_shimmer (dom o) = false
    /\ np_text (dom o) = seq f 12
    /\ artist_text (dom o) = []
    /\ song_text (dom o) = []
    /\ nodes (dom o)
       = map hide_span (nodes (dom s)) ++ spans_of "Now Playing:".
Proof.
  intros H HA HT f. rewrite (outline_play_rest arg s H).
  set (h := next_tid s). set (c := clock s) in *. set (d := data_of arg) in *.
  eexists. split.
  { erewrite outline_step by next_due. outline_fired. outline_tidy.
    erewrite outline_step by next_due. outline_fired. outline_tidy.
    erewrite outline_step by next_due. outline_fired. outline_tidy.
    change (Z.of_nat 12 * (if (100 <? 12)%nat then 25 else 50)) with 600.
    erewrite outline_step by next_due. outline_fired.
    rewrite (typed_timers_no_split _ _ _ _ _ HA), HA. outline_tidy.
    erewrite outline_step by next_due. outline_fired. outline_tidy.
    apply outline_done. next_due. }
  cbn [timers autoHideTimeout uncaught dom].
  split; [f_equal; f_equal; lia |].
  split; [f_equal; lia |].
  split; [reflexivity |].
  cbn [writes]. rewrite (typed_no_split _ _ _ HA).
  do 5 (split; [reflexivity |]).
  cbn [hide typed append_all set_children set_nodes set_lt_width set_lt_bottom
       set_logo_bottom set_logo_transform set_logo_shimmer set_tc_opacity
       set_logo_opacity play_reset children nodes np_text artist_text song_text].
  rewrite ?map_app, ?map_hide_hide, ?map_hide_spans, ?length_app, ?length_map,
    ?length_spans_of.
  cbn [String.length app].
  split; [reflexivity |]. split; [reflexivity |]. split; [reflexivity |].
  reflexivity.
Qed.

(** The same when the song has no [split]: the artist is typed, the
    callback that types the song threw, the song line is empty. *)
Lemma outline_bad_song (arg : option request) (s : State) (T : Z) (A : string) :
  timers s = [] ->
  unboxed (js_or (artist (data_of arg)) "Artist Name") = JStr A ->
  has_split (js_or (song (data_of arg)) "Song Title") = false ->
  clock s + 4100 + typing_time (JStr A) <= T < clock s + 13000 ->
  let f := List.length (nodes (dom s)) in
  exists o,
    outline_run 6 T (outline (play arg s)) = Some o
    /\ timers o = [{| tid := next_tid s + 3; due := clock s + 13000;
                      act := AutoHide |}]
    /\ autoHideTimeout o = Some (next_tid s + 3)%nat
    /\ uncaught o = S (uncaught s)
    /\ lt_bottom (dom o) = Some 40
    /\ logo_bottom (dom o) = Some (-80)
    /\ tc_opacity (dom o) = Some 1
    /\ logo_transform (dom o) = Some Flourish
    /\ logo_shimmer (dom o) = false
    /\ np_text (dom o) = seq f 12
    /\ artist_text (dom o) = seq (f + 12) (String.length A)
    /\ song_text (dom o) = []
    /\ nodes (dom o)
       = map hide_span (nodes (dom s)) ++ spans_of "Now Playing:" ++ spans_of A.
Proof.
  intros H HA HS HT f. rewrite (outline_play_rest arg s H).
  set (h := next_tid s). set (c := clock s) in *. set (d := data_of arg) in *.
  cbn [typing_time] in HT.
  set (ra := if (100 <? String.length A)%nat then 25 else 50) in *.
  assert (Hra : 0 <= Z.of_nat (String.length A) * ra)
    by (subst ra; destruct (100 <? String.length A)%nat; lia).
  eexists. split.
  { erewrite outline_step by next_due. outline_fired. outline_tidy.
    erewrite outline_step by next_due. outline_fired. outline_tidy.
    erewrite outline_step by next_due. outline_fired. outline_tidy.
    change (Z.of_nat 12 * (if (100 <? 12)%nat then 25 else 50)) with 600.
    erewrite outline_step by next_due. outline_fired.
    rewrite ?(typed_timers_unboxed (js_or (artist d) "Artist Name")),
      ?(has_split_unboxed (js_or (artist d) "Artist Name")), ?HA. outline_tidy.
    fold ra.
    erewrite outline_step by next_due. outline_fired. outline_tidy.
    erewrite outline_step by next_due. outline_fired.
    rewrite (typed_timers_no_split _ _ _ _ _ HS), HS. outline_tidy.
    apply outline_done. next_due. }
  cbn [timers autoHideTimeout uncaught dom].
  split; [f_equal; f_equal; lia |].
  split; [f_equal; lia |].
  split; [reflexivity |].
  cbn [writes].
  rewrite ?(typed_unboxed _ (js_or (artist d) "Artist Name")), ?HA,
    (typed_no_split _ _ _ HS).
  do 5 (split; [reflexivity |]).
  cbn [hide typed append_all set_children set_nodes set_lt_width set_lt_bottom
       set_logo_bottom set_logo_transform set_logo_shimmer set_tc_opacity
       set_logo_opacity play_reset children nodes np_text artist_text song_text].
  rewrite ?map_app, ?map_hide_hide, ?map_hide_spans, ?length_app, ?length_map,
    ?length_spans_of.
  cbn [String.length app].
  split; [reflexivity |]. split; [reflexivity |]. split; [reflexivity |].
  now rewrite <- !app_assoc.
Qed.

Lemma js_or_truthy (v : jsval) (dflt : string) :
  truthy v = true -> js_or v dflt = v.
Proof. unfold js_or. now intros ->. Qed.

Lemma rendered_empty (el : field) (d o : Dom) :
  hide d = o -> children el o = [] -> rendered el d = [].
Proof.
  intros Ed Hc. unfold rendered.
  now rewrite <- (hidden_children el d), Ed, Hc.
Qed.

(** X8. An artist that is truthy but has no [split] method (a number,
    [true], a plain object) stops the typing after the label; a String
    object has the method and is typed as the string it wraps
    ([createTypewriter_string_object]). The callback that hands such an
    artist to the typewriter empties the artist line and throws on
    [text.split]; the exception reaches the event loop, the callback for
    the song is never registered, and the cycle goes on without them: from
    4300 ms after the call until the auto-hide runs, exactly one exception
    was reported, the label is typed, the artist and the song line are
    empty, the box is on stage, open and opaque, and the auto-hide is
    pending alone. No fallback to "Artist Name" takes place. *)
Theorem non_string_artist_throws (sw : Dom -> Z) (arg : option request)
    (s : State) (T : Z) :
  wf s -> timers s = [] ->
  truthy (artist (data_of arg)) = true ->
  has_split (artist (data_of arg)) = false ->
  clock s + 4300 <= T < clock s + 13000 ->
  exists s',
    advance sw (weight (DelayedStart (data_of arg))) T (play arg s) = Some s'
    /\ uncaught s' = S (uncaught s)
    /\ rendered NowPlaying (dom s') = fully_shown "Now Playing:"
    /\ rendered Artist (dom s') = []
    /\ rendered Song (dom s') = []
    /\ text_opacity (dom s') = 1
    /\ box_bottom (dom s') = 40
    /\ 1000 <= box_width (dom s') <= 1600
    /\ timers s' = [{| tid := next_tid s + 3; due := clock s + 13000;
                       act := AutoHide |}].
Proof.
  intros Hwf Hq Htr Hns HT.
  assert (HA : has_split (js_or (artist (data_of arg)) "Artist Name") = false)
    by (now rewrite js_or_truthy).
  destruct (outline_bad_artist arg s T Hq HA HT)
    as (o & Ho & Hto & _ & Huo & Hlb & _ & Hop & _ & _ & Hnp & Har & Hso & Hno).
  destruct (cycle_bridge sw arg s T _ 5 o Hwf Hq
              ltac:(rewrite HA; lia) (Nat.le_refl _) Ho)
    as (s' & Hrun & _ & _ & Et & _ & Eu & Ed & Hnth & Hw).
  set (l0 := map hide_span (nodes (dom s))) in *.
  assert (Hl0 : List.length l0 = List.length (nodes (dom s)))
    by apply length_map.
  exists s'. split; [exact Hrun |].
  split; [now rewrite Eu |].
  split.
  { apply (rendered_line NowPlaying (dom s') (dom o) l0 [] "Now Playing:" Ed).
    - now rewrite Hl0.
    - now rewrite app_nil_r.
    - rewrite Hl0. exact Hnth. }
  split; [exact (rendered_empty Artist _ _ Ed Har) |].
  split; [exact (rendered_empty Song _ _ Ed Hso) |].
  assert (Hst : forall (X : Type) (p : Dom -> X),
             (forall d, p (hide d) = p d) -> p (dom s') = p (dom o))
    by (intros X p Hp; now rewrite <- Ed, Hp).
  unfold text_opacity, box_bottom.
  rewrite (Hst _ tc_opacity (fun _ => eq_refl)), Hop.
  rewrite (Hst _ lt_bottom (fun _ => eq_refl)), Hlb.
  split; [reflexivity |]. split; [reflexivity |].
  split; [| now rewrite Et].
  destruct Hw as [(y & Hy & Hk) | Hw]; [| exact Hw].
  rewrite Hto in Hy. destruct Hy as [<- | []]. discriminate.
Qed.

Lemma non_string_artist_throws_witness :
  exists s',
    advance glyph_layout 64 5000
      (play (Some {| artist := JNum 5; song := JStr "B" |}) page_load) = Some s'
    /\ uncaught s' = 1%nat
    /\ rendered Artist (dom s') = []
    /\ rendered Song (dom s') = [].
Proof.
  destruct (non_string_artist_throws glyph_layout
              (Some {| artist := JNum 5; song := JStr "B" |}) page_load 5000)
    as (s' & Hrun & Hu & _ & Har & Hso & _).
  - exact wf_page_load.
  - reflexivity.
  - reflexivity.
  - reflexivity.
  - vm_compute. split; [discriminate | reflexivity].
  - exists s'. split; [| split; [exact Hu | split; [exact Har | exact Hso]]].
    apply (advance_le glyph_layout 5000 _ 64 _ _) in Hrun; [exact Hrun |].
    vm_compute. lia.
Defined.

(** The cycle of a request whose song has no [split] method, once the
    callback that types the song has thrown. *)
Lemma cycle_hold_bad_song (sw : Dom -> Z) (arg : option request) (s : State)
    (T : Z) (A : string) (fuel : nat) :
  wf s -> timers s = [] ->
  unboxed (js_or (artist (data_of arg)) "Artist Name") = JStr A ->
  has_split (js_or (song (data_of arg)) "Song Title") = false ->
  clock s + 4100 + typing_time (JStr A) <= T < clock s + 13000 ->
  (weight (DelayedStart (data_of arg)) <= fuel)%nat ->
  exists s',
    advance sw fuel T (play arg s) = Some s'
    /\ uncaught s' = S (uncaught s)
    /\ rendered NowPlaying (dom s') = fully_shown "Now Playing:"
    /\ rendered Artist (dom s') = fully_shown A
    /\ rendered Song (dom s') = []
    /\ text_opacity (dom s') = 1
    /\ box_bottom (dom s') = 40
    /\ 1000 <= box_width (dom s') <= 1600
    /\ timers s' = [{| tid := next_tid s + 3; due := clock s + 13000;
                       act := AutoHide |}].
Proof.
  intros Hwf Hq HA HS HT Hfuel.
  assert (HlS : last_reveal (js_or (song (data_of arg)) "Song Title") = 0)
    by (destruct (js_or (song (data_of arg)) "Song Title");
        try reflexivity; discriminate).
  destruct (outline_bad_song arg s T A Hq HA HS HT)
    as (o & Ho & Hto & _ & Huo & Hlb & _ & Hop & _ & _ & Hnp & Har & Hso & Hno).
  destruct (cycle_bridge sw arg s T fuel 6 o Hwf Hq
              ltac:(rewrite has_split_unboxed, typing_time_unboxed, HA, HlS;
                    cbn [has_split]; lia) Hfuel Ho)
    as (s' & Hrun & _ & _ & Et & _ & Eu & Ed & Hnth & Hw).
  set (l0 := map hide_span (nodes (dom s))) in *.
  assert (Hl0 : List.length l0 = List.length (nodes (dom s)))
    by apply length_map.
  exists s'. split; [exact Hrun |].
  split; [now rewrite Eu |].
  split.
  { apply (rendered_line NowPlaying (dom s') (dom o) l0 (spans_of A)
             "Now Playing:" Ed).
    - now rewrite Hl0.
    - exact Hno.
    - rewrite Hl0. exact Hnth. }
  split.
  { apply (rendered_line Artist (dom s') (dom o)
             (l0 ++ spans_of "Now Playing:") [] A Ed).
    - rewrite length_app, Hl0. exact Har.
    - now rewrite Hno, app_nil_r, <- app_assoc.
    - intros j sp Hj. apply Hnth. rewrite length_app in Hj. lia. }
  split; [exact (rendered_empty Song _ _ Ed Hso) |].
  assert (Hst : forall (X : Type) (p : Dom -> X),
             (forall d, p (hide d) = p d) -> p (dom s') = p (dom o))
    by (intros X p Hp; now rewrite <- Ed, Hp).
  unfold text_opacity, box_bottom.
  rewrite (Hst _ tc_opacity (fun _ => eq_refl)), Hop.
  rewrite (Hst _ lt_bottom (fun _ => eq_refl)), Hlb.
  split; [reflexivity |]. split; [reflexivity |].
  split; [| now rewrite Et].
  destruct Hw as [(y & Hy & Hk) | Hw]; [| exact Hw].
  rewrite Hto in Hy. destruct Hy as [<- | []]. discriminate.
Qed.

(** X9. The same for the song. With a string for the artist and a song
    that is truthy but has no [split] method (a number, [true], a plain
    object), the artist is typed, the callback that hands the song to the
    typewriter empties the song line and throws, and from then (4100 ms
    after the call plus the typing time of the artist) until the auto-hide
    runs exactly one exception was reported, the label and the artist are
    fully typed, the song line is empty, and the auto-hide is pending
    alone. *)
Theorem non_string_song_throws (sw : Dom -> Z) (arg : option request)
    (s : State) (T : Z) (A : string) :
  wf s -> timers s = [] ->
  js_or (artist (data_of arg)) "Artist Name" = JStr A ->
  truthy (song (data_of arg)) = true ->
  has_split (song (data_of arg)) = false ->
  clock s + 4100 + typing_time (JStr A) <= T < clock s + 13000 ->
  exists s',
    advance sw (weight (DelayedStart (data_of arg))) T (play arg s) = Some s'
    /\ uncaught s' = S (uncaught s)
    /\ rendered NowPlaying (dom s') = fully_shown "Now Playing:"
    /\ rendered Artist (dom s') = fully_shown A
    /\ rendered Song (dom s') = []
    /\ text_opacity (dom s') = 1
    /\ box_bottom (dom s') = 40
    /\ 1000 <= box_width (dom s') <= 1600
    /\ timers s' = [{| tid := next_tid s + 3; due := clock s + 13000;
                       act := AutoHide |}].
Proof.
  intros Hwf Hq HA Htr Hns HT.
  apply (cycle_hold_bad_song sw arg s T A); try assumption.
  - now apply unboxed_string.
  - now rewrite js_or_truthy.
  - apply Nat.le_refl.
Qed.

Lemma non_string_song_throws_witness :
  exists s',
    advance glyph_layout 64 5000
      (play (Some {| artist := JStr "A"; song := JObj |}) page_load) = Some s'
    /\ uncaught s' = 1%nat
    /\ rendered Artist (dom s') = fully_shown "A"
    /\ rendered Song (dom s') = [].
Proof.
  destruct (non_string_song_throws glyph_layout
              (Some {| artist := JStr "A"; song := JObj |}) page_load 5000 "A")
    as (s' & Hrun & Hu & _ & Har & Hso & _).
  - exact wf_page_load.
  - reflexivity.
  - reflexivity.
  - reflexivity.
  - reflexivity.
  - vm_compute. split; [discriminate | reflexivity].
  - exists s'. split; [| split; [exact Hu | split; [exact Har | exact Hso]]].
    apply (advance_le glyph_layout 5000 _ 64 _ _) in Hrun; [exact Hrun |].
    vm_compute. lia.
Defined.

(** ** Commands that arrive when only tracked timers are pending *)

Lemma cleared_only_tracked (s : State) :
  (forall x, In x (timers s) -> tracked s x = true) ->
  clearTimeout (delayedStartTimeout s) (clearTimeout (autoHideTimeout s) s)
  = set_timers [] s.
Proof.
  intros H.
  apply state_ext;
    rewrite ?cleared_tracked, ?(proj1 (clearTimeout_frame _ _)),
      ?(proj1 (proj2 (clearTimeout_frame _ _))),
      ?(proj1 (proj2 (proj2 (clearTimeout_frame _ _)))),
      ?(proj1 (proj2 (proj2 (proj2 (clearTimeout_frame _ _))))),
      ?(proj1 (proj2 (proj2 (proj2 (proj2 (clearTimeout_frame _ _)))))),
      ?(proj2 (proj2 (proj2 (proj2 (proj2 (clearTimeout_frame _ _))))));
    try reflexivity.
  cbn [timers set_timers].
  induction (timers s) as [| x l IH]; [reflexivity |].
  cbn [filter]. rewrite (H x (or_introl eq_refl)). cbn [negb].
  apply IH. intros y Hy. apply H. now right.
Qed.

(** [play] cancels what is tracked: when nothing else is pending it starts
    from an empty registry. *)
Lemma play_drops_tracked (arg : option request) (s : State) :
  (forall x, In x (timers s) -> tracked s x = true) ->
  play arg s = play arg (set_timers [] s).
Proof.
  intros H. rewrite !play_eq.
  rewrite (clearTimeout_none_pending (autoHideTimeout (set_timers [] s))
             (set_timers [] s) eq_refl).
  rewrite (clearTimeout_none_pending (delayedStartTimeout (set_timers [] s))
             (set_timers [] s) eq_refl).
  rewrite (cleared_only_tracked s H). reflexivity.
Qed.

Lemma wf_rest (s : State) : wf s -> wf (set_timers [] s).
Proof.
  intros (_ & _ & Hh & _).
  split; [constructor |]. split; [intros x [] |].
  split; [| split; [intros x sp [] | intros x y sp []]].
  intros h Hhd. split; [exact (proj1 (Hh h Hhd)) | intros x sp []].
Qed.

Lemma play_document (arg : option request) (s : State) :
  dom (play arg s) = play_reset (dom s) /\ uncaught (play arg s) = uncaught s.
Proof.
  rewrite play_eq.
  change (dom (set_delayedStartTimeout ?h (register ?l (with_dom ?f ?x))))
    with (f (dom x)).
  change (uncaught (set_delayedStartTimeout ?h (register ?l (with_dom ?f ?x))))
    with (uncaught x).
  rewrite !(proj1 (proj2 (proj2 (clearTimeout_frame _ _)))),
    !(proj1 (proj2 (proj2 (proj2 (clearTimeout_frame _ _))))).
  split; reflexivity.
Qed.

(** The first second after a [play] from a state with nothing pending:
    only its delayed start is pending, and it is tracked. *)
Lemma first_second_state (p : State) (x : timer) (t : Z) :
  wf p -> timers p = [x] -> delayedStartTimeout p = Some (tid x) ->
  clock p <= t < due x ->
  wf (set_clock (Z.max (clock p) t) p)
  /\ clock (set_clock (Z.max (clock p) t) p) = t
  /\ (forall y, In y (timers (set_clock (Z.max (clock p) t) p)) ->
                tracked (set_clock (Z.max (clock p) t) p) y = true)
  /\ dom (set_clock (Z.max (clock p) t) p) = dom p
  /\ uncaught (set_clock (Z.max (clock p) t) p) = uncaught p.
Proof.
  intros Hwf Htm Hd Ht.
  split; [now apply wf_set_clock |].
  split; [cbn [clock set_clock]; lia |].
  split; [| split; reflexivity].
  intros y Hy. cbn [timers set_clock] in Hy. rewrite Htm in Hy.
  destruct Hy as [<- | []].
  unfold tracked. cbn [delayedStartTimeout autoHideTimeout set_clock].
  rewrite Hd, Nat.eqb_refl. apply orb_true_r.
Qed.

Lemma play_first_second (sw : Dom -> Z) (arg : option request) (s : State)
    (t : Z) (fuel : nat) :
  wf s -> timers s = [] -> clock s <= t < clock s + 1000 ->
  exists s1,
    advance sw fuel t (play arg s) = Some s1
    /\ wf s1 /\ clock s1 = t
    /\ (forall x, In x (timers s1) -> tracked s1 x = true)
    /\ dom s1 = play_reset (dom s)
    /\ uncaught s1 = uncaught s.
Proof.
  intros Hwf Hq Ht.
  destruct (play_registry arg s) as (Htm & _ & Hc & Hd & _).
  rewrite Hq in Htm. cbn [filter app] in Htm.
  destruct (first_second_state (play arg s) _ t (wf_play arg s Hwf) Htm Hd)
    as (H1 & H2 & H3 & H4 & H5); [rewrite Hc; cbn [due]; lia |].
  exists (set_clock (Z.max (clock (play arg s)) t) (play arg s)).
  split.
  { apply advance_none_due. intros x Hx. rewrite Htm in Hx.
    destruct Hx as [<- | []]. cbn [due]. lia. }
  split; [exact H1 |]. split; [exact H2 |]. split; [exact H3 |].
  rewrite H4, H5. exact (play_document arg s).
Qed.

(** [cycle_hold] from a state in which only tracked timers are pending. *)
Lemma cycle_hold_tracked (sw : Dom -> Z) (arg : option request) (s : State)
    (T : Z) (A S : string) (fuel : nat) :
  wf s -> (forall x, In x (timers s) -> tracked s x = true) ->
  unboxed (js_or (artist (data_of arg)) "Artist Name") = JStr A ->
  unboxed (js_or (song (data_of arg)) "Song Title") = JStr S ->
  clock s + 4100 + typing_time (JStr A) + typing_time (JStr S) <= T
  < clock s + 13000 ->
  (weight (DelayedStart (data_of arg)) <= fuel)%nat ->
  exists s',
    advance sw fuel T (play arg s) = Some s'
    /\ timers s' = [{| tid := next_tid s + 3; due := clock s + 13000;
                       act := AutoHide |}]
    /\ uncaught s' = uncaught s
    /\ rendered NowPlaying (dom s') = fully_shown "Now Playing:"
    /\ rendered Artist (dom s') = fully_shown A
    /\ rendered Song (dom s') = fully_shown S
    /\ lt_bottom (dom s') = Some 40
    /\ logo_bottom (dom s') = Some (-80)
    /\ tc_opacity (dom s') = Some 1
    /\ 1000 <= box_width (dom s') <= 1600.
Proof.
  intros Hwf Htr HA HS HT Hfuel. rewrite (play_drops_tracked arg s Htr).
  destruct (cycle_hold sw arg (set_timers [] s) T A S fuel (wf_rest s Hwf)
              eq_refl HA HS HT Hfuel)
    as (s' & Hrun & _ & _ & Ht & _ & Hu & Hnp & Har & Hso & Hlb & Hgb & Hop
        & _ & _ & Hw).
  exists s'. split; [exact Hrun |]. split; [exact Ht |]. split; [exact Hu |].
  split; [exact Hnp |]. split; [exact Har |]. split; [exact Hso |].
  split; [exact Hlb |]. split; [exact Hgb |]. split; [exact Hop | exact Hw].
Qed.

(** X10. An update that arrives when only a tracked timer is pending
    restarts the overlay cleanly. After a [play] from a state with nothing
    pending, that is so during the first second (only the delayed start is
    pending) and while the overlay holds (the lines are typed, only the
    auto-hide is pending). [update] then cancels that timer, and the new
    cycle runs as from rest: from the moment its song line is typed until
    its own auto-hide, 13000 ms after the update, the lines read the new
    artist and song, fully opaque, the box is on stage and open, no
    exception was raised and the new auto-hide is pending alone; nothing of
    the first request is left. *)
Theorem update_restarts_cleanly (sw : Dom -> Z) (arg1 arg2 : option request)
    (s : State) (t T : Z) (A S : string) :
  wf s -> timers s = [] ->
  (clock s <= t < clock s + 1000
   \/ exists A1 S1,
        js_or (artist (data_of arg1)) "Artist Name" = JStr A1
        /\ js_or (song (data_of arg1)) "Song Title" = JStr S1
        /\ clock s + 4100 + typing_time (JStr A1) + typing_time (JStr S1) <= t
           < clock s + 13000) ->
  js_or (artist (data_of arg2)) "Artist Name" = JStr A ->
  js_or (song (data_of arg2)) "Song Title" = JStr S ->
  t + 4100 + typing_time (JStr A) + typing_time (JStr S) <= T < t + 13000 ->
  exists s',
    session sw (Nat.max (weight (DelayedStart (data_of arg1)))
                        (weight (DelayedStart (data_of arg2))))
      [(t, Update arg2)] T (play arg1 s) = Some s'
    /\ rendered NowPlaying (dom s') = fully_shown "Now Playing:"
    /\ rendered Artist (dom s') = fully_shown A
    /\ rendered Song (dom s') = fully_shown S
    /\ text_opacity (dom s') = 1
    /\ box_bottom (dom s') = 40
    /\ 1000 <= box_width (dom s') <= 1600
    /\ logo_pos (dom s') = -80
    /\ uncaught s' = uncaught s
    /\ map (fun x => (due x, act x)) (timers s') = [(t + 13000, AutoHide)].
Proof.
  intros Hwf Hq Hwhen HA HS HT.
  set (fuel := Nat.max _ _).
  assert (Hs1 : exists s1,
             advance sw fuel t (play arg1 s) = Some s1
             /\ wf s1 /\ clock s1 = t
             /\ (forall x, In x (timers s1) -> tracked s1 x = true)
             /\ uncaught s1 = uncaught s).
  { destruct Hwhen as [Ht | (A1 & S1 & HA1 & HS1 & Ht)].
    - destruct (play_first_second sw arg1 s t fuel Hwf Hq Ht)
        as (s1 & H1 & H2 & H3 & H4 & _ & H5).
      exists s1. split; [exact H1 |]. split; [exact H2 |].
      split; [exact H3 |]. split; [exact H4 | exact H5].
    - destruct (cycle_hold sw arg1 s t A1 S1 fuel Hwf Hq (unboxed_string _ _ HA1)
                  (unboxed_string _ _ HS1) Ht
                  ltac:(unfold fuel; lia))
        as (s1 & H1 & H2 & H3 & Hth & Hah & H5 & _).
      exists s1. split; [exact H1 |]. split; [exact H2 |].
      split; [exact H3 |]. split; [| exact H5].
      intros x Hx. rewrite Hth in Hx. destruct Hx as [<- | []].
      unfold tracked. rewrite Hah. cbn [tid]. now rewrite Nat.eqb_refl. }
  destruct Hs1 as (s1 & Hrun1 & Hwf1 & Hc1 & Htr1 & Hu1).
  destruct (cycle_hold_tracked sw arg2 s1 T A S fuel Hwf1 Htr1
              (unboxed_string _ _ HA) (unboxed_string _ _ HS)
              ltac:(rewrite Hc1; exact HT) ltac:(unfold fuel; lia))
    as (s' & Hrun & Ht & Hu & Hnp & Har & Hso & Hlb & Hgb & Hop & Hw).
  exists s'. split.
  { cbn [session]. rewrite Hrun1. cbn [run_command]. exact Hrun. }
  unfold text_opacity, box_bottom, logo_pos. rewrite Hlb, Hgb, Hop, Ht, Hu, Hu1, Hc1.
  split; [exact Hnp |]. split; [exact Har |]. split; [exact Hso |].
  split; [reflexivity |]. split; [reflexivity |]. split; [exact Hw |].
  split; [reflexivity |]. split; reflexivity.
Qed.

Lemma update_restarts_cleanly_witness :
  exists s',
    session glyph_layout
      (Nat.max (weight (DelayedStart request_metallica))
               (weight (DelayedStart request_AB)))
      [(8000, Update (Some request_AB))] 14000
      (play (Some request_metallica) page_load) = Some s'
    /\ rendered Artist (dom s') = fully_shown "A"
    /\ rendered Song (dom s') = fully_shown "B"
    /\ uncaught s' = 0%nat.
Proof.
  destruct (update_restarts_cleanly glyph_layout (Some request_metallica)
              (Some request_AB) page_load 8000 14000 "A" "B")
    as (s' & Hrun & _ & Har & Hso & _ & _ & _ & _ & Hu & _).
  - exact wf_page_load.
  - reflexivity.
  - right. exists "Metallica"%string, "Enter Sandman"%string.
    split; [reflexivity |]. split; [reflexivity |].
    vm_compute. split; [discriminate | reflexivity].
  - reflexivity.
  - reflexivity.
  - vm_compute. split; [discriminate | reflexivity].
  - exists s'. split; [| split; [exact Har | split; [exact Hso | exact Hu]]].
    exact Hrun.
Defined.

(** X11. A [stop] in the first second after a [play] cancels the play
    altogether. Only the delayed start is pending then, and [stop] clears
    it: at every later time the box is off stage at -200px, the text
    container is transparent and the three lines are empty, so the overlay
    never appears; no exception is raised, and 3500 ms after the [stop] the
    overlay is at rest. *)
Theorem early_stop_cancels_play (sw : Dom -> Z) (arg : option request)
    (s : State) (t T : Z) :
  wf s -> timers s = [] ->
  clock s <= t < clock s + 1000 -> t <= T ->
  exists s',
    session sw (weight (DelayedStart (data_of arg))) [(t, Stop)] T (play arg s)
    = Some s'
    /\ box_bottom (dom s') = -200
    /\ text_opacity (dom s') = 0
    /\ (forall el, rendered el (dom s') = [])
    /\ uncaught s' = uncaught s
    /\ (t + 3500 <= T -> Idle s').
Proof.
  intros Hwf Hq Ht HT.
  set (fuel := weight (DelayedStart (data_of arg))).
  destruct (play_first_second sw arg s t fuel Hwf Hq Ht)
    as (s1 & Hrun1 & _ & Hc1 & Htr1 & Hd1 & Hu1).
  destruct (stop_tracked_run sw s1 (T - t) Htr1 ltac:(lia))
    as (s' & Hrun & Hd & _ & Hu & Hrest).
  replace (clock s1 + (T - t)) with T in Hrun by lia.
  exists s'. split.
  { cbn [session]. rewrite Hrun1. cbn [run_command].
    apply (advance_le sw T 4 fuel); [| exact Hrun].
    unfold fuel, weight. lia. }
  rewrite Hd, Hd1, Hu, Hu1.
  assert (Hb : box_bottom (exit_progress (T - t) (play_reset (dom s))) = -200
               /\ text_opacity (exit_progress (T - t) (play_reset (dom s))) = 0).
  { unfold exit_progress.
    destruct (500 <=? T - t), (1200 <=? T - t), (1800 <=? T - t),
      (3500 <=? T - t); split; reflexivity. }
  split; [exact (proj1 Hb) |]. split; [exact (proj2 Hb) |].
  split; [intros el; rewrite exit_progress_text; destruct el; reflexivity |].
  split; [reflexivity |].
  intros H35. unfold Idle. rewrite Hd, Hd1.
  destruct (exit_progress_done (T - t) (play_reset (dom s)) ltac:(lia))
    as (Hw & _).
  split; [apply Hrest; lia |]. split; [exact Hw | exact Hb].
Qed.

Lemma early_stop_cancels_play_witness :
  exists s',
    session glyph_layout (weight (DelayedStart request_metallica))
      [(600, Stop)] 4100 (play (Some request_metallica) page_load) = Some s'
    /\ (forall el, rendered el (dom s') = [])
    /\ Idle s'.
Proof.
  destruct (early_stop_cancels_play glyph_layout (Some request_metallica)
              page_load 600 4100)
    as (s' & Hrun & _ & _ & Htxt & _ & Hidle).
  - exact wf_page_load.
  - reflexivity.
  - vm_compute. split; [discriminate | reflexivity].
  - vm_compute. discriminate.
  - exists s'. split; [| split; [exact Htxt |]].
    + exact Hrun.
    + apply Hidle. vm_compute. discriminate.
Defined.

(** ** What keeps the characters of the three lines *)






(** ** stop and the text of the three lines *)




(** ** The defaults over a whole cycle *)








